(** * F1 calendar sync: a shallow embedding of [f1_calendar_sync.py]

    The development follows the source file top-down:
    - Python strings and the few [str] methods the code calls;
    - [datetime]: construction, [replace], comparison, [fromisoformat];
    - the calendar service (the remote store behind [service.events()]);
    - [find_existing_event], [add_or_update_event];
    - [parse_f1_datetime], [format_session_title],
      [format_session_description];
    - [sync_f1_schedule];
    - [F1APIClient.get_f1_schedule] and the calendar container
      ([_share_calendar_with_user], [get_or_create_calendar]);
    - the properties of the specification, one theorem per claim;
    - further properties of the code. *)

From Stdlib Require Import ZArith Lia Ascii String List.
From stdpp Require Import base tactics option list strings gmap sorting pretty.


Local Open Scope Z_scope.

(** ** Exceptions *)

(** The exception classes the source mentions in [except] clauses or that
    its library calls raise.  [TransportError] stands for what
    [.execute()] raises besides [HttpError] when the request does not
    get an answer ([socket.timeout], [httplib2.ServerNotFoundError] and
    the like); no [except] clause of the event functions names it. *)
Inductive exn : Set := ValueError | TypeError | HttpError | TransportError.

Inductive result (A : Type) : Type :=
| Ok (a : A)
| Raise (e : exn).
Arguments Ok {A} a.
Arguments Raise {A} e.

Definition exn_eqb (a b : exn) : bool :=
  match a, b with
  | ValueError, ValueError | TypeError, TypeError | HttpError, HttpError
  | TransportError, TransportError => true
  | _, _ => false
  end.

(** ** Python strings *)

Module PyStr.

(** Truthiness of a [str]: the empty string is falsy. *)
Definition truthy (s : string) : bool :=
  match s with EmptyString => false | String _ _ => true end.

(** [s.replace(old, new)] for a one-character [old]: every occurrence is
    rewritten, left to right. *)
Fixpoint replace_char (old : ascii) (new : string) (s : string) : string :=
  match s with
  | EmptyString => EmptyString
  | String c r =>
      if Ascii.eqb c old then new +:+ replace_char old new r
      else String c (replace_char old new r)
  end.

(** Does the character occur in the string. *)
Fixpoint occurs (c : ascii) (s : string) : bool :=
  match s with
  | EmptyString => false
  | String d r => Ascii.eqb d c || occurs c r
  end.

(** The split at the LAST occurrence of the separator, if there is one. *)
Fixpoint rsplit_last (sep : ascii) (s : string) : option (string * string) :=
  match s with
  | EmptyString => None
  | String c r =>
      match rsplit_last sep r with
      | Some (a, b) => Some (String c a, b)
      | None => if Ascii.eqb c sep then Some (EmptyString, r) else None
      end
  end.

(** [s.rsplit(sep, 1)]: at most one split, from the right. *)
Definition rsplit1 (sep : ascii) (s : string) : list string :=
  match rsplit_last sep s with
  | Some (a, b) => [a; b]
  | None => [s]
  end.

(** [sep.join(parts)] *)
Fixpoint join (sep : string) (parts : list string) : string :=
  match parts with
  | [] => EmptyString
  | [p] => p
  | p :: rest => p +:+ sep +:+ join sep rest
  end.

Definition in_chars (chars : list ascii) (c : ascii) : bool :=
  existsb (Ascii.eqb c) chars.

Fixpoint lstrip (chars : list ascii) (s : string) : string :=
  match s with
  | EmptyString => EmptyString
  | String c r => if in_chars chars c then lstrip chars r else s
  end.

Fixpoint rstrip (chars : list ascii) (s : string) : string :=
  match s with
  | EmptyString => EmptyString
  | String c r =>
      match rstrip chars r with
      | EmptyString => if in_chars chars c then EmptyString else String c EmptyString
      | r' => String c r'
      end
  end.

(** [s.strip(chars)] *)
Definition strip (chars : list ascii) (s : string) : string :=
  rstrip chars (lstrip chars s).

Definition is_lower (c : ascii) : bool :=
  let n := nat_of_ascii c in (Nat.leb 97 n && Nat.leb n 122)%bool.
Definition is_upper (c : ascii) : bool :=
  let n := nat_of_ascii c in (Nat.leb 65 n && Nat.leb n 90)%bool.
Definition to_upper (c : ascii) : ascii :=
  if is_lower c then ascii_of_nat (nat_of_ascii c - 32) else c.
Definition to_lower (c : ascii) : ascii :=
  if is_upper c then ascii_of_nat (nat_of_ascii c + 32) else c.

(** [s.title()] on ASCII text: a cased character is upper-cased when it
    follows an uncased one (or starts the string) and lower-cased
    otherwise. *)
Fixpoint title_from (prev_cased : bool) (s : string) : string :=
  match s with
  | EmptyString => EmptyString
  | String c r =>
      let cased := (is_lower c || is_upper c)%bool in
      String (if prev_cased then to_lower c else to_upper c) (title_from cased r)
  end.
Definition title (s : string) : string := title_from false s.

(** [s[i:j]] and [s[i:]] *)
Definition slice (i j : nat) (s : string) : string := substring i (j - i) s.
Fixpoint drop (n : nat) (s : string) : string :=
  match n, s with
  | O, _ => s
  | S n', String _ r => drop n' r
  | S _, EmptyString => EmptyString
  end.

End PyStr.

(** ** Decimal digits *)

Definition digit_val (c : ascii) : option Z :=
  let n := nat_of_ascii c in
  if (Nat.leb 48 n && Nat.leb n 57)%bool then Some (Z.of_nat n - 48) else None.

(** [int(s)] on a string that must consist of decimal digits only. *)
Fixpoint digits_val (acc : Z) (s : string) : option Z :=
  match s with
  | EmptyString => Some acc
  | String c r =>
      match digit_val c with
      | Some d => digits_val (10 * acc + d) r
      | None => None
      end
  end.

Definition parse_digits (s : string) : option Z :=
  match s with
  | EmptyString => None
  | _ => digits_val 0 s
  end.

Definition digit_char (k : Z) : ascii := ascii_of_nat (48 + Z.to_nat k).

(** Zero-padded rendering, as [isoformat] prints fields. *)
Definition fmt2 (n : Z) : string :=
  String (digit_char (n / 10)) (String (digit_char (n mod 10)) EmptyString).
Definition fmt4 (n : Z) : string :=
  String (digit_char (n / 1000))
    (String (digit_char (n / 100 mod 10))
       (String (digit_char (n / 10 mod 10))
          (String (digit_char (n mod 10)) EmptyString))).

(** ** datetime *)

Module Datetime.

(** A [datetime.datetime] value.  [tzinfo] is [None] for a naive value and
    [Some off] for an aware one, [off] being the UTC offset in
    microseconds ([timezone.utc] is [Some 0]). *)
Record datetime : Set := mkdt {
  year : Z; month : Z; day : Z;
  hour : Z; minute : Z; second : Z; microsecond : Z;
  tzinfo : option Z
}.

Definition is_leap (y : Z) : bool :=
  ((y mod 4 =? 0) && (negb (y mod 100 =? 0) || (y mod 400 =? 0)))%bool.

Definition days_before_year (y : Z) : Z :=
  let p := y - 1 in p * 365 + p / 4 - p / 100 + p / 400.

Definition days_in_month (y m : Z) : Z :=
  if ((m =? 2) && is_leap y)%bool then 29
  else nth (Z.to_nat m) [0; 31; 28; 31; 30; 31; 30; 31; 31; 30; 31; 30; 31] 0.

Definition days_before_month (y m : Z) : Z :=
  nth (Z.to_nat m) [0; 0; 31; 59; 90; 120; 151; 181; 212; 243; 273; 304; 334] 0
  + (if ((2 <? m) && is_leap y)%bool then 1 else 0).

(** [date.toordinal()]: the proleptic Gregorian day number. *)
Definition ymd2ord (y m d : Z) : Z :=
  days_before_year y + days_before_month y m + d.

Definition toordinal (dt : datetime) : Z := ymd2ord (year dt) (month dt) (day dt).

Definition us_per_second : Z := 1000000.
Definition us_per_day : Z := 86400 * us_per_second.

(** The field checks of the [datetime] constructor. *)
Definition fields_ok (y m d h mi s us : Z) : bool :=
  ((1 <=? y) && (y <=? 9999) && (1 <=? m) && (m <=? 12)
   && (1 <=? d) && (d <=? days_in_month y m)
   && (0 <=? h) && (h <=? 23) && (0 <=? mi) && (mi <=? 59)
   && (0 <=? s) && (s <=? 59) && (0 <=? us) && (us <=? 999999))%bool.

(** [datetime(y, m, d, h, mi, s, us, tzinfo)]: [ValueError] when a field is
    out of range. *)
Definition new (y m d h mi s us : Z) (tz : option Z) : result datetime :=
  if fields_ok y m d h mi s us then Ok (mkdt y m d h mi s us tz)
  else Raise ValueError.

(** [dt.replace(hour=h, minute=mi, second=s)]: builds a new value through
    the constructor, so the fields are checked again. *)
Definition replace_hms (dt : datetime) (h mi s : Z) : result datetime :=
  new (year dt) (month dt) (day dt) h mi s (microsecond dt) (tzinfo dt).

(** [dt.replace(hour=h)] *)
Definition replace_hour (dt : datetime) (h : Z) : result datetime :=
  new (year dt) (month dt) (day dt) h (minute dt) (second dt)
      (microsecond dt) (tzinfo dt).

(** Microseconds since the start of day 0, wall-clock fields only. *)
Definition wall_micros (dt : datetime) : Z :=
  toordinal dt * us_per_day
  + ((hour dt * 60 + minute dt) * 60 + second dt) * us_per_second
  + microsecond dt.

(** The instant a value denotes on the UTC time line.  A naive value is
    read at offset zero, which is how the calendar reads a [dateTime]
    sent together with [timeZone: "UTC"]. *)
Definition utc_micros (dt : datetime) : Z :=
  wall_micros dt - default 0 (tzinfo dt).

(** The UTC calendar day of the instant, as a day number. *)
Definition utc_day (dt : datetime) : Z := utc_micros dt / us_per_day.

Definition aware (dt : datetime) : bool :=
  match tzinfo dt with Some _ => true | None => false end.

(** [a < b]: aware values compare as instants, naive values by their
    fields, and mixing the two raises [TypeError]. *)
Definition lt (a b : datetime) : result bool :=
  match tzinfo a, tzinfo b with
  | Some _, Some _ => Ok (utc_micros a <? utc_micros b)
  | None, None => Ok (wall_micros a <? wall_micros b)
  | _, _ => Raise TypeError
  end.

(** *** [datetime.fromisoformat]

    The grammar is the one of the library's versions 3.7 to 3.10, which
    do not read a [Z] suffix (this is why the source rewrites it):
    YYYY-MM-DD[*HH[:MM[:SS[.fff[fff]]]][+HH:MM[:SS[.ffffff]]]] where [*]
    is any one character.  From 3.11 on the library reads more texts
    (fractions of any length, dates without hyphens, offsets without
    colon); the properties below speak of texts of the shapes
    YYYY-MM-DD and HH[:MM[:SS[.fff[fff]]]][Z], which every version reads
    alike, or of texts every version refuses.  [None] stands for the
    library's [ValueError]. *)

Definition parse2 (c1 c2 : ascii) : option Z :=
  match digit_val c1, digit_val c2 with
  | Some a, Some b => Some (10 * a + b)
  | _, _ => None
  end.

(** YYYY-MM-DD, exactly ten characters. *)
Definition parse_isoformat_date (s : string) : option (Z * Z * Z) :=
  match s with
  | String y1 (String y2 (String y3 (String y4 (String s1
      (String m1 (String m2 (String s2 (String d1 (String d2 EmptyString))))))))) =>
      if (Ascii.eqb s1 "-" && Ascii.eqb s2 "-")%bool then
        match parse2 y1 y2, parse2 y3 y4, parse2 m1 m2, parse2 d1 d2 with
        | Some yh, Some yl, Some m, Some d => Some (100 * yh + yl, m, d)
        | _, _, _, _ => None
        end
      else None
  | _ => None
  end.

(** The fraction of a second: three or six digits. *)
Definition parse_fraction (f : string) : option Z :=
  match String.length f with
  | 3%nat => match parse_digits f with Some n => Some (n * 1000) | None => None end
  | 6%nat => parse_digits f
  | _ => None
  end.

(** HH[:MM[:SS[.fff[fff]]]] *)
Definition parse_hh_mm_ss_ff (t : string) : option (Z * Z * Z * Z) :=
  match t with
  | String h1 (String h2 r1) =>
      match parse2 h1 h2 with
      | None => None
      | Some hh =>
          match r1 with
          | EmptyString => Some (hh, 0, 0, 0)
          | String c1 (String m1 (String m2 r2)) =>
              if Ascii.eqb c1 ":" then
                match parse2 m1 m2 with
                | None => None
                | Some mm =>
                    match r2 with
                    | EmptyString => Some (hh, mm, 0, 0)
                    | String c2 (String s1 (String s2 r3)) =>
                        if Ascii.eqb c2 ":" then
                          match parse2 s1 s2 with
                          | None => None
                          | Some ss =>
                              match r3 with
                              | EmptyString => Some (hh, mm, ss, 0)
                              | String c3 f =>
                                  if Ascii.eqb c3 "." then
                                    match parse_fraction f with
                                    | Some us => Some (hh, mm, ss, us)
                                    | None => None
                                    end
                                  else None
                              end
                          end
                        else None
                    | _ => None
                    end
                end
              else None
          | _ => None
          end
      end
  | _ => None
  end.

(** The text before the first sign character, the sign, and the text
    after it. *)
Fixpoint split_sign (t : string) : string * option (bool * string) :=
  match t with
  | EmptyString => (EmptyString, None)
  | String c r =>
      if Ascii.eqb c "+" then (EmptyString, Some (false, r))
      else if Ascii.eqb c "-" then (EmptyString, Some (true, r))
      else let '(a, b) := split_sign r in (String c a, b)
  end.

(** [timezone(offset)]: the offset must lie strictly between -24h and
    +24h. *)
Definition tz_ok (off : Z) : bool :=
  ((- us_per_day <? off) && (off <? us_per_day))%bool.

(** The offset part, in microseconds.  An offset of zero whole seconds
    gives [timezone.utc], whatever its fraction. *)
Definition parse_tz (neg : bool) (tzstr : string) : option Z :=
  let n := String.length tzstr in
  if (Nat.eqb n 5 || Nat.eqb n 8 || Nat.eqb n 15)%bool then
    match parse_hh_mm_ss_ff tzstr with
    | Some (hh, mm, ss, us) =>
        let seconds := hh * 3600 + mm * 60 + ss in
        if seconds =? 0 then Some 0
        else
          let off := seconds * us_per_second + us in
          let off := if neg then - off else off in
          if tz_ok off then Some off else None
    | None => None
    end
  else None.

Definition parse_isoformat_time (t : string)
  : option (Z * Z * Z * Z * option Z) :=
  let '(timestr, tzpart) := split_sign t in
  match parse_hh_mm_ss_ff timestr with
  | None => None
  | Some (hh, mm, ss, us) =>
      match tzpart with
      | None => Some (hh, mm, ss, us, None)
      | Some (neg, tzstr) =>
          match parse_tz neg tzstr with
          | Some off => Some (hh, mm, ss, us, Some off)
          | None => None
          end
      end
  end.

Definition fromisoformat (s : string) : result datetime :=
  let dstr := PyStr.slice 0 10 s in
  let tstr := PyStr.drop 11 s in
  match parse_isoformat_date dstr with
  | None => Raise ValueError
  | Some (y, m, d) =>
      if PyStr.truthy tstr then
        match parse_isoformat_time tstr with
        | None => Raise ValueError
        | Some (hh, mm, ss, us, tz) => new y m d hh mm ss us tz
        end
      else new y m d 0 0 0 0 None
  end.

End Datetime.
Import Datetime.

(** ** The feed records *)

(** A race record of the feed.  A field is [None] when its key is absent
    from the dictionary. *)
Record circuit_info : Set := mkCircuit {
  circuitName : option string;
  country : option string;
  city : option string
}.

Record session : Set := mkSession {
  s_date : option string;
  s_time : option string
}.

Record race : Type := mkRace {
  raceName : option string;
  round : option Z;
  circuit : circuit_info;
  schedule : gmap string session
}.

(** [race.get("circuit", {})] of a record without the key. *)
Definition no_circuit : circuit_info := mkCircuit None None None.

(** [d.get(key, "")] *)
Definition get_str (v : option string) : string := default EmptyString v.

(** ** The calendar service *)

Definition CALENDAR_TIMEZONE : string := "UTC".

(** The body of a calendar event, as [add_or_update_event] builds it. *)
Record event : Set := mkEvent {
  summary : string;
  description : string;
  location : string;
  ev_start : datetime;
  ev_end : datetime;
  ev_timezone : string
}.

(** What the program writes to its logger. *)
Inductive log_entry : Type :=
| LogStarting
| LogNoRaces                         (* warning: No races found *)
| LogProcessing (n : nat)
| LogParseWarning (date_str time_str : string)
| LogLookupError                     (* error: Error checking existing events *)
| LogWriteError                      (* error: Error adding/updating event *)
| LogUpdated (title : string) (start : datetime)
| LogAdded (title : string) (start : datetime)
| LogSummary (total added updated past invalid : nat)
| LogAllPast                         (* warning, then the season-ended note *)
| LogNothingDone.                    (* warning: No events were added or updated *)

(** The state the program runs against: the events of the target calendar
    by identifier, the identifier the service hands out next, the outcome
    of the coming remote calls, and the log.  The outcomes are two lists,
    one for the lookups ([events().list]) and one for the writes
    ([events().insert], [events().update]); each call takes the next
    entry of its list, [Some e] makes [.execute()] raise [e]
    ([HttpError] when the service answers with an error status), and an
    exhausted list means every further call succeeds. *)
Record world : Type := mkWorld {
  events : gmap nat event;
  next_id : nat;
  lookup_faults : list (option exn);
  write_faults : list (option exn);
  log : list log_entry
}.

Definition add_log (e : log_entry) (w : world) : world :=
  mkWorld (events w) (next_id w) (lookup_faults w) (write_faults w) (log w ++ [e]).

(** *** State and exceptions *)

Definition M (A : Type) : Type := world → result A * world.

Definition ret {A} (a : A) : M A := λ w, (Ok a, w).
Definition raise {A} (e : exn) : M A := λ w, (Raise e, w).
Definition bind {A B} (m : M A) (f : A → M B) : M B :=
  λ w, match m w with
       | (Ok a, w') => f a w'
       | (Raise e, w') => (Raise e, w')
       end.
Definition lift {A} (r : result A) : M A := λ w, (r, w).
Definition logger (e : log_entry) : M unit := λ w, (Ok tt, add_log e w).

Notation "'let*' x ':=' m 'in' k" := (bind m (λ x, k))
  (at level 10, x name, m at level 100, k at level 200, only parsing).

(** [try: body except (classes): handler] *)
Definition try_except {A} (body : M A) (classes : list exn) (handler : M A) : M A :=
  λ w, match body w with
       | (Raise e, w') =>
           if existsb (exn_eqb e) classes then handler w' else (Raise e, w')
       | r => r
       end.

Fixpoint foldM {A B} (f : B → A → M B) (b : B) (l : list A) : M B :=
  match l with
  | [] => ret b
  | x :: l' => let* b' := f b x in foldM f b' l'
  end.

(** *** The remote interface *)

(** What one round trip ([.execute()]) gives before any answer is
    read. *)
Definition outcome (f : option exn) : result unit :=
  match f with Some e => Raise e | None => Ok tt end.

(** One round trip of a lookup or of a write: it raises what the next
    entry of its list says. *)
Definition lookup_call : M unit := λ w,
  (outcome (hd None (lookup_faults w)),
   mkWorld (events w) (next_id w) (tl (lookup_faults w)) (write_faults w) (log w)).

Definition write_call : M unit := λ w,
  (outcome (hd None (write_faults w)),
   mkWorld (events w) (next_id w) (lookup_faults w) (tl (write_faults w)) (log w)).

(** The outcomes in which every failure is an [HttpError], from a list of
    flags ([true]: the call fails). *)
Definition http_faults (flags : list bool) : list (option exn) :=
  map (λ b : bool, if b then Some HttpError else None) flags.

(** Every failure of the list is an [HttpError]. *)
Definition http_only (faults : list (option exn)) : Prop :=
  ∀ e, Some e ∈ faults → e = HttpError.

(** What [except HttpError] makes of the outcome of a round trip: an
    [HttpError] is caught, any other exception goes on to the caller. *)
Definition caught (f : option exn) : bool :=
  match f with Some HttpError => true | _ => false end.

Definition uncaught (f : option exn) : option exn :=
  match f with Some HttpError | None => None | Some e => Some e end.

(** An event is listed for [timeMin], [timeMax] when it ends after the
    lower bound and starts before the upper bound (both exclusive). *)
Definition in_window (time_min time_max : datetime) (it : nat * event) : bool :=
  ((utc_micros time_min <? utc_micros (ev_end it.2))
   && (utc_micros (ev_start it.2) <? utc_micros time_max))%bool.

Definition start_le (a b : nat * event) : Prop :=
  utc_micros (ev_start a.2) ≤ utc_micros (ev_start b.2).

#[global] Instance start_le_dec a b : Decision (start_le a b).
Proof. unfold start_le. apply _. Defined.

(** The items of [events().list(timeMin, timeMax, singleEvents=True,
    orderBy="startTime")]. *)
Definition list_items (m : gmap nat event) (time_min time_max : datetime)
  : list (nat * event) :=
  merge_sort start_le (filter (λ it, in_window time_min time_max it = true)
                              (map_to_list m)).

(** [events().list(...).execute()].  The bounds travel as [isoformat()]
    text, and the service refuses a bound without an offset. *)
Definition events_list (time_min time_max : datetime) : M (list (nat * event)) :=
  let* _ := lookup_call in
  if (aware time_min && aware time_max)%bool
  then λ w, (Ok (list_items (events w) time_min time_max), w)
  else raise HttpError.

(** [events().insert(body=...).execute()]: the new event's identifier. *)
Definition events_insert (body : event) : M nat :=
  let* _ := write_call in
  λ w, (Ok (next_id w),
        mkWorld (<[next_id w := body]> (events w)) (S (next_id w))
                (lookup_faults w) (write_faults w) (log w)).

(** [events().update(eventId=..., body=...).execute()]: a full replace of
    the event with that identifier. *)
Definition events_update (event_id : nat) (body : event) : M nat :=
  let* _ := write_call in
  λ w, match events w !! event_id with
       | Some _ => (Ok event_id,
                    mkWorld (<[event_id := body]> (events w)) (next_id w)
                            (lookup_faults w) (write_faults w) (log w))
       | None => (Raise HttpError, w)
       end.

(** ** GoogleCalendarService *)

Definition find_title (title : string) (items : list (nat * event))
  : option (nat * event) :=
  List.find (λ it, String.eqb (summary it.2) title) items.

(** [find_existing_event] *)
Definition find_existing_event (event_title : string) (event_start : datetime)
  : M (option (nat * event)) :=
  try_except
    (let* time_min := lift (replace_hms event_start 0 0 0) in
     let* time_max := lift (replace_hms event_start 23 59 59) in
     let* items := events_list time_min time_max in
     ret (find_title event_title items))
    [HttpError]
    (let* _ := logger LogLookupError in ret None).

(** [add_or_update_event] *)
Definition add_or_update_event (title : string) (start_time : datetime)
    (description location : string) : M (option nat) :=
  try_except
    (let* existing_event := find_existing_event title start_time in
     let* end_time := lift (replace_hour start_time (hour start_time + 2)) in
     let body := mkEvent title description location start_time end_time
                         CALENDAR_TIMEZONE in
     match existing_event with
     | Some (event_id, _) =>
         let* updated := events_update event_id body in
         let* _ := logger (LogUpdated title start_time) in
         ret (Some updated)
     | None =>
         let* new := events_insert body in
         let* _ := logger (LogAdded title start_time) in
         ret (Some new)
     end)
    [HttpError]
    (let* _ := logger LogWriteError in ret None).

(** ** Parsing and formatting *)

(** [parse_f1_datetime] *)
Definition parse_f1_datetime (date_str time_str : string) : M (option datetime) :=
  if (negb (PyStr.truthy date_str) || negb (PyStr.truthy time_str))%bool
  then ret None
  else
    try_except
      (let dt_str := date_str +:+ "T" +:+ time_str in
       let* dt := lift (fromisoformat (PyStr.replace_char "Z" "+00:00" dt_str)) in
       ret (Some dt))
      [ValueError; TypeError]
      (let* _ := logger (LogParseWarning date_str time_str) in ret None).

(** [session_labels.get(session_type, session_type.title())] *)
Definition session_label (session_type : string) : string :=
  if String.eqb session_type "race" then "Race"
  else if String.eqb session_type "qualy" then "Qualifying"
  else if String.eqb session_type "sprintRace" then "Sprint Race"
  else if String.eqb session_type "sprintQualy" then "Sprint Qualifying"
  else PyStr.title session_type.

(** The race name after line 334: the part before the last space, or the
    literal default for an empty name. *)
Definition stripped_name (r : race) : string :=
  let race_name := default "F1 Race" (raceName r) in
  if PyStr.truthy race_name
  then List.hd EmptyString (PyStr.rsplit1 " " race_name)
  else "F1 Race".

(** [format_session_title] *)
Definition format_session_title (r : race) (session_type : string) : string :=
  let circuit_name := get_str (circuitName (circuit r)) in
  let country_ := get_str (country (circuit r)) in
  let race_name := stripped_name r in
  let label := session_label session_type in
  if PyStr.truthy circuit_name
  then "F1 " +:+ race_name +:+ " - " +:+ label +:+ " (" +:+ circuit_name +:+ ")"
  else if PyStr.truthy country_
  then "F1 " +:+ race_name +:+ " - " +:+ label +:+ " (" +:+ country_ +:+ ")"
  else "F1 " +:+ race_name +:+ " - " +:+ label.

(** Truthiness of [race.get("round", "")]: absent and zero are falsy. *)
Definition round_truthy (r : option Z) : bool :=
  match r with Some n => negb (n =? 0) | None => false end.

Definition newline : string := String (ascii_of_nat 10) EmptyString.

(** The [parts] list of [format_session_description]. *)
Definition description_parts (r : race) : list string :=
  let circuit_name := get_str (circuitName (circuit r)) in
  let country_ := get_str (country (circuit r)) in
  let city_ := get_str (city (circuit r)) in
  (if round_truthy (round r)
   then ["Round " +:+ pretty (default 0 (round r))] else [])
  ++ (if PyStr.truthy circuit_name then ["Circuit: " +:+ circuit_name] else [])
  ++ (if (PyStr.truthy city_ && PyStr.truthy country_)%bool
      then ["Location: " +:+ city_ +:+ ", " +:+ country_]
      else if PyStr.truthy country_ then ["Location: " +:+ country_] else []).

(** [format_session_description] *)
Definition format_session_description (r : race) (session_type : string) : string :=
  "Formula 1 " +:+ session_label session_type +:+ newline
  +:+ PyStr.join newline (description_parts r).

(** ** sync_f1_schedule *)

Record counts : Set := mkCounts {
  added_count : nat;
  updated_count : nat;
  past_count : nat;
  invalid_date_count : nat
}.

Definition session_types : list string :=
  ["race"; "qualy"; "sprintRace"; "sprintQualy"].

(** The [location] string of a race (lines 413-416). *)
Definition race_location (r : race) : string :=
  PyStr.strip ["," ; " "]%char
    (get_str (city (circuit r)) +:+ ", " +:+ get_str (country (circuit r))).

(** Lines 435-456 of the loop body: the future, valid session is looked
    up, written, and counted. *)
Definition reconcile_session (r : race) (session_type : string)
    (match_datetime : datetime) (c : counts) : M counts :=
  let title := format_session_title r session_type in
  let description := format_session_description r session_type in
  let* existing_event := find_existing_event title match_datetime in
  let was_existing := bool_decide (existing_event ≠ None) in
  let* event_id := add_or_update_event title match_datetime description
                                 (race_location r) in
  match event_id with
  | Some _ =>
      if was_existing
      then ret (mkCounts (added_count c) (S (updated_count c))
                         (past_count c) (invalid_date_count c))
      else ret (mkCounts (S (added_count c)) (updated_count c)
                         (past_count c) (invalid_date_count c))
  | None => ret c
  end.

(** The body of the inner loop (lines 418-456) for one session type. *)
Definition sync_session (r : race) (current_time : datetime)
    (c : counts) (session_type : string) : M counts :=
  match schedule r !! session_type with
  | None => ret c
  | Some sess =>
      let session_date := get_str (s_date sess) in
      let session_time := get_str (s_time sess) in
      if (negb (PyStr.truthy session_date) || negb (PyStr.truthy session_time))%bool
      then ret c
      else
        let* match_datetime := parse_f1_datetime session_date session_time in
        match match_datetime with
        | None =>
            ret (mkCounts (added_count c) (updated_count c)
                          (past_count c) (S (invalid_date_count c)))
        | Some dt =>
            let* is_past := lift (Datetime.lt dt current_time) in
            if is_past
            then ret (mkCounts (added_count c) (updated_count c)
                               (S (past_count c)) (invalid_date_count c))
            else reconcile_session r session_type dt c
        end
  end.

(** The body of the outer loop (lines 411-456) for one race. *)
Definition sync_race (current_time : datetime) (c : counts) (r : race) : M counts :=
  foldM (sync_session r current_time) c session_types.

Definition counts0 : counts := mkCounts 0 0 0 0.

(** [sync_f1_schedule], from the fetched feed on.  The feed ([races]) and
    the clock reading ([current_time]) are the results of the two calls
    the function makes to its collaborators. *)
Definition sync_f1_schedule (races : list race) (current_time : datetime) : M unit :=
  let* _ := logger LogStarting in
  match races with
  | [] => let* _ := logger LogNoRaces in ret tt
  | _ =>
      let* _ := logger (LogProcessing (length races)) in
      let* c := foldM (sync_race current_time) counts0 races in
      let* _ := logger (LogSummary (length races) (added_count c)
                                   (updated_count c) (past_count c)
                                   (invalid_date_count c)) in
      if (Nat.eqb (added_count c) 0 && Nat.eqb (updated_count c) 0
          && Nat.ltb 0 (past_count c))%bool
      then logger LogAllPast
      else if (Nat.eqb (added_count c) 0 && Nat.eqb (updated_count c) 0)%bool
      then logger LogNothingDone
      else ret tt
  end.

(** ** Vocabulary of the specification *)

(** The date and time of a session that passes the presence test of line
    420. *)
Definition session_times (r : race) (session_type : string)
  : option (string * string) :=
  match schedule r !! session_type with
  | None => None
  | Some sess =>
      let d := get_str (s_date sess) in
      let t := get_str (s_time sess) in
      if (negb (PyStr.truthy d) || negb (PyStr.truthy t))%bool then None
      else Some (d, t)
  end.

(** The value [parse_f1_datetime] returns for non-empty arguments. *)
Definition parsed (date_str time_str : string) : option datetime :=
  match fromisoformat (PyStr.replace_char "Z" "+00:00"
                         (date_str +:+ "T" +:+ time_str)) with
  | Ok dt => Some dt
  | Raise _ => None
  end.

(** What the loop body does with a session. *)
Inductive verdict : Set :=
| Skipped                  (* absent: not counted *)
| Invalid                  (* counted in invalid_date_count *)
| Past                     (* counted in past_count *)
| Future (dt : datetime)   (* handed to the reconciliation *)
| Incomparable.            (* the comparison with the clock raises *)

Definition classify (r : race) (current_time : datetime) (session_type : string)
  : verdict :=
  match session_times r session_type with
  | None => Skipped
  | Some (d, t) =>
      match parsed d t with
      | None => Invalid
      | Some dt =>
          match Datetime.lt dt current_time with
          | Ok true => Past
          | Ok false => Future dt
          | Raise _ => Incomparable
          end
      end
  end.

(** The sessions of a feed in the order the two loops visit them. *)
Definition feed_sessions (races : list race) : list (race * string) :=
  flat_map (λ r, map (λ st, (r, st)) session_types) races.

(** A candidate: a session classified future, with its parsed start. *)
Definition candidate : Type := race * string * datetime.

Definition pending_of (current_time : datetime) (rs : race * string)
  : list candidate :=
  match classify rs.1 current_time rs.2 with
  | Future dt => [(rs.1, rs.2, dt)]
  | _ => []
  end.

(** The eligible candidates of a pass, in processing order. *)
Definition pending (races : list race) (current_time : datetime) : list candidate :=
  flat_map (pending_of current_time) (feed_sessions races).

Definition is_past (v : verdict) : bool :=
  match v with Past => true | _ => false end.
Definition is_invalid (v : verdict) : bool :=
  match v with Invalid => true | _ => false end.

Definition count_sessions (f : verdict → bool) (current_time : datetime)
    (l : list (race * string)) : nat :=
  length (List.filter (λ rs, f (classify rs.1 current_time rs.2)) l).

(** Two hours later on the same day: the value [replace(hour=hour + 2)]
    builds when the constructor accepts it. *)
Definition plus_two_hours (dt : datetime) : datetime :=
  mkdt (year dt) (month dt) (day dt) (hour dt + 2) (minute dt) (second dt)
       (microsecond dt) (tzinfo dt).

Definition cand_title (c : candidate) : string :=
  format_session_title c.1.1 c.1.2.

(** The event body the reconciliation writes for a candidate. *)
Definition cand_event (c : candidate) : event :=
  mkEvent (cand_title c) (format_session_description c.1.1 c.1.2)
          (race_location c.1.1) c.2 (plus_two_hours c.2) CALENDAR_TIMEZONE.

(** The dedup key: title and UTC calendar day of the start. *)
Definition event_key (e : event) : string * Z :=
  (summary e, utc_day (ev_start e)).
Definition cand_key (c : candidate) : string * Z :=
  (cand_title c, utc_day c.2).

Definition dt_valid (dt : datetime) : Prop :=
  fields_ok (year dt) (month dt) (day dt) (hour dt) (minute dt) (second dt)
            (microsecond dt) = true.

(** The bounds [find_existing_event] sends for a start time. *)
Definition day_start (dt : datetime) : datetime :=
  mkdt (year dt) (month dt) (day dt) 0 0 0 (microsecond dt) (tzinfo dt).
Definition day_end (dt : datetime) : datetime :=
  mkdt (year dt) (month dt) (day dt) 23 59 59 (microsecond dt) (tzinfo dt).

(** The shape of the events the reconciliation writes: a UTC start no
    later than hour 21 and an end two hours after it. *)
Definition wf_event (e : event) : Prop :=
  dt_valid (ev_start e) ∧ tzinfo (ev_start e) = Some 0
  ∧ hour (ev_start e) ≤ 21 ∧ ev_end e = plus_two_hours (ev_start e).

Definition store_wf (m : gmap nat event) : Prop :=
  ∀ i e, m !! i = Some e → wf_event e.

(** The dedup invariant: at most one event per title and calendar day. *)
Definition dedup (m : gmap nat event) : Prop :=
  ∀ i j e1 e2, m !! i = Some e1 → m !! j = Some e2 →
               event_key e1 = event_key e2 → i = j.

Definition ids_below (n : nat) (m : gmap nat event) : Prop :=
  ∀ i e, m !! i = Some e → (i < n)%nat.

(** No event of the store carries the key. *)
Definition key_free (m : gmap nat event) (k : string * Z) : Prop :=
  ∀ i e, m !! i = Some e → event_key e ≠ k.

(** What the reconciliation needs of a candidate's start: a valid UTC
    value whose end time can be built. *)
Definition cand_ok (cand : candidate) : Prop :=
  dt_valid cand.2 ∧ tzinfo cand.2 = Some 0 ∧ hour cand.2 ≤ 21.

(** Every session time of the feed that parses carries the UTC offset. *)
Definition session_utc (rs : race * string) : bool :=
  match session_times rs.1 rs.2 with
  | Some (d, t) =>
      match parsed d t with
      | Some dt => bool_decide (tzinfo dt = Some 0)
      | None => true
      end
  | None => true
  end.

Definition feed_utc (races : list race) : bool :=
  forallb session_utc (feed_sessions races).

(** The start hour of every eligible candidate is 21 at most. *)
Definition hours_ok (races : list race) (current_time : datetime) : bool :=
  forallb (λ cand : candidate, hour cand.2 <=? 21) (pending races current_time).

(** The store and creation count a pass leaves when every candidate is
    new: a candidate is inserted under the next identifier unless its
    write fails with [HttpError] (flag [true]). *)
Fixpoint create_all (m : gmap nat event) (n : nat) (wf : list bool)
    (cs : list candidate) : gmap nat event * nat * nat :=
  match cs with
  | [] => (m, n, O)
  | c :: cs' =>
      if hd false wf then create_all m n (tl wf) cs'
      else let '(m', n', a) :=
             create_all (<[n := cand_event c]> m) (S n) (tl wf) cs' in
           (m', n', S a)
  end.

(** The summary a pass reported, read off the log. *)
Definition report_of (l : list log_entry) : option (nat * nat * nat * nat * nat) :=
  List.fold_left (λ acc e, match e with
                           | LogSummary t a u p i => Some (t, a, u, p, i)
                           | _ => acc
                           end) l None.

(** The state after a sequence of passes, each with its feed and clock. *)
Definition run_passes (ps : list (list race * datetime)) (w : world) : world :=
  List.fold_left (λ w p, (sync_f1_schedule p.1 p.2 w).2) ps w.

(** ISO renderings of a date and of a time without designator. *)
Definition iso_date (y m d : Z) : string :=
  fmt4 y +:+ "-" +:+ fmt2 m +:+ "-" +:+ fmt2 d.
Definition iso_time (h mi s : Z) : string :=
  fmt2 h +:+ ":" +:+ fmt2 mi +:+ ":" +:+ fmt2 s.

(** The other renderings of a time of day without designator that
    [fromisoformat] reads: HH, HH:MM, HH:MM:SS.fff and HH:MM:SS.ffffff. *)
Definition fmt3 (n : Z) : string :=
  String (digit_char (n / 100)) (fmt2 (n mod 100)).
Definition fmt6 (n : Z) : string := fmt3 (n / 1000) +:+ fmt3 (n mod 1000).
Definition iso_hm (h mi : Z) : string := fmt2 h +:+ ":" +:+ fmt2 mi.
Definition iso_time_ms (h mi s ms : Z) : string :=
  iso_time h mi s +:+ "." +:+ fmt3 ms.
Definition iso_time_us (h mi s us : Z) : string :=
  iso_time h mi s +:+ "." +:+ fmt6 us.

(** What [parse_f1_datetime] gives for fields read without an offset:
    the naive value when they name a date and a time of day, the
    warning and [None] otherwise. *)
Definition naive_or_invalid (date_str time_str : string)
    (y m d h mi s us : Z) (w : world) : result (option datetime) * world :=
  if fields_ok y m d h mi s us
  then (Ok (Some (mkdt y m d h mi s us None)), w)
  else (Ok None, add_log (LogParseWarning date_str time_str) w).

(** The four ways the loop body moves the counters. *)
Definition bump_invalid (c : counts) : counts :=
  mkCounts (added_count c) (updated_count c) (past_count c) (S (invalid_date_count c)).

Definition bump_past (c : counts) : counts :=
  mkCounts (added_count c) (updated_count c) (S (past_count c)) (invalid_date_count c).

Definition bump_added (c : counts) : counts :=
  mkCounts (S (added_count c)) (updated_count c) (past_count c) (invalid_date_count c).

Definition bump_updated (c : counts) : counts :=
  mkCounts (added_count c) (S (updated_count c)) (past_count c) (invalid_date_count c).

Definition tally (c : counts) (a u p i : nat) : counts :=
  mkCounts (added_count c + a) (updated_count c + u)
           (past_count c + p) (invalid_date_count c + i).

(** The written body. *)
Definition body_of (title : string) (dt : datetime)
    (description location_ : string) : event :=
  mkEvent title description location_ dt (plus_two_hours dt) CALENDAR_TIMEZONE.

(** The note that follows the summary (lines 467-477). *)
Definition closing (c : counts) (w : world) : world :=
  if (Nat.eqb (added_count c) 0 && Nat.eqb (updated_count c) 0
      && Nat.ltb 0 (past_count c))%bool
  then add_log LogAllPast w
  else if (Nat.eqb (added_count c) 0 && Nat.eqb (updated_count c) 0)%bool
  then add_log LogNothingDone w
  else w.

(** The loop of [sync_f1_schedule] starts from here. *)
Definition loop_start (races : list race) (w : world) : world :=
  add_log (LogProcessing (length races)) (add_log LogStarting w).

(** The body of the two loops, on a session of the flattened feed. *)
Definition visit (now : datetime) (c : counts) (rs : race * string) : M counts :=
  sync_session rs.1 now c rs.2.

(** What a pass keeps when its lookups do not fail. *)
Definition pass_inv (w : world) : Prop :=
  store_wf (events w) ∧ dedup (events w) ∧ ids_below (next_id w) (events w)
  ∧ lookup_faults w = [].

(** Does the text start with a decimal digit. *)
Definition leading_digit (t : string) : bool :=
  match t with
  | EmptyString => false
  | String c _ => bool_decide (digit_val c ≠ None)
  end.

(** *** Sample data *)

Definition utc (y m d h mi s : Z) : datetime := mkdt y m d h mi s 0 (Some 0).

Definition world0 : world := mkWorld ∅ 0 [] [] [].

Definition albert_park : circuit_info :=
  mkCircuit (Some "Albert Park Circuit") (Some "Australia") (Some "Melbourne").

Definition melbourne : race :=
  mkRace (Some "Australian Grand Prix 2025") (Some 1) albert_park
         (<["race" := mkSession (Some "2025-03-16") (Some "04:00:00Z")]>
          (<["qualy" := mkSession (Some "2025-03-15") (Some "05:00:00Z")]>
           (<["sprintRace" := mkSession None None]> ∅))).

Definition now_feb : datetime := utc 2025 2 1 0 0 0.

Definition monaco_2025 : race :=
  mkRace (Some "Monaco Grand Prix 2025") (Some 8)
         (mkCircuit (Some "Circuit de Monaco") (Some "Monaco") (Some "Monte Carlo")) ∅.

Definition bare_race : race :=
  mkRace (Some "Monaco Grand Prix 2025") None no_circuit ∅.

Definition silverstone_naive : race :=
  mkRace (Some "British Grand Prix 2025") (Some 12) no_circuit
         (<["race" := mkSession (Some "2025-07-06") (Some "14:00:00")]> ∅).

Definition austin : race :=
  mkRace (Some "United States Grand Prix 2025") (Some 19)
         (mkCircuit (Some "Circuit of the Americas") (Some "United States") (Some "Austin"))
         (<["qualy" := mkSession (Some "2025-10-18") (Some "22:00:00Z")]> ∅).

Definition imola : race :=
  mkRace (Some "Emilia Romagna Grand Prix 2025") (Some 7)
         (mkCircuit (Some "Autodromo Enzo e Dino Ferrari") (Some "Italy") (Some "Imola"))
         (<["race" := mkSession (Some "2025-05-18") (Some "13:00:00Z")]> ∅).

Definition melbourne_race_only : race :=
  mkRace (Some "Australian Grand Prix 2025") (Some 1) albert_park
         (<["race" := mkSession (Some "2025-03-16") (Some "04:00:00Z")]> ∅).

(** An event as it could have been left by an earlier run. *)
Definition seeded_event : event :=
  mkEvent "F1 Australian Grand Prix - Race (Albert Park Circuit)"
          "entered by hand" "Melbourne"
          (utc 2025 3 16 9 30 0) (utc 2025 3 16 11 30 0) "UTC".

Definition seeded_world : world := mkWorld {[ 0%nat := seeded_event ]} 1 [] [] [].

(** ** Vocabulary for the further properties *)

(** The three things the handling of one candidate can do to the store:
    nothing, replace an event that carries the candidate's title, or
    insert under the next identifier. *)
Definition touched (title : string) (body : event) (w w' : world) : Prop :=
  (events w' = events w ∧ next_id w' = next_id w)
  ∨ (∃ i e0, events w !! i = Some e0 ∧ summary e0 = title
             ∧ events w' = <[i := body]> (events w) ∧ next_id w' = next_id w)
  ∨ (events w' = <[next_id w := body]> (events w) ∧ next_id w' = S (next_id w)).

(** The exception is one that a coming remote call of the state raises
    and that no [except] clause of the event functions catches. *)
Definition remote_failure (e : exn) (w : world) : Prop :=
  e ≠ HttpError ∧ (Some e ∈ lookup_faults w ∨ Some e ∈ write_faults w).

(** The coming outcomes of [w'] are among those of [w]. *)
Definition later (w w' : world) : Prop :=
  lookup_faults w' ⊆ lookup_faults w ∧ write_faults w' ⊆ write_faults w.

(** The titles a feed can write. *)
Definition feed_title (races : list race) (t : string) : Prop :=
  ∃ r st, r ∈ races ∧ st ∈ session_types ∧ t = format_session_title r st.

(** A pass from [w] to [w'] deletes nothing, leaves the events with
    foreign titles as they are, and keeps identifiers below the
    counter. *)
Definition preserves (T : string → Prop) (w w' : world) : Prop :=
  ids_below (next_id w) (events w) →
  ids_below (next_id w') (events w')
  ∧ (next_id w ≤ next_id w')%nat
  ∧ (∀ i, is_Some (events w !! i) → is_Some (events w' !! i))
  ∧ (∀ i e, events w !! i = Some e → ¬ T (summary e) → events w' !! i = Some e).

(** Every session time of the feed that parses carries some offset. *)
Definition session_aware (rs : race * string) : bool :=
  match session_times rs.1 rs.2 with
  | Some (d, t) =>
      match parsed d t with
      | Some dt => aware dt
      | None => true
      end
  | None => true
  end.

Definition feed_aware (races : list race) : bool :=
  forallb session_aware (feed_sessions races).

(** How the counters of [c'] account for the sessions [l] visited since
    [c]; [exact] says that every eligible candidate was counted. *)
Definition accounted (now : datetime) (l : list (race * string))
    (exact : bool) (c c' : counts) : Prop :=
  past_count c' = (past_count c + count_sessions is_past now l)%nat
  ∧ invalid_date_count c' = (invalid_date_count c + count_sessions is_invalid now l)%nat
  ∧ (added_count c ≤ added_count c')%nat
  ∧ (updated_count c ≤ updated_count c')%nat
  ∧ (added_count c' + updated_count c'
     ≤ added_count c + updated_count c + length (flat_map (pending_of now) l))%nat
  ∧ (exact = true →
     (added_count c' + updated_count c'
      = added_count c + updated_count c + length (flat_map (pending_of now) l))%nat).

(** A store in which the seeded event has a twin with the same title on
    the same day. *)
Definition twice_world : world :=
  mkWorld (<[1%nat := cand_event (melbourne, "race", utc 2025 3 16 4 0 0)]>
             {[ 0%nat := seeded_event ]}) 2 [] [] [].

(** The characters [race_location] strips. *)
Definition location_strip_chars : list ascii := [","; " "]%char.

(** A text that [strip(", ")] leaves as it is and that is not empty. *)
Definition trimmed (s : string) : Prop :=
  s ≠ EmptyString
  ∧ PyStr.lstrip location_strip_chars s = s
  ∧ PyStr.rstrip location_strip_chars s = s.

(** No session of the feed is eligible, and none is incomparable. *)
Definition session_quiet (now : datetime) (rs : race * string) : bool :=
  match classify rs.1 now rs.2 with
  | Future _ | Incomparable => false
  | _ => true
  end.

Definition feed_quiet (races : list race) (now : datetime) : bool :=
  forallb (session_quiet now) (feed_sessions races).

(** ** F1APIClient *)

(** What the request of [get_f1_schedule] can give: an exception of
    [requests.get], or a response with its status code and its decoded
    body ([None]: [response.json()] raises, or what it returns is not an
    object holding a list; [Some None]: the body has no ["races"] key). *)
Inductive http_reply : Type :=
| NoReply
| Reply (status_code : Z) (json : option (option (list race))).

Inductive fetch_log : Type :=
| FetchedRaces (n : nat)          (* info: Successfully fetched n races *)
| FetchStatusError (status : Z)   (* error: API request failed with status *)
| FetchException.                 (* error: Error fetching F1 schedule *)

(** [get_f1_schedule]: the races, and what was logged. *)
Definition get_f1_schedule (reply : http_reply) : list race * list fetch_log :=
  match reply with
  | NoReply => ([], [FetchException])
  | Reply status json =>
      if status =? 200 then
        match json with
        | None => ([], [FetchException])
        | Some data =>
            let races := default [] data in
            (races, [FetchedRaces (length races)])
        end
      else ([], [FetchStatusError status])
  end.

(** ** The calendar container *)

(** An entry of [calendarList().list()] and a rule of [acl().list()]. *)
Record calendar_entry : Set := mkCal {
  cal_id : nat;
  cal_summary : string;
  access_role : string
}.

Record acl_rule : Set := mkRule {
  scope_value : string;
  rule_role : string
}.

Inductive account_log : Type :=
| LogSearching (name : string)
| LogFound (name : string)
| LogNotFound (name : string)
| LogCreated (name : string)
| LogShared (email : string)
| LogShareWarning                  (* warning: Could not share calendar *)
| LogCalendarError.                (* error: Error managing calendar *)

(** The account the service is authenticated for: its calendar list, the
    access rules by calendar, the identifier the service hands out next,
    the account's own address, the outcomes of the coming calls ([true]:
    the call fails with [HttpError]) and the log. *)
Record account : Type := mkAccount {
  calendar_list : list calendar_entry;
  acls : gmap nat (list acl_rule);
  next_calendar : nat;
  account_email : string;
  api_faults : list bool;
  acct_log : list account_log
}.

Definition A (T : Type) : Type := account → result T * account.

Definition aret {T} (x : T) : A T := λ a, (Ok x, a).
Definition abind {T U} (m : A T) (f : T → A U) : A U :=
  λ a, match m a with
       | (Ok x, a') => f x a'
       | (Raise e, a') => (Raise e, a')
       end.
Definition alog (e : account_log) : A unit := λ a,
  (Ok tt, mkAccount (calendar_list a) (acls a) (next_calendar a)
                    (account_email a) (api_faults a) (acct_log a ++ [e])).

Notation "'let+' x ':=' m 'in' k" := (abind m (λ x, k))
  (at level 10, x name, m at level 100, k at level 200, only parsing).

(** One round trip of this part of the interface. *)
Definition api_call : A unit := λ a,
  (if hd false (api_faults a) then Raise HttpError else Ok tt,
   mkAccount (calendar_list a) (acls a) (next_calendar a) (account_email a)
             (tl (api_faults a)) (acct_log a)).

(** [calendarList().list().execute()] *)
Definition calendar_list_call : A (list calendar_entry) :=
  let+ _ := api_call in λ a, (Ok (calendar_list a), a).

(** [calendars().insert(body=...).execute()]: the new calendar is owned
    by the account and appears in its list. *)
Definition calendars_insert (name : string) : A nat :=
  let+ _ := api_call in
  λ a, (Ok (next_calendar a),
        mkAccount (calendar_list a ++ [mkCal (next_calendar a) name "owner"])
                  (<[next_calendar a := [mkRule (account_email a) "owner"]]> (acls a))
                  (S (next_calendar a)) (account_email a) (api_faults a)
                  (acct_log a)).

(** [acl().list(calendarId=...).execute()] *)
Definition acl_list_call (calendar_id : nat) : A (list acl_rule) :=
  let+ _ := api_call in
  λ a, match acls a !! calendar_id with
       | Some rules => (Ok rules, a)
       | None => (Raise HttpError, a)
       end.

(** [acl().insert(calendarId=..., body=...).execute()] *)
Definition acl_insert_call (calendar_id : nat) (rule : acl_rule) : A unit :=
  let+ _ := api_call in
  λ a, match acls a !! calendar_id with
       | Some rules =>
           (Ok tt, mkAccount (calendar_list a)
                             (<[calendar_id := rules ++ [rule]]> (acls a))
                             (next_calendar a) (account_email a) (api_faults a)
                             (acct_log a))
       | None => (Raise HttpError, a)
       end.

(** [_share_calendar_with_user]: [except Exception] catches whatever the
    body raises. *)
Definition share_calendar_with_user (calendar_id : nat) (user_email : string)
  : A unit :=
  if negb (PyStr.truthy user_email) then aret tt
  else λ a,
    match (let+ acl_list := acl_list_call calendar_id in
           let shared_with_user :=
             existsb (λ entry, String.eqb (scope_value entry) user_email) acl_list in
           if negb shared_with_user
           then let+ _ := acl_insert_call calendar_id (mkRule user_email "owner") in
                alog (LogShared user_email)
           else aret tt) a with
    | (Raise _, a') => alog LogShareWarning a'
    | r => r
    end.

(** [get_or_create_calendar]; [USER_EMAIL] is the module's setting. *)
Definition get_or_create_calendar (USER_EMAIL : string) (calendar_name : string)
  : A nat :=
  λ a,
    match (let+ calendars := calendar_list_call in
           let+ _ := alog (LogSearching calendar_name) in
           let matching_calendars :=
             List.filter (λ cal, String.eqb (cal_summary cal) calendar_name)
                         calendars in
           match matching_calendars with
           | first :: _ =>
               let shared_calendars :=
                 List.filter (λ cal, negb (String.eqb (access_role cal) "owner"))
                             matching_calendars in
               let calendar_entry := List.hd first shared_calendars in
               let calendar_id := cal_id calendar_entry in
               let+ _ := alog (LogFound calendar_name) in
               let+ _ := share_calendar_with_user calendar_id USER_EMAIL in
               aret calendar_id
           | [] =>
               let+ _ := alog (LogNotFound calendar_name) in
               let+ calendar_id := calendars_insert calendar_name in
               let+ _ := alog (LogCreated calendar_name) in
               let+ _ := share_calendar_with_user calendar_id USER_EMAIL in
               aret calendar_id
           end) a with
    | (Raise HttpError, a') =>
        (Raise HttpError,
         mkAccount (calendar_list a') (acls a') (next_calendar a')
                   (account_email a') (api_faults a')
                   (acct_log a' ++ [LogCalendarError]))
    | r => r
    end.

(** The calendars of the list that carry the name. *)
Definition named (name : string) (cals : list calendar_entry) : list calendar_entry :=
  List.filter (λ cal, String.eqb (cal_summary cal) name) cals.

(** Does a rule for the address exist on the calendar. *)
Definition shared_with (a : account) (calendar_id : nat) (email : string) : bool :=
  match acls a !! calendar_id with
  | Some rules => existsb (λ entry, String.eqb (scope_value entry) email) rules
  | None => false
  end.

Definition sample_account : account :=
  mkAccount [mkCal 0 "Personal" "owner"; mkCal 1 "F1" "owner";
             mkCal 2 "F1" "writer"]
            (<[1%nat := [mkRule "robot@example.org" "owner"]]>
               {[ 0%nat := [mkRule "robot@example.org" "owner"] ]})
            3 "robot@example.org" [] [].

(** * Properties *)

(** ** Strings *)

#[local] Arguments String.append !s1 s2 / : simpl nomatch.

Section string_facts.

Lemma append_assoc (a b c : string) : (a +:+ b) +:+ c = a +:+ (b +:+ c).
Proof. induction a as [|x a IH]; simpl; [done|]. by rewrite IH. Qed.

Lemma append_empty_r (a : string) : a +:+ EmptyString = a.
Proof. induction a as [|x a IH]; simpl; [done|]. by rewrite IH. Qed.

Lemma rsplit_last_none sep s :
  PyStr.occurs sep s = false → PyStr.rsplit_last sep s = None.
Proof.
  induction s as [|c s IH]; simpl; [done|].
  intros [Hc Hs]%orb_false_iff. by rewrite IH, Hc.
Qed.

Lemma rsplit_last_app sep a b :
  PyStr.occurs sep b = false →
  PyStr.rsplit_last sep (a +:+ String sep b) = Some (a, b).
Proof.
  intros Hb. induction a as [|c a IH]; simpl.
  - by rewrite (rsplit_last_none _ _ Hb), Ascii.eqb_refl.
  - by rewrite IH.
Qed.

Lemma replace_char_app old new a b :
  PyStr.replace_char old new (a +:+ b)
  = PyStr.replace_char old new a +:+ PyStr.replace_char old new b.
Proof.
  induction a as [|c a IH]; simpl; [done|].
  rewrite IH. destruct (Ascii.eqb c old); [|done].
  by rewrite append_assoc.
Qed.

Lemma replace_char_absent old new s :
  PyStr.occurs old s = false → PyStr.replace_char old new s = s.
Proof.
  induction s as [|c s IH]; simpl; [done|].
  intros [Hc Hs]%orb_false_iff. by rewrite Hc, IH.
Qed.

End string_facts.

Lemma stripped_name_split (r : race) (a b : string) :
  raceName r = Some (a +:+ String " " b) → PyStr.occurs " " b = false →
  stripped_name r = a.
Proof.
  intros Hn Hb. unfold stripped_name. rewrite Hn. simpl.
  assert (PyStr.truthy (a +:+ String " " b) = true) as -> by by destruct a.
  unfold PyStr.rsplit1. by rewrite rsplit_last_app.
Qed.

Lemma stripped_name_whole (r : race) (name : string) :
  raceName r = Some name → name ≠ EmptyString → PyStr.occurs " " name = false →
  stripped_name r = name.
Proof.
  intros Hn Hne Hs. unfold stripped_name. rewrite Hn. simpl.
  destruct name as [|c name]; [done|]. simpl PyStr.truthy. cbv iota.
  unfold PyStr.rsplit1. by rewrite rsplit_last_none.
Qed.

(** C5 (as amended).  The title carries the race name cut at its last
    space: a name [a ++ " " ++ b] whose last token [b] holds no space
    contributes [a]; a non-empty name without any space is kept whole (it
    is not removed). *)
Theorem C5_title_strips_last_token (r : race) (session_type name : string) :
  raceName r = Some name → name ≠ EmptyString →
  (∀ a b, name = a +:+ String " " b → PyStr.occurs " " b = false →
          stripped_name r = a)
  ∧ (PyStr.occurs " " name = false → stripped_name r = name)
  ∧ ∃ hint, format_session_title r session_type
            = "F1 " +:+ stripped_name r +:+ " - "
              +:+ session_label session_type +:+ hint.
Proof.
  intros Hn Hne. split; [|split].
  - intros a b -> Hb. by apply stripped_name_split with b.
  - intros Hs. by apply stripped_name_whole.
  - unfold format_session_title.
    destruct (PyStr.truthy (get_str (circuitName (circuit r)))).
    + by eexists.
    + destruct (PyStr.truthy (get_str (country (circuit r)))).
      * by eexists.
      * exists EmptyString.
        by rewrite !append_empty_r.
Qed.

Lemma C5_title_strips_last_token_witness :
  stripped_name monaco_2025 = "Monaco Grand Prix"
  ∧ format_session_title monaco_2025 "race"
    = "F1 Monaco Grand Prix - Race (Circuit de Monaco)".
Proof.
  destruct (C5_title_strips_last_token monaco_2025 "race" "Monaco Grand Prix 2025"
              eq_refl ltac:(discriminate)) as (Hsplit & _ & _).
  split.
  - exact (Hsplit "Monaco Grand Prix" "2025" eq_refl eq_refl).
  - reflexivity.
Defined.

(** C5, as stated, fails: a race name without a space is not removed from
    the title. *)
Lemma C5_counterexample :
  let r := mkRace (Some "Monaco") None no_circuit ∅ in
  PyStr.occurs " " "Monaco" = false
  ∧ stripped_name r = "Monaco"
  ∧ format_session_title r "race" = "F1 Monaco - Race"
  ∧ format_session_title r "race" ≠ "F1  - Race".
Proof. repeat split; try reflexivity. discriminate. Qed.

(** ** The description block *)

Lemma join_cons (sep p : string) (parts : list string) :
  parts ≠ [] → PyStr.join sep (p :: parts) = p +:+ sep +:+ PyStr.join sep parts.
Proof. by destruct parts. Qed.

(** With at least one optional line the description is the newline-joined
    block of the header and the optional lines. *)
Lemma format_session_description_joined (r : race) (session_type : string) :
  description_parts r ≠ [] →
  format_session_description r session_type
  = PyStr.join newline (("Formula 1 " +:+ session_label session_type)
                          :: description_parts r).
Proof.
  intros Hne. unfold format_session_description.
  by rewrite join_cons, append_assoc.
Qed.

(** Without any optional line the header is still followed by a newline. *)
Lemma format_session_description_bare (r : race) (session_type : string) :
  description_parts r = [] →
  format_session_description r session_type
  = "Formula 1 " +:+ session_label session_type +:+ newline.
Proof.
  intros Hnil. unfold format_session_description. by rewrite Hnil.
Qed.

(** C8 (failing input).  For a race without round, circuit and country
    the description is the header followed by a newline: the block ends
    in an empty line, and differs from the newline-joined block of the
    header alone. *)
Theorem C8_description_bare_race :
  description_parts bare_race = []
  ∧ format_session_description bare_race "race" = "Formula 1 Race" +:+ newline
  ∧ format_session_description bare_race "race"
    ≠ PyStr.join newline ("Formula 1 Race" :: description_parts bare_race).
Proof. repeat split; try reflexivity. discriminate. Qed.

Example description_full :
  format_session_description melbourne "qualy"
  = PyStr.join newline ["Formula 1 Qualifying"; "Round 1";
                        "Circuit: Albert Park Circuit";
                        "Location: Melbourne, Australia"].
Proof. reflexivity. Qed.

(** ** Timestamps *)

Section digits.

Lemma digit_val_char (k : Z) : 0 ≤ k < 10 → digit_val (digit_char k) = Some k.
Proof.
  intros Hk.
  assert (k = 0 ∨ k = 1 ∨ k = 2 ∨ k = 3 ∨ k = 4 ∨ k = 5 ∨ k = 6 ∨ k = 7
          ∨ k = 8 ∨ k = 9) as Hc by lia.
  destruct_or!; subst k; reflexivity.
Qed.

Lemma digit_eqb_false (c ch : ascii) (k : Z) :
  digit_val c = Some k → digit_val ch = None → Ascii.eqb c ch = false.
Proof.
  intros Hc Hch. apply Ascii.eqb_neq. intros ->. congruence.
Qed.

Lemma parse2_digits (c1 c2 : ascii) (a b : Z) :
  digit_val c1 = Some a → digit_val c2 = Some b →
  parse2 c1 c2 = Some (10 * a + b).
Proof. intros H1 H2. unfold parse2. by rewrite H1, H2. Qed.

End digits.

(** Rewrites the tests of a digit character against a separator. *)
Ltac digit_tests :=
  repeat match goal with
         | Hc : digit_val ?c = Some _ |- context [Ascii.eqb ?c ?ch] =>
             rewrite (digit_eqb_false c ch _ Hc eq_refl)
         end.

(** Names the digit characters of a rendered number and keeps only what
    [digit_val] says of them. *)
Ltac name_digit e :=
  let c := fresh "c" in
  let H := fresh "Hc" in
  assert (H : digit_val (digit_char e) = Some e)
    by (apply digit_val_char; Z.div_mod_to_equations; lia);
  set (c := digit_char e) in *; clearbody c.

Section iso_rendering.

Variables y m d h mi s : Z.
Hypothesis Hy : 0 ≤ y ≤ 9999.
Hypothesis Hm : 0 ≤ m ≤ 99.
Hypothesis Hd : 0 ≤ d ≤ 99.
Hypothesis Hh : 0 ≤ h ≤ 99.
Hypothesis Hmi : 0 ≤ mi ≤ 99.
Hypothesis Hs : 0 ≤ s ≤ 99.

Lemma parse_isoformat_date_iso : parse_isoformat_date (iso_date y m d) = Some (y, m, d).
Proof.
  unfold iso_date, fmt4, fmt2.
  name_digit (y / 1000). name_digit (y / 100 mod 10).
  name_digit (y / 10 mod 10). name_digit (y mod 10).
  name_digit (m / 10). name_digit (m mod 10).
  name_digit (d / 10). name_digit (d mod 10).
  simpl. unfold parse_isoformat_date.
  repeat match goal with
         | H1 : digit_val ?a = Some _, H2 : digit_val ?b = Some _
           |- context [parse2 ?a ?b] => rewrite (parse2_digits a b _ _ H1 H2)
         end.
  simpl. do 3 f_equal; Z.div_mod_to_equations; lia.
Qed.

Lemma split_sign_iso_time : split_sign (iso_time h mi s) = (iso_time h mi s, None).
Proof.
  unfold iso_time, fmt2.
  name_digit (h / 10). name_digit (h mod 10).
  name_digit (mi / 10). name_digit (mi mod 10).
  name_digit (s / 10). name_digit (s mod 10).
  simpl. digit_tests. simpl. digit_tests. simpl. digit_tests. by simpl.
Qed.

Lemma parse_hh_mm_ss_ff_iso : parse_hh_mm_ss_ff (iso_time h mi s) = Some (h, mi, s, 0).
Proof.
  unfold iso_time, fmt2.
  name_digit (h / 10). name_digit (h mod 10).
  name_digit (mi / 10). name_digit (mi mod 10).
  name_digit (s / 10). name_digit (s mod 10).
  simpl. unfold parse_hh_mm_ss_ff.
  repeat match goal with
         | H1 : digit_val ?a = Some _, H2 : digit_val ?b = Some _
           |- context [parse2 ?a ?b] => rewrite (parse2_digits a b _ _ H1 H2)
         end.
  simpl. do 4 f_equal; Z.div_mod_to_equations; lia.
Qed.

Lemma parse_isoformat_time_iso :
  parse_isoformat_time (iso_time h mi s) = Some (h, mi, s, 0, None).
Proof.
  unfold parse_isoformat_time.
  by rewrite split_sign_iso_time, parse_hh_mm_ss_ff_iso.
Qed.

Lemma occurs_Z_iso : PyStr.occurs "Z" (iso_date y m d +:+ "T" +:+ iso_time h mi s) = false.
Proof.
  unfold iso_date, iso_time, fmt4, fmt2.
  name_digit (y / 1000). name_digit (y / 100 mod 10).
  name_digit (y / 10 mod 10). name_digit (y mod 10).
  name_digit (m / 10). name_digit (m mod 10).
  name_digit (d / 10). name_digit (d mod 10).
  name_digit (h / 10). name_digit (h mod 10).
  name_digit (mi / 10). name_digit (mi mod 10).
  name_digit (s / 10). name_digit (s mod 10).
  simpl. digit_tests. reflexivity.
Qed.

Lemma slice_iso_date (t : string) :
  PyStr.slice 0 10 (iso_date y m d +:+ "T" +:+ t) = iso_date y m d
  ∧ PyStr.drop 11 (iso_date y m d +:+ "T" +:+ t) = t.
Proof.
  unfold iso_date, fmt4, fmt2. simpl. split; [|done].
  unfold PyStr.slice. simpl. by destruct t.
Qed.

Lemma fromisoformat_iso :
  fromisoformat (iso_date y m d +:+ "T" +:+ iso_time h mi s)
  = Datetime.new y m d h mi s 0 None.
Proof.
  unfold fromisoformat.
  destruct (slice_iso_date (iso_time h mi s)) as [-> ->].
  rewrite parse_isoformat_date_iso, parse_isoformat_time_iso.
  by unfold iso_time, fmt2.
Qed.

End iso_rendering.

Lemma fields_ok_spec (y m d h mi s us : Z) :
  fields_ok y m d h mi s us = true ↔
  1 ≤ y ≤ 9999 ∧ 1 ≤ m ≤ 12 ∧ 1 ≤ d ≤ days_in_month y m
  ∧ 0 ≤ h ≤ 23 ∧ 0 ≤ mi ≤ 59 ∧ 0 ≤ s ≤ 59 ∧ 0 ≤ us ≤ 999999.
Proof.
  unfold fields_ok. rewrite !andb_true_iff, !Z.leb_le. tauto.
Qed.

Lemma days_in_month_le (y m : Z) : days_in_month y m ≤ 31.
Proof.
  unfold days_in_month. destruct (_ && _)%bool; [lia|].
  destruct (Z.to_nat m) as [|[|[|[|[|[|[|[|[|[|[|[|[|k]]]]]]]]]]]]]; simpl; try lia.
  destruct k; simpl; lia.
Qed.

Lemma fromisoformat_raises (s : string) (e : exn) :
  fromisoformat s = Raise e → e = ValueError.
Proof.
  unfold fromisoformat, Datetime.new.
  repeat case_match; congruence.
Qed.

(** [parse_f1_datetime] on non-empty arguments: the parsed value, or the
    warning and [None]. *)
Lemma parse_f1_datetime_run (date_str time_str : string) (w : world) :
  PyStr.truthy date_str = true → PyStr.truthy time_str = true →
  parse_f1_datetime date_str time_str w
  = match parsed date_str time_str with
    | Some dt => (Ok (Some dt), w)
    | None => (Ok None, add_log (LogParseWarning date_str time_str) w)
    end.
Proof.
  intros Hd Ht. unfold parse_f1_datetime, parsed. rewrite Hd, Ht. simpl.
  unfold try_except, bind, lift, ret, logger.
  destruct (fromisoformat _) as [dt|e] eqn:Hf; [done|].
  by rewrite (fromisoformat_raises _ _ Hf).
Qed.

Lemma parse_f1_datetime_empty (date_str time_str : string) (w : world) :
  date_str = EmptyString ∨ time_str = EmptyString →
  parse_f1_datetime date_str time_str w = (Ok None, w).
Proof.
  intros [-> | ->]; unfold parse_f1_datetime; simpl; [done|].
  by rewrite orb_true_r.
Qed.

Lemma parsed_iso (y m d h mi s : Z) :
  fields_ok y m d h mi s 0 = true →
  parsed (iso_date y m d) (iso_time h mi s) = Some (mkdt y m d h mi s 0 None).
Proof.
  intros Hok. pose proof Hok as Hr. apply fields_ok_spec in Hr.
  pose proof (days_in_month_le y m).
  unfold parsed.
  rewrite replace_char_absent by (apply occurs_Z_iso; lia).
  rewrite fromisoformat_iso by lia.
  unfold Datetime.new. by rewrite Hok.
Qed.

Lemma truthy_iso_date (y m d : Z) : PyStr.truthy (iso_date y m d) = true.
Proof. reflexivity. Qed.
Lemma truthy_iso_time (h mi s : Z) : PyStr.truthy (iso_time h mi s) = true.
Proof. reflexivity. Qed.

Section time_shapes.

Variables y m d h mi s : Z.
Hypothesis Hy : 0 ≤ y ≤ 9999.
Hypothesis Hm : 0 ≤ m ≤ 99.
Hypothesis Hd : 0 ≤ d ≤ 99.
Hypothesis Hh : 0 ≤ h ≤ 99.
Hypothesis Hmi : 0 ≤ mi ≤ 99.
Hypothesis Hs : 0 ≤ s ≤ 99.

Lemma occurs_app (c : ascii) (a b : string) :
  PyStr.occurs c (a +:+ b) = (PyStr.occurs c a || PyStr.occurs c b)%bool.
Proof. induction a as [|x a IH]; simpl; [done|]. by rewrite IH, orb_assoc. Qed.

Lemma occurs_Z_iso_date : PyStr.occurs "Z" (iso_date y m d) = false.
Proof.
  unfold iso_date, fmt4, fmt2.
  name_digit (y / 1000). name_digit (y / 100 mod 10).
  name_digit (y / 10 mod 10). name_digit (y mod 10).
  name_digit (m / 10). name_digit (m mod 10).
  name_digit (d / 10). name_digit (d mod 10).
  simpl. digit_tests. reflexivity.
Qed.

(** A date in ISO rendering followed by a time text without [Z]: the
    date is read as rendered, and the rest is left to the time part. *)
Lemma parsed_iso_date (t : string) :
  PyStr.truthy t = true → PyStr.occurs "Z" t = false →
  parsed (iso_date y m d) t
  = match parse_isoformat_time t with
    | Some (hh, mm, ss, us, tz) =>
        if fields_ok y m d hh mm ss us then Some (mkdt y m d hh mm ss us tz)
        else None
    | None => None
    end.
Proof.
  intros Ht Hz. unfold parsed.
  rewrite replace_char_absent.
  2:{ rewrite !occurs_app, occurs_Z_iso_date, Hz. reflexivity. }
  unfold fromisoformat.
  destruct (slice_iso_date y m d t) as [-> ->].
  rewrite parse_isoformat_date_iso by done. rewrite Ht.
  destruct (parse_isoformat_time t) as [[[[[hh mm] ss] us] tz]|]; [|done].
  unfold Datetime.new. by destruct (fields_ok _ _ _ _ _ _ _).
Qed.

Lemma parse_f1_datetime_iso_date (t : string) (w : world)
    (hh mm ss us : Z) :
  PyStr.truthy t = true → PyStr.occurs "Z" t = false →
  parse_isoformat_time t = Some (hh, mm, ss, us, None) →
  parse_f1_datetime (iso_date y m d) t w
  = naive_or_invalid (iso_date y m d) t y m d hh mm ss us w.
Proof.
  intros Ht Hz Hp. rewrite parse_f1_datetime_run by done.
  rewrite parsed_iso_date by done. rewrite Hp. unfold naive_or_invalid.
  by destruct (fields_ok _ _ _ _ _ _ _).
Qed.

Lemma time_hh :
  PyStr.occurs "Z" (fmt2 h) = false
  ∧ parse_isoformat_time (fmt2 h) = Some (h, 0, 0, 0, None).
Proof.
  unfold fmt2. name_digit (h / 10). name_digit (h mod 10).
  split.
  - simpl. digit_tests. reflexivity.
  - unfold parse_isoformat_time. simpl split_sign. digit_tests.
    cbv beta iota. unfold parse_hh_mm_ss_ff.
    rewrite (parse2_digits _ _ _ _ Hc Hc0).
    do 5 f_equal. Z.div_mod_to_equations; lia.
Qed.

Lemma time_hh_mm :
  PyStr.occurs "Z" (iso_hm h mi) = false
  ∧ parse_isoformat_time (iso_hm h mi) = Some (h, mi, 0, 0, None).
Proof.
  unfold iso_hm, fmt2.
  name_digit (h / 10). name_digit (h mod 10).
  name_digit (mi / 10). name_digit (mi mod 10).
  split.
  - simpl. digit_tests. reflexivity.
  - unfold parse_isoformat_time. simpl. digit_tests. simpl. digit_tests.
    simpl. unfold parse_hh_mm_ss_ff.
    rewrite (parse2_digits _ _ _ _ Hc Hc0), (parse2_digits _ _ _ _ Hc1 Hc2).
    simpl. do 5 f_equal; Z.div_mod_to_equations; lia.
Qed.

Lemma time_hh_mm_ss :
  PyStr.occurs "Z" (iso_time h mi s) = false
  ∧ parse_isoformat_time (iso_time h mi s) = Some (h, mi, s, 0, None).
Proof.
  split; [|by apply parse_isoformat_time_iso].
  unfold iso_time, fmt2.
  name_digit (h / 10). name_digit (h mod 10).
  name_digit (mi / 10). name_digit (mi mod 10).
  name_digit (s / 10). name_digit (s mod 10).
  simpl. digit_tests. reflexivity.
Qed.

Lemma split_sign_no_sign (a b : string) :
  split_sign a = (a, None) → split_sign b = (b, None) →
  split_sign (a +:+ b) = (a +:+ b, None).
Proof.
  revert b. induction a as [|c a IH]; intros b Ha Hb; simpl in *; [done|].
  destruct (Ascii.eqb c "+"); [done|]. destruct (Ascii.eqb c "-"); [done|].
  destruct (split_sign a) as [a' o] eqn:Hsa. injection Ha as -> ->.
  by rewrite (IH b eq_refl Hb).
Qed.

(** The part of [parse_hh_mm_ss_ff] that reads the fraction. *)
Lemma parse_hh_mm_ss_ff_fraction (f : string) :
  parse_hh_mm_ss_ff (iso_time h mi s +:+ "." +:+ f)
  = match parse_fraction f with
    | Some us => Some (h, mi, s, us)
    | None => None
    end.
Proof.
  unfold iso_time, fmt2.
  name_digit (h / 10). name_digit (h mod 10).
  name_digit (mi / 10). name_digit (mi mod 10).
  name_digit (s / 10). name_digit (s mod 10).
  simpl. unfold parse_hh_mm_ss_ff.
  rewrite (parse2_digits _ _ _ _ Hc Hc0), (parse2_digits _ _ _ _ Hc1 Hc2),
    (parse2_digits _ _ _ _ Hc3 Hc4).
  simpl.
  replace (10 * (h / 10) + h mod 10) with h by (Z.div_mod_to_equations; lia).
  replace (10 * (mi / 10) + mi mod 10) with mi by (Z.div_mod_to_equations; lia).
  replace (10 * (s / 10) + s mod 10) with s by (Z.div_mod_to_equations; lia).
  done.
Qed.

Lemma fraction_ms (ms : Z) :
  0 ≤ ms ≤ 999 →
  PyStr.occurs "Z" (fmt3 ms) = false
  ∧ split_sign ("." +:+ fmt3 ms) = ("." +:+ fmt3 ms, None)
  ∧ parse_fraction (fmt3 ms) = Some (ms * 1000).
Proof.
  intros Hms. unfold fmt3, fmt2.
  name_digit (ms / 100). name_digit (ms mod 100 / 10).
  name_digit (ms mod 100 mod 10).
  split_and!.
  - simpl. digit_tests. reflexivity.
  - simpl. digit_tests. reflexivity.
  - unfold parse_fraction. simpl. rewrite Hc, Hc0, Hc1.
    f_equal. Z.div_mod_to_equations; lia.
Qed.

Lemma fraction_us (us : Z) :
  0 ≤ us ≤ 999999 →
  PyStr.occurs "Z" (fmt6 us) = false
  ∧ split_sign ("." +:+ fmt6 us) = ("." +:+ fmt6 us, None)
  ∧ parse_fraction (fmt6 us) = Some us.
Proof.
  intros Hus. unfold fmt6, fmt3, fmt2.
  name_digit (us / 1000 / 100). name_digit (us / 1000 mod 100 / 10).
  name_digit (us / 1000 mod 100 mod 10).
  name_digit (us mod 1000 / 100). name_digit (us mod 1000 mod 100 / 10).
  name_digit (us mod 1000 mod 100 mod 10).
  split_and!.
  - simpl. digit_tests. reflexivity.
  - simpl. digit_tests. reflexivity.
  - unfold parse_fraction. simpl. rewrite Hc, Hc0, Hc1, Hc2, Hc3, Hc4.
    f_equal. Z.div_mod_to_equations; lia.
Qed.

Lemma time_fraction (f : string) (us : Z) :
  PyStr.occurs "Z" f = false →
  split_sign ("." +:+ f) = ("." +:+ f, None) →
  parse_fraction f = Some us →
  PyStr.occurs "Z" (iso_time h mi s +:+ "." +:+ f) = false
  ∧ parse_isoformat_time (iso_time h mi s +:+ "." +:+ f)
    = Some (h, mi, s, us, None).
Proof.
  intros Hz Hsign Hf. split.
  - rewrite occurs_app, (proj1 time_hh_mm_ss). simpl. exact Hz.
  - unfold parse_isoformat_time.
    rewrite (split_sign_no_sign (iso_time h mi s) ("." +:+ f));
      [|apply split_sign_iso_time; done|done].
    by rewrite parse_hh_mm_ss_ff_fraction, Hf.
Qed.

End time_shapes.

Lemma occurs_replaced (t : string) :
  PyStr.occurs "Z" (PyStr.replace_char "Z" "+00:00" t) = false.
Proof.
  induction t as [|c t IH]; [done|]. simpl.
  destruct (Ascii.eqb c "Z") eqn:Hc; simpl; [done|]. by rewrite Hc.
Qed.

Lemma truthy_replaced (t : string) :
  PyStr.truthy (PyStr.replace_char "Z" "+00:00" t) = PyStr.truthy t.
Proof. destruct t as [|c t]; [done|]. simpl. by destruct (Ascii.eqb c "Z"). Qed.

(** Rewriting [Z] in the two fields beforehand changes nothing. *)
Lemma parsed_replaced (date_str time_str : string) :
  parsed (PyStr.replace_char "Z" "+00:00" date_str)
         (PyStr.replace_char "Z" "+00:00" time_str)
  = parsed date_str time_str.
Proof.
  unfold parsed.
  rewrite (replace_char_absent "Z" "+00:00"
             (PyStr.replace_char "Z" "+00:00" date_str +:+ "T"
              +:+ PyStr.replace_char "Z" "+00:00" time_str)).
  2:{ rewrite !occurs_app, !occurs_replaced. reflexivity. }
  by rewrite (replace_char_app _ _ date_str), (replace_char_app _ _ "T").
Qed.

(** C10 (as amended).  For a date YYYY-MM-DD and a time without
    designator of the shape HH, HH:MM, HH:MM:SS, HH:MM:SS.fff or
    HH:MM:SS.ffffff, parsing returns the naive value with these fields
    (no offset attached) when they name a real date and time of day,
    and the invalid outcome when they do not.  Before parsing, every
    [Z] of the combined text, and nothing else, is rewritten to
    [+00:00], in the date as in the time and wherever it stands:
    parsing a pair gives what parsing the rewritten pair gives. *)
Theorem C10_no_designator_parses_naive (y m d h mi s : Z) (w : world) :
  0 ≤ y ≤ 9999 → 0 ≤ m ≤ 99 → 0 ≤ d ≤ 99 →
  0 ≤ h ≤ 99 → 0 ≤ mi ≤ 99 → 0 ≤ s ≤ 99 →
  parse_f1_datetime (iso_date y m d) (fmt2 h) w
  = naive_or_invalid (iso_date y m d) (fmt2 h) y m d h 0 0 0 w
  ∧ parse_f1_datetime (iso_date y m d) (iso_hm h mi) w
    = naive_or_invalid (iso_date y m d) (iso_hm h mi) y m d h mi 0 0 w
  ∧ parse_f1_datetime (iso_date y m d) (iso_time h mi s) w
    = naive_or_invalid (iso_date y m d) (iso_time h mi s) y m d h mi s 0 w
  ∧ (∀ ms, 0 ≤ ms ≤ 999 →
       parse_f1_datetime (iso_date y m d) (iso_time_ms h mi s ms) w
       = naive_or_invalid (iso_date y m d) (iso_time_ms h mi s ms)
                          y m d h mi s (ms * 1000) w)
  ∧ (∀ us, 0 ≤ us ≤ 999999 →
       parse_f1_datetime (iso_date y m d) (iso_time_us h mi s us) w
       = naive_or_invalid (iso_date y m d) (iso_time_us h mi s us)
                          y m d h mi s us w)
  ∧ (∀ a b, PyStr.replace_char "Z" "+00:00" (a +:+ String "Z" b)
            = PyStr.replace_char "Z" "+00:00" a +:+ "+00:00"
              +:+ PyStr.replace_char "Z" "+00:00" b)
  ∧ (∀ t, PyStr.occurs "Z" t = false → PyStr.replace_char "Z" "+00:00" t = t)
  ∧ (∀ date_str time_str,
       (parse_f1_datetime (PyStr.replace_char "Z" "+00:00" date_str)
                          (PyStr.replace_char "Z" "+00:00" time_str) w).1
       = (parse_f1_datetime date_str time_str w).1).
Proof.
  intros Hy Hm Hd Hh Hmi Hs. split_and!.
  - destruct (time_hh h Hh) as [Hz Hp].
    by apply parse_f1_datetime_iso_date.
  - destruct (time_hh_mm h mi Hh Hmi) as [Hz Hp].
    by apply parse_f1_datetime_iso_date.
  - destruct (time_hh_mm_ss h mi s Hh Hmi Hs) as [Hz Hp].
    by apply parse_f1_datetime_iso_date.
  - intros ms Hms. destruct (fraction_ms ms Hms) as (Hz & Hsign & Hf).
    destruct (time_fraction h mi s Hh Hmi Hs _ _ Hz Hsign Hf) as [Hz' Hp].
    by apply parse_f1_datetime_iso_date.
  - intros us Hus. destruct (fraction_us us Hus) as (Hz & Hsign & Hf).
    destruct (time_fraction h mi s Hh Hmi Hs _ _ Hz Hsign Hf) as [Hz' Hp].
    by apply parse_f1_datetime_iso_date.
  - intros a b. by rewrite replace_char_app.
  - intros t. apply replace_char_absent.
  - intros date_str time_str.
    destruct (PyStr.truthy date_str) eqn:Hd0.
    2:{ destruct date_str; [|done]. simpl PyStr.replace_char.
        by rewrite !parse_f1_datetime_empty by by left. }
    destruct (PyStr.truthy time_str) eqn:Ht0.
    2:{ destruct time_str; [|done]. simpl PyStr.replace_char.
        by rewrite !parse_f1_datetime_empty by by right. }
    rewrite !parse_f1_datetime_run by by rewrite ?truthy_replaced.
    rewrite parsed_replaced. by destruct (parsed date_str time_str).
Qed.

Lemma C10_no_designator_parses_naive_witness :
  parse_f1_datetime "2025-03-16" "04:00:00" world0
  = (Ok (Some (mkdt 2025 3 16 4 0 0 0 None)), world0)
  ∧ parse_f1_datetime "2025-03-16" "04:00:00.250" world0
    = (Ok (Some (mkdt 2025 3 16 4 0 0 250000 None)), world0)
  ∧ parse_f1_datetime "2025-03-16" "04:00" world0
    = (Ok (Some (mkdt 2025 3 16 4 0 0 0 None)), world0).
Proof.
  destruct (C10_no_designator_parses_naive 2025 3 16 4 0 0 world0)
    as (_ & Hhm & Hhms & Hms & _); try lia.
  split; [exact Hhms|]. split; [exact (Hms 250 ltac:(lia))|exact Hhm].
Defined.

(** C10, as stated, fails: a well-formed date and time without
    designator whose fields name no real day (30 February) parse to the
    invalid outcome. *)
Lemma C10_counterexample :
  parse_f1_datetime "2025-02-30" "04:00:00" world0
  = (Ok None, add_log (LogParseWarning "2025-02-30" "04:00:00") world0).
Proof. vm_compute. reflexivity. Qed.

Section iso_rendering_utc.

Variables y m d h mi s : Z.
Hypothesis Hok : fields_ok y m d h mi s 0 = true.

Lemma split_sign_iso_time_app (rest : string) :
  split_sign (iso_time h mi s +:+ rest)
  = ((iso_time h mi s +:+ (split_sign rest).1), (split_sign rest).2).
Proof.
  apply fields_ok_spec in Hok.
  unfold iso_time, fmt2.
  name_digit (h / 10). name_digit (h mod 10).
  name_digit (mi / 10). name_digit (mi mod 10).
  name_digit (s / 10). name_digit (s mod 10).
  simpl. digit_tests. simpl. digit_tests. simpl. digit_tests. simpl.
  by destruct (split_sign rest).
Qed.

Lemma parsed_iso_Z :
  parsed (iso_date y m d) (iso_time h mi s +:+ "Z")
  = Some (mkdt y m d h mi s 0 (Some 0)).
Proof.
  pose proof Hok as Hr. apply fields_ok_spec in Hr.
  pose proof (days_in_month_le y m).
  unfold parsed.
  replace (iso_date y m d +:+ "T" +:+ iso_time h mi s +:+ "Z")
    with ((iso_date y m d +:+ "T" +:+ iso_time h mi s) +:+ "Z")
    by (by rewrite !append_assoc).
  rewrite replace_char_app.
  rewrite replace_char_absent by (apply occurs_Z_iso; lia).
  change (PyStr.replace_char "Z" "+00:00" "Z") with "+00:00".
  rewrite !append_assoc.
  unfold fromisoformat.
  destruct (slice_iso_date y m d (iso_time h mi s +:+ "+00:00")) as [-> ->].
  rewrite parse_isoformat_date_iso by lia.
  unfold parse_isoformat_time.
  rewrite split_sign_iso_time_app. simpl split_sign. cbv beta iota. simpl fst. simpl snd.
  rewrite append_empty_r, parse_hh_mm_ss_ff_iso by lia.
  change (parse_tz false "00:00") with (Some 0).
  unfold Datetime.new. rewrite Hok. by unfold iso_time, fmt2.
Qed.

End iso_rendering_utc.

Lemma parse_isoformat_date_nondigit (c : ascii) (rest : string) :
  digit_val c = None → parse_isoformat_date (String c rest) = None.
Proof.
  intros Hc. unfold parse_isoformat_date.
  repeat (destruct rest as [|? rest]; [done|]).
  destruct rest; [|done].
  destruct (_ && _)%bool; [|done]. unfold parse2. by rewrite Hc.
Qed.

(** A date whose first character is not a decimal digit does not parse. *)
Lemma parsed_nondigit (c : ascii) (rest time_str : string) :
  digit_val c = None → parsed (String c rest) time_str = None.
Proof.
  intros Hc. unfold parsed. simpl PyStr.replace_char.
  destruct (Ascii.eqb c "Z").
  - simpl. unfold fromisoformat, PyStr.slice. simpl substring.
    by rewrite parse_isoformat_date_nondigit.
  - unfold fromisoformat, PyStr.slice. simpl substring.
    by rewrite parse_isoformat_date_nondigit.
Qed.

(** C6 (as amended).  [parse_f1_datetime] never raises: it returns a
    parsed value or [None], and leaves the calendar untouched.  Empty
    arguments and a date that does not start with a digit give [None].
    The parsed value is the UTC instant when the time ends in [Z], and a
    naive value, not a UTC instant, when the time has no designator. *)
Theorem C6_parse_returns_or_none (date_str time_str : string) (w : world) :
  (∃ r w', parse_f1_datetime date_str time_str w = (Ok r, w')
           ∧ events w' = events w ∧ next_id w' = next_id w)
  ∧ (date_str = EmptyString ∨ time_str = EmptyString →
     parse_f1_datetime date_str time_str w = (Ok None, w))
  ∧ (leading_digit date_str = false →
     (parse_f1_datetime date_str time_str w).1 = Ok None)
  ∧ (∀ y m d h mi s, fields_ok y m d h mi s 0 = true →
       parse_f1_datetime (iso_date y m d) (iso_time h mi s +:+ "Z") w
       = (Ok (Some (mkdt y m d h mi s 0 (Some 0))), w)
       ∧ parse_f1_datetime (iso_date y m d) (iso_time h mi s) w
         = (Ok (Some (mkdt y m d h mi s 0 None)), w)).
Proof.
  assert (Hrun : ∃ r w', parse_f1_datetime date_str time_str w = (Ok r, w')
                         ∧ events w' = events w ∧ next_id w' = next_id w).
  { destruct (PyStr.truthy date_str) eqn:Hd; [destruct (PyStr.truthy time_str) eqn:Ht|].
    - rewrite parse_f1_datetime_run by done.
      destruct (parsed _ _); by eexists _, _.
    - exists None, w. rewrite parse_f1_datetime_empty; [done|].
      right. by destruct time_str.
    - exists None, w. rewrite parse_f1_datetime_empty; [done|].
      left. by destruct date_str. }
  split; [done|]. split; [apply parse_f1_datetime_empty|]. split.
  - intros Hl. destruct date_str as [|c rest].
    { by rewrite parse_f1_datetime_empty by auto. }
    destruct time_str as [|c' rest'].
    { by rewrite parse_f1_datetime_empty by auto. }
    rewrite parse_f1_datetime_run by done.
    rewrite parsed_nondigit; [done|].
    simpl in Hl. apply bool_decide_eq_false in Hl.
    by destruct (digit_val c); [exfalso; apply Hl|].
  - intros y m d h mi s Hok. split.
    + rewrite parse_f1_datetime_run; [by rewrite parsed_iso_Z|done|done].
    + rewrite parse_f1_datetime_run by done. by rewrite parsed_iso.
Qed.

(** C6, as stated, fails: a time without designator parses to a value
    that is neither a UTC instant (it carries no offset) nor [None]. *)
Lemma C6_counterexample :
  ∃ dt, parse_f1_datetime "2025-03-16" "04:00:00" world0 = (Ok (Some dt), world0)
        ∧ tzinfo dt = None.
Proof. by eexists. Qed.

(** ** The temporal filter *)

Lemma lt_raises (a b : datetime) (e : exn) : Datetime.lt a b = Raise e → e = TypeError.
Proof. unfold Datetime.lt. repeat case_match; congruence. Qed.

(** The loop body, by cases on the session. *)
Lemma sync_session_run (r : race) (now : datetime) (c : counts)
    (st : string) (w : world) :
  sync_session r now c st w
  = match session_times r st with
    | None => (Ok c, w)
    | Some (d, t) =>
        match parsed d t with
        | None => (Ok (bump_invalid c), add_log (LogParseWarning d t) w)
        | Some dt =>
            match Datetime.lt dt now with
            | Ok true => (Ok (bump_past c), w)
            | Ok false => reconcile_session r st dt c w
            | Raise e => (Raise e, w)
            end
        end
    end.
Proof.
  unfold sync_session, session_times.
  destruct (schedule r !! st) as [sess|]; [|done].
  destruct (PyStr.truthy (get_str (s_date sess))) eqn:Hd; [|done].
  destruct (PyStr.truthy (get_str (s_time sess))) eqn:Ht; [|done].
  simpl. unfold bind at 1. rewrite parse_f1_datetime_run by done.
  destruct (parsed _ _) as [dt|]; [|done].
  unfold bind, lift. by destruct (Datetime.lt dt now) as [[]|].
Qed.

(** C7 (as amended).  A session whose time does not parse is counted
    invalid.  A session parsed to an aware instant is counted past when
    the instant is strictly before the clock, and is otherwise handed to
    the reconciliation, also when the instant equals the clock. *)
Theorem C7_strict_comparison (r : race) (now : datetime) (c : counts)
    (st d t : string) (w : world) :
  session_times r st = Some (d, t) → aware now = true →
  (parsed d t = None →
   sync_session r now c st w
   = (Ok (bump_invalid c), add_log (LogParseWarning d t) w))
  ∧ (∀ dt, parsed d t = Some dt → aware dt = true →
           utc_micros dt < utc_micros now →
           sync_session r now c st w = (Ok (bump_past c), w))
  ∧ (∀ dt, parsed d t = Some dt → aware dt = true →
           utc_micros now ≤ utc_micros dt →
           sync_session r now c st w = reconcile_session r st dt c w)
  ∧ (∀ dt, parsed d t = Some dt → aware dt = true →
           utc_micros dt = utc_micros now →
           classify r now st = Future dt).
Proof.
  intros Hs Hnow. rewrite sync_session_run, Hs.
  unfold classify. rewrite Hs.
  assert (Hlt : ∀ dt, aware dt = true →
                      Datetime.lt dt now = Ok (utc_micros dt <? utc_micros now)).
  { intros dt Hdt. unfold Datetime.lt, aware in *.
    by destruct (tzinfo dt), (tzinfo now). }
  repeat split.
  - by intros ->.
  - intros dt -> Hdt Hcmp. rewrite (Hlt dt Hdt).
    by apply Z.ltb_lt in Hcmp as ->.
  - intros dt -> Hdt Hcmp. rewrite (Hlt dt Hdt).
    by apply Z.ltb_ge in Hcmp as ->.
  - intros dt -> Hdt Hcmp. rewrite (Hlt dt Hdt), Hcmp.
    by rewrite Z.ltb_irrefl.
Qed.

Lemma C7_strict_comparison_witness :
  classify melbourne (utc 2025 3 16 4 0 0) "race" = Future (utc 2025 3 16 4 0 0).
Proof.
  refine (proj2 (proj2 (proj2
            (C7_strict_comparison melbourne (utc 2025 3 16 4 0 0) counts0
               "race" "2025-03-16" "04:00:00Z" world0 _ _))) _ _ _ _);
    vm_compute; reflexivity.
Defined.

(** C7, as stated, fails: a session whose time carries no designator
    parses, is not before the clock, and yet is not classified future:
    the comparison raises and ends the pass. *)
Lemma C7_counterexample :
  ∃ dt, parsed "2025-07-06" "14:00:00" = Some dt
        ∧ classify silverstone_naive now_feb "race" ≠ Future dt
        ∧ sync_session silverstone_naive now_feb counts0 "race" world0
          = (Raise TypeError, world0)
        ∧ (sync_f1_schedule [silverstone_naive] now_feb world0).1 = Raise TypeError.
Proof.
  eexists. split; [reflexivity|]. split; [|split].
  - vm_compute. discriminate.
  - vm_compute. reflexivity.
  - vm_compute. reflexivity.
Qed.

(** ** The calendar service *)

Section service_runs.

Implicit Types (m : gmap nat event) (n : nat) (lf wf : list bool)
  (lo wo : list (option exn)) (lg : list log_entry) (dt : datetime).

Lemma hd_http_faults lf :
  hd None (http_faults lf) = if hd false lf then Some HttpError else None.
Proof. by destruct lf. Qed.

Lemma tl_http_faults lf : tl (http_faults lf) = http_faults (tl lf).
Proof. by destruct lf. Qed.

Lemma caught_http_faults lf : caught (hd None (http_faults lf)) = hd false lf.
Proof. by destruct lf as [|[] ?]. Qed.

Lemma uncaught_http_faults lf : uncaught (hd None (http_faults lf)) = None.
Proof. by destruct lf as [|[] ?]. Qed.

Lemma http_only_http_faults lf : http_only (http_faults lf).
Proof.
  intros e [b [Hb _]]%list_elem_of_fmap. by destruct b; simplify_eq.
Qed.

Lemma http_only_hd lo : http_only lo → uncaught (hd None lo) = None.
Proof.
  intros Hlo. destruct lo as [|[e|] lo]; [done| |done].
  by rewrite (Hlo e ltac:(left)).
Qed.

Lemma http_only_tl lo : http_only lo → http_only (tl lo).
Proof. intros Hlo e He. apply Hlo. destruct lo; [done|]. by right. Qed.

Lemma replace_hms_valid dt (h mi s : Z) :
  dt_valid dt → 0 ≤ h ≤ 23 → 0 ≤ mi ≤ 59 → 0 ≤ s ≤ 59 →
  replace_hms dt h mi s
  = Ok (mkdt (year dt) (month dt) (day dt) h mi s (microsecond dt) (tzinfo dt)).
Proof.
  unfold dt_valid, replace_hms, Datetime.new. intros Hv%fields_ok_spec ???.
  assert (fields_ok (year dt) (month dt) (day dt) h mi s (microsecond dt) = true)
    as -> by (apply fields_ok_spec; lia).
  done.
Qed.

Lemma replace_hour_early dt :
  dt_valid dt → hour dt ≤ 21 →
  replace_hour dt (hour dt + 2) = Ok (plus_two_hours dt).
Proof.
  unfold dt_valid, replace_hour, Datetime.new. intros Hv%fields_ok_spec ?.
  assert (fields_ok (year dt) (month dt) (day dt) (hour dt + 2) (minute dt)
            (second dt) (microsecond dt) = true)
    as -> by (apply fields_ok_spec; lia).
  done.
Qed.

Lemma replace_hour_late dt :
  22 ≤ hour dt → replace_hour dt (hour dt + 2) = Raise ValueError.
Proof.
  unfold replace_hour, Datetime.new. intros Hh.
  destruct (fields_ok _ _ _ _ _ _ _) eqn:Hf; [|done].
  apply fields_ok_spec in Hf. lia.
Qed.

(** The end of a written event lies exactly two hours after its start. *)
Lemma plus_two_hours_micros dt :
  utc_micros (plus_two_hours dt) = utc_micros dt + 2 * 3600 * us_per_second.
Proof.
  unfold utc_micros, wall_micros, toordinal, plus_two_hours, us_per_second.
  simpl. lia.
Qed.

(** [find_existing_event], by the outcome of its round trip: an
    [HttpError] gives [None], any other exception leaves the function. *)
Lemma find_existing_event_any (title : string) dt m n lo wo lg :
  dt_valid dt →
  find_existing_event title dt (mkWorld m n lo wo lg)
  = match uncaught (hd None lo) with
    | Some e => (Raise e, mkWorld m n (tl lo) wo lg)
    | None =>
        if (caught (hd None lo) || negb (aware dt))%bool
        then (Ok None, mkWorld m n (tl lo) wo (lg ++ [LogLookupError]))
        else (Ok (find_title title (list_items m (day_start dt) (day_end dt))),
              mkWorld m n (tl lo) wo lg)
    end.
Proof.
  intros Hv. unfold find_existing_event, try_except, bind at 1.
  unfold lift. rewrite replace_hms_valid by (done || lia).
  unfold bind at 1. rewrite replace_hms_valid by (done || lia).
  fold (day_start dt) (day_end dt).
  unfold bind, events_list, bind, lookup_call, ret, raise, logger, add_log.
  cbn -[list_items find_title].
  assert (aware (day_start dt) = aware dt ∧ aware (day_end dt) = aware dt)
    as [-> ->] by done.
  destruct (hd None lo) as [[]|]; try done. simpl.
  rewrite andb_diag. by destruct (aware dt).
Qed.

Lemma find_existing_event_run (title : string) dt m n lf wo lg :
  dt_valid dt →
  find_existing_event title dt (mkWorld m n (http_faults lf) wo lg)
  = if (hd false lf || negb (aware dt))%bool
    then (Ok None, mkWorld m n (http_faults (tl lf)) wo (lg ++ [LogLookupError]))
    else (Ok (find_title title (list_items m (day_start dt) (day_end dt))),
          mkWorld m n (http_faults (tl lf)) wo lg).
Proof.
  intros Hv. rewrite find_existing_event_any by done.
  by rewrite uncaught_http_faults, caught_http_faults, tl_http_faults.
Qed.

(** [add_or_update_event] for a start the end time can be built from,
    by the outcomes of its lookup and of its write. *)
Lemma add_or_update_event_any (title : string) dt (desc loc : string)
    m n lo wo lg :
  dt_valid dt → aware dt = true → hour dt ≤ 21 →
  add_or_update_event title dt desc loc (mkWorld m n lo wo lg)
  = match uncaught (hd None lo) with
    | Some e => (Raise e, mkWorld m n (tl lo) wo lg)
    | None =>
        let found := if caught (hd None lo) then None
                     else find_title title
                            (list_items m (day_start dt) (day_end dt)) in
        let lg1 := (if caught (hd None lo) then lg ++ [LogLookupError]
                    else lg)%list in
        match uncaught (hd None wo) with
        | Some e => (Raise e, mkWorld m n (tl lo) (tl wo) lg1)
        | None =>
            if caught (hd None wo)
            then (Ok None, mkWorld m n (tl lo) (tl wo) (lg1 ++ [LogWriteError]))
            else match found with
                 | Some (i, _) =>
                     match m !! i with
                     | Some _ =>
                         (Ok (Some i),
                          mkWorld (<[i := body_of title dt desc loc]> m) n
                                  (tl lo) (tl wo) (lg1 ++ [LogUpdated title dt]))
                     | None => (Ok None, mkWorld m n (tl lo) (tl wo)
                                                 (lg1 ++ [LogWriteError]))
                     end
                 | None =>
                     (Ok (Some n),
                      mkWorld (<[n := body_of title dt desc loc]> m) (S n)
                              (tl lo) (tl wo) (lg1 ++ [LogAdded title dt]))
                 end
        end
    end.
Proof.
  intros Hv Ha Hh. unfold add_or_update_event, try_except, bind at 1.
  rewrite find_existing_event_any by done. rewrite Ha. simpl negb.
  rewrite orb_false_r.
  destruct (uncaught (hd None lo)) as [e|] eqn:Hun.
  { by destruct e, (hd None lo) as [[]|]. }
  unfold bind at 1, lift. rewrite replace_hour_early by done.
  fold (body_of title dt desc loc).
  destruct (caught (hd None lo)) eqn:Hlf.
  - unfold bind, events_insert, bind, write_call, ret, logger, add_log.
    cbn -[list_items find_title]. by destruct (hd None wo) as [[]|].
  - destruct (find_title _ _) as [[i ?]|].
    + unfold bind, events_update, bind, write_call, ret, logger, add_log.
      cbn -[list_items find_title]. destruct (hd None wo) as [[]|]; try done.
      cbn. by destruct (m !! i).
    + unfold bind, events_insert, bind, write_call, ret, logger, add_log.
      cbn -[list_items find_title]. by destruct (hd None wo) as [[]|].
Qed.

Lemma add_or_update_event_run (title : string) dt (desc loc : string)
    m n lf wf lg :
  dt_valid dt → aware dt = true → hour dt ≤ 21 →
  add_or_update_event title dt desc loc
    (mkWorld m n (http_faults lf) (http_faults wf) lg)
  = let found := if hd false lf then None
                 else find_title title (list_items m (day_start dt) (day_end dt)) in
    let lg1 := (if hd false lf then lg ++ [LogLookupError] else lg)%list in
    if hd false wf
    then (Ok None, mkWorld m n (http_faults (tl lf)) (http_faults (tl wf))
                           (lg1 ++ [LogWriteError]))
    else match found with
         | Some (i, _) =>
             match m !! i with
             | Some _ => (Ok (Some i),
                          mkWorld (<[i := body_of title dt desc loc]> m) n
                                  (http_faults (tl lf)) (http_faults (tl wf))
                                  (lg1 ++ [LogUpdated title dt]))
             | None => (Ok None, mkWorld m n (http_faults (tl lf))
                                         (http_faults (tl wf))
                                         (lg1 ++ [LogWriteError]))
             end
         | None => (Ok (Some n),
                    mkWorld (<[n := body_of title dt desc loc]> m) (S n)
                            (http_faults (tl lf)) (http_faults (tl wf))
                            (lg1 ++ [LogAdded title dt]))
         end.
Proof.
  intros Hv Ha Hh. rewrite add_or_update_event_any by done.
  by rewrite !uncaught_http_faults, !caught_http_faults, !tl_http_faults.
Qed.

(** From hour 22 on the end time cannot be built: the [ValueError] of
    [replace] is not among the caught classes and leaves the function;
    nothing is written. *)
Lemma add_or_update_event_late (title : string) dt (desc loc : string) (w : world) :
  22 ≤ hour dt → uncaught (hd None (lookup_faults w)) = None →
  let out := add_or_update_event title dt desc loc w in
  out.1 = Raise ValueError ∧ events out.2 = events w ∧ next_id out.2 = next_id w.
Proof.
  intros Hh Hlo. destruct w as [m n lf wf lg]. simpl in Hlo.
  unfold add_or_update_event, try_except, bind at 1.
  unfold find_existing_event, try_except, bind at 1, lift.
  unfold replace_hms, Datetime.new.
  destruct (fields_ok _ _ _ 0 0 0 _) eqn:H0; [|done].
  unfold bind at 1.
  destruct (fields_ok _ _ _ 23 59 59 _) eqn:H1; [|done].
  unfold bind, events_list, bind, lookup_call, ret, raise, logger, add_log.
  cbn -[list_items find_title replace_hour].
  rewrite replace_hour_late by done.
  destruct (hd None lf) as [[]|]; try done.
  by destruct (_ && _)%bool.
Qed.

End service_runs.

(** C3 (failing input).  For a qualifying session starting at 22:00 UTC
    the end time is not start plus two hours: building it raises
    [ValueError], the exception leaves [add_or_update_event] and the
    pass, no event is written and no summary is reported. *)
Theorem C3_end_time_at_hour_22 :
  classify austin now_feb "qualy" = Future (utc 2025 10 18 22 0 0)
  ∧ replace_hour (utc 2025 10 18 22 0 0) (22 + 2) = Raise ValueError
  ∧ (add_or_update_event "F1 United States Grand Prix - Qualifying (Circuit of the Americas)"
       (utc 2025 10 18 22 0 0) "" "Austin, United States" world0).1
    = Raise ValueError
  ∧ (sync_f1_schedule [austin] now_feb world0).1 = Raise ValueError
  ∧ events (sync_f1_schedule [austin] now_feb world0).2 = ∅
  ∧ report_of (log (sync_f1_schedule [austin] now_feb world0).2) = None.
Proof. repeat split; vm_compute; reflexivity. Qed.

(** ** Lookups by title and day *)

Section lookups.

Implicit Types (m : gmap nat event) (dt : datetime) (e : event).

Lemma elem_of_list_items m (tmin tmax : datetime) (i : nat) e :
  (i, e) ∈ list_items m tmin tmax
  ↔ m !! i = Some e ∧ in_window tmin tmax (i, e) = true.
Proof.
  unfold list_items. rewrite merge_sort_Permutation.
  rewrite list_elem_of_filter, elem_of_map_to_list. tauto.
Qed.

Lemma find_title_Some (title : string) (items : list (nat * event)) i e :
  find_title title items = Some (i, e) → (i, e) ∈ items ∧ summary e = title.
Proof.
  unfold find_title. intros [Hin Heq]%List.find_some.
  split; [by apply list_elem_of_In|]. by apply String.eqb_eq in Heq.
Qed.

Lemma find_title_None (title : string) (items : list (nat * event)) i e :
  find_title title items = None → (i, e) ∈ items → summary e ≠ title.
Proof.
  unfold find_title. intros Hnone Hin%list_elem_of_In Heq.
  pose proof (List.find_none _ _ Hnone _ Hin) as Hf. simpl in Hf.
  apply String.eqb_neq in Hf. done.
Qed.

(** A valid UTC value denotes an instant of its own calendar day. *)
Lemma utc_micros_utc dt :
  dt_valid dt → tzinfo dt = Some 0 →
  ∃ tod, utc_micros dt = toordinal dt * us_per_day + tod
         ∧ (hour dt * 3600) * us_per_second ≤ tod
         ∧ tod < (hour dt * 3600 + 3600) * us_per_second.
Proof.
  unfold dt_valid. intros Hv%fields_ok_spec Htz.
  exists (((hour dt * 60 + minute dt) * 60 + second dt) * us_per_second
          + microsecond dt).
  unfold utc_micros, wall_micros, us_per_second. rewrite Htz. simpl. lia.
Qed.

Lemma utc_day_utc dt :
  dt_valid dt → tzinfo dt = Some 0 → utc_day dt = toordinal dt.
Proof.
  intros Hv Htz. destruct (utc_micros_utc dt Hv Htz) as (tod & Hm & Hlo & Hhi).
  apply fields_ok_spec in Hv.
  unfold utc_day. rewrite Hm. symmetry.
  apply Z.div_unique with tod; unfold us_per_day, us_per_second in *; lia.
Qed.

(** The window sent for a UTC start holds exactly the well-formed events
    of the same calendar day. *)
Lemma in_window_same_day dt e (i : nat) :
  dt_valid dt → tzinfo dt = Some 0 → wf_event e →
  in_window (day_start dt) (day_end dt) (i, e) = true
  ↔ utc_day (ev_start e) = utc_day dt.
Proof.
  intros Hv Htz (Hve & Htze & Hhe & Hend).
  rewrite (utc_day_utc dt), (utc_day_utc (ev_start e)) by done.
  unfold in_window. simpl. rewrite Hend, plus_two_hours_micros.
  destruct (utc_micros_utc _ Hve Htze) as (tod & -> & Hlo & Hhi).
  apply fields_ok_spec in Hv. apply fields_ok_spec in Hve.
  assert (utc_micros (day_start dt)
          = toordinal dt * us_per_day + microsecond dt) as ->.
  { unfold utc_micros, wall_micros, day_start, toordinal. rewrite Htz.
    simpl. lia. }
  assert (utc_micros (day_end dt)
          = toordinal dt * us_per_day + 86399 * us_per_second + microsecond dt) as ->.
  { unfold utc_micros, wall_micros, day_end, toordinal, us_per_second.
    rewrite Htz. simpl. lia. }
  rewrite andb_true_iff, !Z.ltb_lt.
  generalize (toordinal dt) (toordinal (ev_start e)). intros od oe.
  unfold us_per_day, us_per_second in *. lia.
Qed.

Lemma lookup_found (title : string) m dt i e :
  store_wf m → dt_valid dt → tzinfo dt = Some 0 →
  find_title title (list_items m (day_start dt) (day_end dt)) = Some (i, e) →
  m !! i = Some e ∧ event_key e = (title, utc_day dt).
Proof.
  intros Hwf Hv Htz [[Hm Hw]%elem_of_list_items Ht]%find_title_Some.
  split; [done|]. unfold event_key. f_equal; [done|].
  by apply (in_window_same_day dt e i Hv Htz (Hwf _ _ Hm)).
Qed.

Lemma lookup_absent (title : string) m dt :
  store_wf m → dt_valid dt → tzinfo dt = Some 0 →
  key_free m (title, utc_day dt) →
  find_title title (list_items m (day_start dt) (day_end dt)) = None.
Proof.
  intros Hwf Hv Htz Hfree.
  destruct (find_title _ _) as [[i e]|] eqn:Hf; [|done].
  apply lookup_found in Hf as [Hm Hk]; [|done..].
  by destruct (Hfree i e Hm).
Qed.

Lemma lookup_present (title : string) m dt i e :
  store_wf m → dedup m → dt_valid dt → tzinfo dt = Some 0 →
  m !! i = Some e → event_key e = (title, utc_day dt) →
  find_title title (list_items m (day_start dt) (day_end dt)) = Some (i, e).
Proof.
  intros Hwf Hdd Hv Htz Hm Hk.
  destruct (find_title _ _) as [[j e']|] eqn:Hf.
  - apply lookup_found in Hf as [Hm' Hk']; [|done..].
    assert (j = i) as -> by (apply (Hdd j i e' e); congruence).
    congruence.
  - exfalso. injection Hk as Ht Hday.
    refine (find_title_None _ _ i e Hf _ Ht).
    apply elem_of_list_items. split; [done|].
    by apply in_window_same_day; [..|apply (Hwf _ _ Hm)|].
Qed.

End lookups.

(** ** The run summary *)

Lemma report_of_snoc (l : list log_entry) (e : log_entry) :
  report_of (l ++ [e])
  = match e with
    | LogSummary t a u p i => Some (t, a, u, p, i)
    | _ => report_of l
    end.
Proof. unfold report_of. rewrite fold_left_app. by destruct e. Qed.

Lemma report_of_closing (c : counts) (w : world) :
  report_of (log (closing c w)) = report_of (log w).
Proof.
  unfold closing. repeat case_match; try done; simpl; by rewrite report_of_snoc.
Qed.

Lemma events_closing (c : counts) (w : world) :
  events (closing c w) = events w ∧ next_id (closing c w) = next_id w
  ∧ lookup_faults (closing c w) = lookup_faults w
  ∧ write_faults (closing c w) = write_faults w.
Proof. unfold closing. by repeat case_match. Qed.

Lemma sync_f1_schedule_run (races : list race) (now : datetime) (w : world) :
  races ≠ [] →
  sync_f1_schedule races now w
  = match foldM (sync_race now) counts0 races (loop_start races w) with
    | (Ok c, w1) =>
        (Ok tt, closing c (add_log (LogSummary (length races) (added_count c)
                                      (updated_count c) (past_count c)
                                      (invalid_date_count c)) w1))
    | (Raise e, w1) => (Raise e, w1)
    end.
Proof.
  intros Hne. destruct races as [|r races]; [done|].
  unfold sync_f1_schedule, loop_start.
  unfold bind at 1, logger at 1. unfold bind at 1, logger at 1.
  unfold bind at 1.
  destruct (foldM _ _ _ _) as [[c|e] w1]; [|done].
  unfold bind, logger, closing, ret. by repeat case_match.
Qed.

Lemma sync_f1_schedule_no_races (now : datetime) (w : world) :
  sync_f1_schedule [] now w = (Ok tt, add_log LogNoRaces (add_log LogStarting w)).
Proof. reflexivity. Qed.

(** C9 (as amended).  With zero races the pass ends after the warning and
    reports no summary.  With at least one race, a pass whose loop runs
    to its end reports the summary with the counts of the loop. *)
Theorem C9_summary_after_loop (races : list race) (now : datetime) (w : world) :
  (sync_f1_schedule [] now w = (Ok tt, add_log LogNoRaces (add_log LogStarting w))
   ∧ report_of (log (sync_f1_schedule [] now w).2) = report_of (log w))
  ∧ (races ≠ [] →
     ∀ c w1, foldM (sync_race now) counts0 races (loop_start races w) = (Ok c, w1) →
       ∃ w', sync_f1_schedule races now w = (Ok tt, w')
             ∧ report_of (log w')
               = Some (length races, added_count c, updated_count c,
                       past_count c, invalid_date_count c)
             ∧ events w' = events w1).
Proof.
  split.
  - split; [done|]. simpl. by rewrite !report_of_snoc.
  - intros Hne c w1 Hloop. rewrite sync_f1_schedule_run, Hloop by done.
    eexists. split; [done|]. rewrite report_of_closing. simpl.
    rewrite report_of_snoc. split; [done|].
    by rewrite (proj1 (events_closing _ _)).
Qed.

Lemma C9_summary_after_loop_witness :
  ∃ w', sync_f1_schedule [melbourne] now_feb world0 = (Ok tt, w')
        ∧ report_of (log w') = Some (1, 2, 0, 0, 0)%nat.
Proof.
  destruct (proj2 (C9_summary_after_loop [melbourne] now_feb world0)
              ltac:(discriminate) _ _ ltac:(vm_compute; reflexivity))
    as (w' & Hrun & Hrep & _).
  by exists w'.
Defined.

(** C9, as stated, fails: with zero races the pass logs the warning only;
    no summary, all-zero or other, is emitted. *)
Lemma C9_counterexample :
  log (sync_f1_schedule [] now_feb world0).2 = [LogStarting; LogNoRaces]
  ∧ report_of (log (sync_f1_schedule [] now_feb world0).2) = None.
Proof. split; reflexivity. Qed.

(** ** One candidate *)

Section one_candidate.

Implicit Types (m : gmap nat event) (n : nat) (lf wf : list bool)
  (lo wo : list (option exn))
  (lg : list log_entry) (dt : datetime) (r : race) (st : string) (c : counts).

(** [reconcile_session] for a start the end time can be built from, by
    cases on the outcomes of its two lookups and of its write.  The
    first lookup decides what is counted, the second what is written;
    an exception other than [HttpError] ends the handling where it is
    raised. *)
Lemma reconcile_session_any r st dt c m n lo wo lg :
  dt_valid dt → aware dt = true → hour dt ≤ 21 →
  reconcile_session r st dt c (mkWorld m n lo wo lg)
  = let title := format_session_title r st in
    let items := list_items m (day_start dt) (day_end dt) in
    let f1 := hd None lo in
    let f2 := hd None (tl lo) in
    let fw := hd None wo in
    let found1 := if caught f1 then None else find_title title items in
    let found2 := if caught f2 then None else find_title title items in
    let lg1 := (if caught f1 then lg ++ [LogLookupError] else lg)%list in
    let lg2 := (if caught f2 then lg1 ++ [LogLookupError] else lg1)%list in
    let counted := if found1 is Some _ then bump_updated c else bump_added c in
    match uncaught f1 with
    | Some e => (Raise e, mkWorld m n (tl lo) wo lg)
    | None =>
    match uncaught f2 with
    | Some e => (Raise e, mkWorld m n (tl (tl lo)) wo lg1)
    | None =>
    match uncaught fw with
    | Some e => (Raise e, mkWorld m n (tl (tl lo)) (tl wo) lg2)
    | None =>
    if caught fw
    then (Ok c, mkWorld m n (tl (tl lo)) (tl wo) (lg2 ++ [LogWriteError]))
    else match found2 with
         | Some (i, _) =>
             match m !! i with
             | Some _ => (Ok counted,
                          mkWorld (<[i := cand_event (r, st, dt)]> m) n
                                  (tl (tl lo)) (tl wo) (lg2 ++ [LogUpdated title dt]))
             | None => (Ok c, mkWorld m n (tl (tl lo)) (tl wo)
                                      (lg2 ++ [LogWriteError]))
             end
         | None => (Ok counted,
                    mkWorld (<[n := cand_event (r, st, dt)]> m) (S n)
                            (tl (tl lo)) (tl wo) (lg2 ++ [LogAdded title dt]))
         end
    end end end.
Proof.
  intros Hv Ha Hh. unfold reconcile_session, bind at 1.
  rewrite find_existing_event_any by done. rewrite Ha. simpl negb.
  rewrite orb_false_r.
  set (title := format_session_title r st).
  set (items := list_items m (day_start dt) (day_end dt)).
  assert (Hbody : body_of title dt (format_session_description r st)
                    (race_location r) = cand_event (r, st, dt)) by done.
  cbn zeta.
  destruct (uncaught (hd None lo)) as [e|]; [done|].
  destruct (caught (hd None lo)) eqn:Hlf.
  - unfold bind. rewrite add_or_update_event_any by done.
    fold items. rewrite Hbody. cbn zeta.
    destruct (uncaught (hd None (tl lo))) as [e|]; [done|].
    destruct (uncaught (hd None wo)) as [e|]; [done|].
    destruct (caught (hd None wo)); [done|].
    destruct (caught (hd None (tl lo))); [done|].
    destruct (find_title title items) as [[i ?]|]; [|done].
    by destruct (m !! i).
  - unfold bind. rewrite add_or_update_event_any by done.
    fold items. rewrite Hbody. cbn zeta.
    destruct (uncaught (hd None (tl lo))) as [e|].
    { by destruct (find_title title items). }
    destruct (uncaught (hd None wo)) as [e|].
    { by destruct (find_title title items). }
    destruct (caught (hd None wo)).
    { by destruct (find_title title items). }
    destruct (caught (hd None (tl lo))).
    { by destruct (find_title title items). }
    destruct (find_title title items) as [[i ?]|]; [|done].
    by destruct (m !! i).
Qed.

Lemma reconcile_session_run r st dt c m n lf wf lg :
  dt_valid dt → aware dt = true → hour dt ≤ 21 →
  reconcile_session r st dt c (mkWorld m n (http_faults lf) (http_faults wf) lg)
  = let title := format_session_title r st in
    let items := list_items m (day_start dt) (day_end dt) in
    let found1 := if hd false lf then None else find_title title items in
    let found2 := if hd false (tl lf) then None else find_title title items in
    let lg1 := (if hd false lf then lg ++ [LogLookupError] else lg)%list in
    let lg2 := (if hd false (tl lf) then lg1 ++ [LogLookupError] else lg1)%list in
    let counted := if found1 is Some _ then bump_updated c else bump_added c in
    if hd false wf
    then (Ok c, mkWorld m n (http_faults (tl (tl lf))) (http_faults (tl wf))
                        (lg2 ++ [LogWriteError]))
    else match found2 with
         | Some (i, _) =>
             match m !! i with
             | Some _ => (Ok counted,
                          mkWorld (<[i := cand_event (r, st, dt)]> m) n
                                  (http_faults (tl (tl lf))) (http_faults (tl wf))
                                  (lg2 ++ [LogUpdated title dt]))
             | None => (Ok c, mkWorld m n (http_faults (tl (tl lf)))
                                      (http_faults (tl wf))
                                      (lg2 ++ [LogWriteError]))
             end
         | None => (Ok counted,
                    mkWorld (<[n := cand_event (r, st, dt)]> m) (S n)
                            (http_faults (tl (tl lf))) (http_faults (tl wf))
                            (lg2 ++ [LogAdded title dt]))
         end.
Proof.
  intros Hv Ha Hh. rewrite reconcile_session_any by done. cbn zeta.
  rewrite !tl_http_faults.
  by rewrite !uncaught_http_faults, !caught_http_faults.
Qed.

Lemma add_or_update_event_late_run (title : string) dt (desc loc : string)
    m n lo wo lg :
  dt_valid dt → 22 ≤ hour dt →
  add_or_update_event title dt desc loc (mkWorld m n lo wo lg)
  = match uncaught (hd None lo) with
    | Some e => (Raise e, mkWorld m n (tl lo) wo lg)
    | None =>
        (Raise ValueError,
         mkWorld m n (tl lo) wo
                 (if (caught (hd None lo) || negb (aware dt))%bool
                  then lg ++ [LogLookupError] else lg))
    end.
Proof.
  intros Hv Hh. unfold add_or_update_event, try_except, bind at 1.
  rewrite find_existing_event_any by done.
  destruct (uncaught (hd None lo)) as [e|] eqn:Hun.
  { by destruct e, (hd None lo) as [[]|]. }
  destruct (caught (hd None lo) || negb (aware dt))%bool;
    unfold bind, lift; by rewrite replace_hour_late.
Qed.

(** From hour 22 on the pass ends at this candidate, with the store as
    it was: in [ValueError], unless a lookup raised before. *)
Lemma reconcile_session_late_any r st dt c m n lo wo lg :
  dt_valid dt → 22 ≤ hour dt →
  ∃ e lo' lg', reconcile_session r st dt c (mkWorld m n lo wo lg)
               = (Raise e, mkWorld m n lo' wo lg')
               ∧ (e = ValueError ∨ Some e = hd None lo ∨ Some e = hd None (tl lo))
               ∧ e ≠ HttpError.
Proof.
  intros Hv Hh. unfold reconcile_session, bind at 1.
  rewrite find_existing_event_any by done.
  destruct (hd None lo) as [e1|] eqn:H1; simpl.
  - destruct e1; simpl;
      try (eexists _, _, _; split; [done|]; split; [by right; left|done]).
    unfold bind. rewrite add_or_update_event_late_run by done.
    destruct (hd None (tl lo)) as [[]|] eqn:H2; simpl;
      eexists _, _, _; (split; [done|]); split; try done; auto.
  - destruct (aware dt); simpl;
      unfold bind; rewrite add_or_update_event_late_run by done;
      destruct (hd None (tl lo)) as [[]|] eqn:H2; simpl;
      eexists _, _, _; (split; [done|]); split; try done; auto.
Qed.

Lemma reconcile_session_late r st dt c m n lf wo lg :
  dt_valid dt → 22 ≤ hour dt →
  ∃ lg', reconcile_session r st dt c (mkWorld m n (http_faults lf) wo lg)
         = (Raise ValueError, mkWorld m n (http_faults (tl (tl lf))) wo lg').
Proof.
  intros Hv Hh. unfold reconcile_session, bind at 1.
  rewrite find_existing_event_run by done.
  destruct (hd false lf || negb (aware dt))%bool;
    unfold bind; rewrite add_or_update_event_late_run by done;
    rewrite uncaught_http_faults, tl_http_faults; by eexists.
Qed.

(** A candidate whose key is free is created, unless the write fails. *)
Lemma reconcile_new r st dt c m n wf lg :
  dt_valid dt → tzinfo dt = Some 0 → hour dt ≤ 21 → store_wf m →
  key_free m (cand_key (r, st, dt)) →
  ∃ lg', reconcile_session r st dt c (mkWorld m n [] (http_faults wf) lg)
         = if hd false wf
           then (Ok c, mkWorld m n [] (http_faults (tl wf)) lg')
           else (Ok (bump_added c),
                 mkWorld (<[n := cand_event (r, st, dt)]> m) (S n) []
                         (http_faults (tl wf)) lg').
Proof.
  intros Hv Htz Hh Hwf Hfree.
  change (mkWorld m n [] (http_faults wf) lg)
    with (mkWorld m n (http_faults []) (http_faults wf) lg).
  rewrite reconcile_session_run by (done || by unfold aware; rewrite Htz).
  cbn zeta. simpl hd. simpl tl. cbv iota.
  change (http_faults []) with (@nil (option exn)).
  rewrite (lookup_absent (format_session_title r st) m dt Hwf Hv Htz Hfree).
  destruct (hd false wf); by eexists.
Qed.

(** A candidate whose event exists replaces it, unless the write fails. *)
Lemma reconcile_existing r st dt c m n wf lg (i : nat) (e : event) :
  dt_valid dt → tzinfo dt = Some 0 → hour dt ≤ 21 → store_wf m → dedup m →
  m !! i = Some e → event_key e = cand_key (r, st, dt) →
  ∃ lg', reconcile_session r st dt c (mkWorld m n [] (http_faults wf) lg)
         = if hd false wf
           then (Ok c, mkWorld m n [] (http_faults (tl wf)) lg')
           else (Ok (bump_updated c),
                 mkWorld (<[i := cand_event (r, st, dt)]> m) n []
                         (http_faults (tl wf)) lg').
Proof.
  intros Hv Htz Hh Hwf Hdd Hm Hk.
  change (mkWorld m n [] (http_faults wf) lg)
    with (mkWorld m n (http_faults []) (http_faults wf) lg).
  rewrite reconcile_session_run by (done || by unfold aware; rewrite Htz).
  cbn zeta. simpl hd. simpl tl. cbv iota.
  change (http_faults []) with (@nil (option exn)).
  rewrite (lookup_present (format_session_title r st) m dt i e Hwf Hdd Hv Htz Hm Hk).
  rewrite Hm. destruct (hd false wf); by eexists.
Qed.

End one_candidate.

(** ** Invariants of the store *)

Section store_invariants.

Implicit Types (m : gmap nat event) (n : nat) (e : event).

Lemma wf_cand_event (cand : candidate) :
  dt_valid cand.2 → tzinfo cand.2 = Some 0 → hour cand.2 ≤ 21 →
  wf_event (cand_event cand).
Proof. by unfold wf_event, cand_event. Qed.

Lemma store_wf_insert m (i : nat) e :
  store_wf m → wf_event e → store_wf (<[i := e]> m).
Proof.
  intros Hwf He j e'. rewrite lookup_insert. case_decide; [|by apply Hwf].
  by intros [= <-].
Qed.

Lemma ids_below_insert m n e : ids_below n m → ids_below (S n) (<[n := e]> m).
Proof.
  intros Hb j e'. rewrite lookup_insert. case_decide; [lia|].
  intros Hj%Hb. lia.
Qed.

Lemma ids_below_update m n (i : nat) e e' :
  ids_below n m → m !! i = Some e → ids_below n (<[i := e']> m).
Proof.
  intros Hb Hi j e''. rewrite lookup_insert. case_decide; [|by apply Hb].
  subst. intros _. by apply (Hb _ _ Hi).
Qed.

Lemma ids_below_fresh m n : ids_below n m → m !! n = None.
Proof.
  intros Hb. destruct (m !! n) eqn:Hn; [|done]. apply Hb in Hn. lia.
Qed.

Lemma dedup_insert_new m (i : nat) e :
  dedup m → m !! i = None → key_free m (event_key e) → dedup (<[i := e]> m).
Proof.
  intros Hdd Hi Hfree j k e1 e2. rewrite !lookup_insert.
  destruct (decide (i = j)) as [<-|Hij], (decide (i = k)) as [<-|Hik]; try done.
  - intros [= <-] Hk Heq. by destruct (Hfree k e2 Hk).
  - intros Hj [= <-] Heq. by destruct (Hfree j e1 Hj).
  - apply Hdd.
Qed.

Lemma dedup_update m (i : nat) e e' :
  dedup m → m !! i = Some e → event_key e' = event_key e → dedup (<[i := e']> m).
Proof.
  intros Hdd Hi Hkey j k e1 e2. rewrite !lookup_insert.
  destruct (decide (i = j)) as [<-|Hij], (decide (i = k)) as [<-|Hik]; try done.
  - intros [= <-] Hk Heq. apply (Hdd i k e e2); congruence.
  - intros Hj [= <-] Heq. apply (Hdd j i e1 e); congruence.
  - apply Hdd.
Qed.

Lemma key_free_insert m (i : nat) e (k : string * Z) :
  key_free m k → event_key e ≠ k → key_free (<[i := e]> m) k.
Proof.
  intros Hfree Hne j e'. rewrite lookup_insert. case_decide; [|by apply Hfree].
  by intros [= <-].
Qed.

End store_invariants.

(** ** One pass *)

Section passes.

Implicit Types (m : gmap nat event) (n : nat) (wf : list bool)
  (lg : list log_entry) (now : datetime) (c : counts)
  (l : list (race * string)).

Lemma foldM_app {A B} (f : B → A → M B) (b : B) (l1 l2 : list A) (w : world) :
  foldM f b (l1 ++ l2) w
  = match foldM f b l1 w with
    | (Ok b', w') => foldM f b' l2 w'
    | (Raise e, w') => (Raise e, w')
    end.
Proof.
  revert b w. induction l1 as [|x l1 IH]; intros b w; simpl; [done|].
  unfold bind. destruct (f b x w) as [[b'|e] w']; [apply IH|done].
Qed.

Lemma foldM_map {A A' B} (g : A' → A) (f : B → A → M B) (b : B)
    (l : list A') (w : world) :
  foldM f b (map g l) w = foldM (λ b x, f b (g x)) b l w.
Proof.
  revert b w. induction l as [|x l IH]; intros b w; simpl; [done|].
  unfold bind. destruct (f b (g x) w) as [[b'|e] w']; [apply IH|done].
Qed.

(** The nested loops visit the sessions of the feed in order. *)
Lemma sync_loop_flat now (races : list race) c (w : world) :
  foldM (sync_race now) c races w = foldM (visit now) c (feed_sessions races) w.
Proof.
  revert c w. induction races as [|r races IH]; intros c w; [done|].
  change (feed_sessions (r :: races))
    with (map (λ st, (r, st)) session_types ++ feed_sessions races).
  rewrite foldM_app, foldM_map.
  change (foldM (sync_race now) c (r :: races) w)
    with (bind (sync_race now c r) (λ c', foldM (sync_race now) c' races) w).
  unfold bind, sync_race.
  change (λ b x, visit now b (r, x)) with (sync_session r now).
  destruct (foldM _ c session_types w) as [[c'|e] w']; [apply IH|done].
Qed.

Lemma drop_S_tl {A} (k : nat) (xs : list A) :
  list.drop (S k) xs = list.drop k (tl xs).
Proof. destruct xs; simpl; [by destruct k|done]. Qed.

Lemma tally_zero c : tally c 0 0 0 0 = c.
Proof. destruct c. unfold tally. simpl. f_equal; lia. Qed.

(** The loop body on one session, by its verdict. *)
Lemma visit_cases now c (r : race) (st : string) (w : world) :
  match classify r now st with
  | Skipped => visit now c (r, st) w = (Ok c, w)
  | Invalid => ∃ d t, visit now c (r, st) w
                      = (Ok (bump_invalid c), add_log (LogParseWarning d t) w)
  | Past => visit now c (r, st) w = (Ok (bump_past c), w)
  | Future dt => visit now c (r, st) w = reconcile_session r st dt c w
  | Incomparable => visit now c (r, st) w = (Raise TypeError, w)
  end.
Proof.
  unfold visit, classify. simpl. rewrite sync_session_run.
  destruct (session_times r st) as [[d t]|]; [|done].
  destruct (parsed d t) as [dt|]; [|by exists d, t].
  destruct (Datetime.lt dt now) as [[]|e] eqn:Hlt; try done.
  by rewrite (lt_raises _ _ _ Hlt).
Qed.

Lemma pending_cons now (r : race) (st : string) l :
  flat_map (pending_of now) ((r, st) :: l)
  = match classify r now st with
    | Future dt => (r, st, dt) :: flat_map (pending_of now) l
    | _ => flat_map (pending_of now) l
    end.
Proof. simpl. unfold pending_of at 1. simpl. by destruct (classify r now st). Qed.

Lemma count_sessions_cons (f : verdict → bool) now (r : race) (st : string) l :
  count_sessions f now ((r, st) :: l)
  = ((if f (classify r now st) then 1 else 0) + count_sessions f now l)%nat.
Proof. unfold count_sessions. simpl. by destruct (f _). Qed.

(** A pass over sessions whose candidates are all new creates them, in
    order, each unless its write fails. *)
Lemma first_pass_flat now l : ∀ c m n wf lg,
  (∀ rs, rs ∈ l → classify rs.1 now rs.2 ≠ Incomparable) →
  Forall cand_ok (flat_map (pending_of now) l) →
  NoDup (map cand_key (flat_map (pending_of now) l)) →
  store_wf m →
  (∀ cand, cand ∈ flat_map (pending_of now) l → key_free m (cand_key cand)) →
  ∃ lg',
    foldM (visit now) c l (mkWorld m n [] (http_faults wf) lg)
    = (Ok (tally c (create_all m n wf (flat_map (pending_of now) l)).2 0
                 (count_sessions is_past now l) (count_sessions is_invalid now l)),
       mkWorld (create_all m n wf (flat_map (pending_of now) l)).1.1
               (create_all m n wf (flat_map (pending_of now) l)).1.2
               [] (http_faults (list.drop (length (flat_map (pending_of now) l)) wf)) lg').
Proof.
  induction l as [|[r st] l IH]; intros c m n wf lg Hcmp Hok Hnd Hwf Hfree.
  { exists lg. simpl. unfold ret. by rewrite tally_zero. }
  assert (Hcmp' : ∀ rs, rs ∈ l → classify rs.1 now rs.2 ≠ Incomparable).
  { intros rs Hrs. apply Hcmp. by right. }
  specialize (Hcmp (r, st) ltac:(left)). simpl in Hcmp.
  rewrite pending_cons in Hok, Hnd, Hfree |- *.
  rewrite !count_sessions_cons.
  simpl foldM. unfold bind.
  pose proof (visit_cases now c r st (mkWorld m n [] (http_faults wf) lg)) as Hvisit.
  destruct (classify r now st) as [| | |dt|] eqn:Hc; [..|done].
  - rewrite Hvisit. destruct (IH c m n wf lg) as [lg' ->]; try done.
    by exists lg'.
  - destruct Hvisit as (d & t & ->).
    destruct (IH (bump_invalid c) m n wf (lg ++ [LogParseWarning d t]))
      as [lg' Heq]; try done.
    exists lg'. unfold add_log. simpl. rewrite Heq.
    do 2 f_equal. unfold tally, bump_invalid. simpl. f_equal; lia.
  - rewrite Hvisit. destruct (IH (bump_past c) m n wf lg) as [lg' Heq]; try done.
    exists lg'. rewrite Heq.
    do 2 f_equal. unfold tally, bump_past. simpl. f_equal; lia.
  - rewrite Hvisit.
    apply Forall_cons in Hok as [(Hv & Htz & Hh) Hok].
    simpl in Hnd. apply NoDup_cons in Hnd as [Hnotin Hnd].
    destruct (reconcile_new r st dt c m n wf lg Hv Htz Hh Hwf) as [lg1 ->].
    { apply Hfree. left. }
    simpl create_all. simpl length. rewrite drop_S_tl.
    destruct (hd false wf).
    + destruct (IH c m n (tl wf) lg1) as [lg' Heq]; try done.
      { intros cand Hin. apply Hfree. by right. }
      by exists lg'.
    + destruct (IH (bump_added c) (<[n := cand_event (r, st, dt)]> m) (S n)
                  (tl wf) lg1) as [lg' Heq]; try done.
      { by apply store_wf_insert, wf_cand_event. }
      { intros cand Hin. apply key_free_insert.
        - apply Hfree. by right.
        - intros Heq. apply Hnotin.
          change (event_key _) with (cand_key (r, st, dt)) in Heq.
          rewrite Heq. apply list_elem_of_fmap. by exists cand. }
      exists lg'. rewrite Heq.
      destruct (create_all _ _ _ _) as [[m' n'] a]. simpl.
      do 2 f_equal. unfold tally, bump_added. simpl. f_equal; lia.
Qed.

End passes.

Section passes_again.

Implicit Types (m : gmap nat event) (n : nat) (wf : list bool)
  (lg : list log_entry) (now : datetime) (c : counts)
  (l : list (race * string)) (cs : list candidate).

(** A pass over sessions whose candidates all have their event replaces
    each event by itself: counts move to [updated], the store stays. *)
Lemma second_pass_flat now l : ∀ c m n lg,
  (∀ rs, rs ∈ l → classify rs.1 now rs.2 ≠ Incomparable) →
  Forall cand_ok (flat_map (pending_of now) l) →
  store_wf m → dedup m →
  (∀ cand, cand ∈ flat_map (pending_of now) l →
           ∃ i, m !! i = Some (cand_event cand)) →
  ∃ lg',
    foldM (visit now) c l (mkWorld m n [] [] lg)
    = (Ok (tally c 0 (length (flat_map (pending_of now) l))
                 (count_sessions is_past now l) (count_sessions is_invalid now l)),
       mkWorld m n [] [] lg').
Proof.
  induction l as [|[r st] l IH]; intros c m n lg Hcmp Hok Hwf Hdd Hhas.
  { exists lg. simpl. unfold ret. by rewrite tally_zero. }
  assert (Hcmp' : ∀ rs, rs ∈ l → classify rs.1 now rs.2 ≠ Incomparable).
  { intros rs Hrs. apply Hcmp. by right. }
  specialize (Hcmp (r, st) ltac:(left)). simpl in Hcmp.
  rewrite pending_cons in Hok, Hhas |- *.
  rewrite !count_sessions_cons.
  simpl foldM. unfold bind.
  pose proof (visit_cases now c r st (mkWorld m n [] [] lg)) as Hvisit.
  destruct (classify r now st) as [| | |dt|] eqn:Hc; [..|done].
  - rewrite Hvisit. destruct (IH c m n lg) as [lg' ->]; try done.
    by exists lg'.
  - destruct Hvisit as (d & t & ->).
    destruct (IH (bump_invalid c) m n (lg ++ [LogParseWarning d t]))
      as [lg' Heq]; try done.
    exists lg'. unfold add_log. simpl. rewrite Heq.
    do 2 f_equal. unfold tally, bump_invalid. simpl. f_equal; lia.
  - rewrite Hvisit. destruct (IH (bump_past c) m n lg) as [lg' Heq]; try done.
    exists lg'. rewrite Heq.
    do 2 f_equal. unfold tally, bump_past. simpl. f_equal; lia.
  - rewrite Hvisit.
    apply Forall_cons in Hok as [(Hv & Htz & Hh) Hok].
    destruct (Hhas (r, st, dt) ltac:(left)) as [i Hi].
    destruct (reconcile_existing r st dt c m n [] lg i _ Hv Htz Hh Hwf Hdd Hi eq_refl)
      as [lg1 Hrec].
    change (http_faults []) with (@nil (option exn)) in Hrec. rewrite Hrec.
    simpl hd. cbv iota. simpl tl.
    change (http_faults []) with (@nil (option exn)).
    rewrite (insert_id m i _ Hi).
    destruct (IH (bump_updated c) m n lg1) as [lg' Heq]; try done.
    { intros cand Hin. apply Hhas. by right. }
    exists lg'. rewrite Heq. simpl length.
    do 2 f_equal. unfold tally, bump_updated. simpl. f_equal; lia.
Qed.

Lemma nth_S_tl (k : nat) wf : nth (S k) wf false = nth k (tl wf) false.
Proof. destruct wf; simpl; [by destruct k|done]. Qed.

Lemma hd_nth wf : hd false wf = nth 0 wf false.
Proof. by destruct wf. Qed.

(** What [create_all] leaves: the invariants, the old events, one event
    per candidate whose write succeeded, and nothing else. *)
Lemma create_all_spec cs : ∀ m n wf,
  store_wf m → dedup m → ids_below n m →
  Forall cand_ok cs → NoDup (map cand_key cs) →
  (∀ cand, cand ∈ cs → key_free m (cand_key cand)) →
  let out := create_all m n wf cs in
  store_wf out.1.1 ∧ dedup out.1.1 ∧ ids_below out.1.2 out.1.1
  ∧ (∀ i e, m !! i = Some e → out.1.1 !! i = Some e)
  ∧ (∀ k cand, cs !! k = Some cand → nth k wf false = false →
               ∃ i, out.1.1 !! i = Some (cand_event cand))
  ∧ (∀ i e, out.1.1 !! i = Some e →
            m !! i = Some e
            ∨ ∃ k cand, cs !! k = Some cand ∧ nth k wf false = false
                        ∧ e = cand_event cand).
Proof.
  induction cs as [|cand cs IH]; intros m n wf Hwf Hdd Hids Hok Hnd Hfree.
  { simpl. split_and!; try done. intros i e Hi. by left. }
  apply Forall_cons in Hok as [(Hv & Htz & Hh) Hok].
  simpl in Hnd. apply NoDup_cons in Hnd as [Hnotin Hnd].
  assert (Hfree' : ∀ cand', cand' ∈ cs → key_free m (cand_key cand')).
  { intros cand' Hin. apply Hfree. by right. }
  simpl create_all. rewrite hd_nth. destruct (nth 0 wf false) eqn:H0.
  - destruct (IH m n (tl wf) Hwf Hdd Hids Hok Hnd Hfree')
      as (Hwf' & Hdd' & Hids' & Hold & Hnew & Honly).
    cbn zeta. split_and!; try done.
    + intros [|k] cand' Hk Hnth; simpl in Hk.
      * congruence.
      * rewrite nth_S_tl in Hnth. by apply (Hnew k).
    + intros i e Hi. destruct (Honly i e Hi) as [?|(k & cand' & Hk & Hnth & ->)];
        [by left|right].
      exists (S k), cand'. by rewrite nth_S_tl.
  - set (m1 := <[n := cand_event cand]> m).
    assert (Hm1 : ∀ i e, m !! i = Some e → m1 !! i = Some e).
    { intros i e Hi. unfold m1. rewrite lookup_insert_ne; [done|].
      apply Hids in Hi. lia. }
    destruct (IH m1 (S n) (tl wf)) as (Hwf' & Hdd' & Hids' & Hold & Hnew & Honly);
      try done.
    { by apply store_wf_insert, wf_cand_event. }
    { apply dedup_insert_new; [done|by apply ids_below_fresh|].
      apply Hfree. left. }
    { by apply ids_below_insert. }
    { intros cand' Hin. apply key_free_insert; [by apply Hfree'|].
      intros Heq. apply Hnotin. change (event_key _) with (cand_key cand) in Heq.
      rewrite Heq. apply list_elem_of_fmap. by exists cand'. }
    fold m1. destruct (create_all m1 (S n) (tl wf) cs) as [[m' n'] a] eqn:Hca.
    simpl in *. split_and!; try done.
    + intros i e Hi. by apply Hold, Hm1.
    + intros [|k] cand' Hk Hnth; simpl in Hk.
      * injection Hk as <-. exists n. apply Hold. unfold m1.
        by rewrite lookup_insert_eq.
      * rewrite nth_S_tl in Hnth. by apply (Hnew k).
    + intros i e Hi. destruct (Honly i e Hi) as [Hi1|(k & cand' & Hk & Hnth & ->)].
      * unfold m1 in Hi1. rewrite lookup_insert in Hi1. case_decide.
        -- injection Hi1 as <-. right. by exists 0%nat, cand.
        -- by left.
      * right. exists (S k), cand'. by rewrite nth_S_tl.
Qed.

Lemma create_all_count cs : ∀ m n,
  (create_all m n [] cs).2 = length cs.
Proof.
  induction cs as [|cand cs IH]; intros m n; [done|]. simpl.
  specialize (IH (<[n := cand_event cand]> m) (S n)).
  destruct (create_all _ _ _ _) as [[m' n'] a]. simpl in *. by rewrite IH.
Qed.

End passes_again.

(** ** From the feed to its candidates *)

Section feed_level.

Implicit Types (races : list race) (now : datetime) (l : list (race * string))
  (cand : candidate).

Lemma parsed_valid (d t : string) (dt : datetime) :
  parsed d t = Some dt → dt_valid dt.
Proof.
  unfold parsed, fromisoformat, Datetime.new, dt_valid.
  repeat case_match; try done; intros [= <-]; simplify_eq; done.
Qed.

Lemma classify_future now (r : race) (st : string) (dt : datetime) :
  classify r now st = Future dt →
  ∃ d t, session_times r st = Some (d, t) ∧ parsed d t = Some dt
         ∧ Datetime.lt dt now = Ok false.
Proof.
  unfold classify. destruct (session_times r st) as [[d t]|]; [|done].
  destruct (parsed d t) as [dt'|] eqn:Hp; [|done].
  destruct (Datetime.lt dt' now) as [[]|] eqn:Hlt; try done.
  intros [= <-]. by exists d, t.
Qed.

Lemma session_utc_future now (r : race) (st : string) (dt : datetime) :
  session_utc (r, st) = true → classify r now st = Future dt →
  dt_valid dt ∧ tzinfo dt = Some 0.
Proof.
  intros Hutc (d & t & Hs & Hp & _)%classify_future.
  unfold session_utc in Hutc. simpl in Hutc. rewrite Hs, Hp in Hutc.
  split; [by eapply parsed_valid|]. by apply bool_decide_eq_true in Hutc.
Qed.

Lemma session_utc_comparable now (r : race) (st : string) :
  aware now = true → session_utc (r, st) = true →
  classify r now st ≠ Incomparable.
Proof.
  intros Hnow Hutc. unfold classify, session_utc in *. simpl in Hutc.
  destruct (session_times r st) as [[d t]|]; [|done].
  destruct (parsed d t) as [dt|]; [|done].
  apply bool_decide_eq_true in Hutc.
  unfold Datetime.lt, aware in *. rewrite Hutc.
  destruct (tzinfo now); [|done]. by destruct (_ <? _).
Qed.

Lemma feed_utc_elem races (rs : race * string) :
  feed_utc races = true → rs ∈ feed_sessions races → session_utc rs = true.
Proof.
  unfold feed_utc. rewrite forallb_forall. intros Hall Hin.
  by apply Hall, list_elem_of_In.
Qed.

Lemma pending_flat_elem now l cand :
  cand ∈ flat_map (pending_of now) l →
  ∃ r st dt, cand = (r, st, dt) ∧ (r, st) ∈ l ∧ classify r now st = Future dt.
Proof.
  rewrite list_elem_of_In, in_flat_map. intros ([r st] & Hin & Hp).
  unfold pending_of in Hp. simpl in Hp.
  destruct (classify r now st) as [| | |dt|] eqn:Hc; try done.
  destruct Hp as [<-|[]]. exists r, st, dt. by rewrite list_elem_of_In.
Qed.

Lemma feed_comparable races now :
  aware now = true → feed_utc races = true →
  ∀ rs, rs ∈ feed_sessions races → classify rs.1 now rs.2 ≠ Incomparable.
Proof.
  intros Hnow Hutc [r st] Hin. apply session_utc_comparable; [done|].
  by apply (feed_utc_elem races).
Qed.

Lemma pending_cand_ok races now :
  feed_utc races = true → hours_ok races now = true →
  Forall cand_ok (pending races now).
Proof.
  intros Hutc Hh. apply Forall_forall. intros cand Hin.
  unfold hours_ok in Hh. rewrite forallb_forall in Hh.
  pose proof (Hh cand ltac:(by apply list_elem_of_In)) as Hhour.
  apply Z.leb_le in Hhour.
  apply pending_flat_elem in Hin as (r & st & dt & -> & Hin & Hc).
  destruct (session_utc_future now r st dt) as [Hv Htz]; [|done|done].
  by apply (feed_utc_elem races).
Qed.

Lemma closing_shape (c : counts) (m : gmap nat event) (n : nat)
    (lf wf : list (option exn)) (lg : list log_entry) :
  ∃ lg', closing c (mkWorld m n lf wf lg) = mkWorld m n lf wf lg'.
Proof. unfold closing, add_log. repeat case_match; by eexists. Qed.

Lemma store_wf_empty : store_wf ∅.
Proof. intros i e. by rewrite lookup_empty. Qed.
Lemma dedup_empty : dedup ∅.
Proof. intros i j e1 e2. by rewrite lookup_empty. Qed.
Lemma ids_below_empty (n : nat) : ids_below n ∅.
Proof. intros i e. by rewrite lookup_empty. Qed.
Lemma key_free_empty (k : string * Z) : key_free ∅ k.
Proof. intros i e. by rewrite lookup_empty. Qed.

End feed_level.

(** ** Two passes *)

(** A pass whose loop ends normally reports the counts of the loop. *)
Lemma sync_f1_schedule_loop (races : list race) (now : datetime)
    (m m' : gmap nat event) (n n' : nat) (lf lf' wf wf' : list (option exn))
    (lg lg1 : list log_entry) (c : counts) :
  races ≠ [] →
  foldM (visit now) counts0 (feed_sessions races)
        (mkWorld m n lf wf (lg ++ [LogStarting; LogProcessing (length races)]))
  = (Ok c, mkWorld m' n' lf' wf' lg1) →
  ∃ lg', sync_f1_schedule races now (mkWorld m n lf wf lg)
         = (Ok tt, mkWorld m' n' lf' wf' lg')
         ∧ report_of lg'
           = Some (length races, added_count c, updated_count c,
                   past_count c, invalid_date_count c).
Proof.
  intros Hne Hloop. rewrite sync_f1_schedule_run by done. rewrite sync_loop_flat.
  assert (loop_start races (mkWorld m n lf wf lg)
          = mkWorld m n lf wf (lg ++ [LogStarting; LogProcessing (length races)]))
    as -> by (unfold loop_start, add_log; simpl; by rewrite <- app_assoc).
  rewrite Hloop. unfold add_log. simpl.
  set (lg2 := lg1 ++ [LogSummary (length races) (added_count c) (updated_count c)
                        (past_count c) (invalid_date_count c)]).
  destruct (closing_shape c m' n' lf' wf' lg2) as [lg' Hcl].
  pose proof (report_of_closing c (mkWorld m' n' lf' wf' lg2)) as Hrep.
  rewrite Hcl in Hrep |- *. simpl in Hrep. unfold lg2 in Hrep.
  rewrite report_of_snoc in Hrep. by exists lg'.
Qed.

(** The first pass from a store without the candidates' keys, with the
    outcome of each write given by the flags. *)
Lemma first_pass (races : list race) (now : datetime)
    (m0 : gmap nat event) (n0 : nat) (wf : list bool) (lg : list log_entry) :
  races ≠ [] → aware now = true → feed_utc races = true →
  hours_ok races now = true →
  NoDup (map cand_key (pending races now)) →
  store_wf m0 →
  (∀ cand, cand ∈ pending races now → key_free m0 (cand_key cand)) →
  ∃ lg' p i,
    sync_f1_schedule races now (mkWorld m0 n0 [] (http_faults wf) lg)
    = (Ok tt, mkWorld (create_all m0 n0 wf (pending races now)).1.1
                      (create_all m0 n0 wf (pending races now)).1.2
                      [] (http_faults (list.drop (length (pending races now)) wf))
                      lg')
    ∧ report_of lg'
      = Some (length races, (create_all m0 n0 wf (pending races now)).2,
              0%nat, p, i).
Proof.
  intros Hne Hnow Hutc Hh Hnd Hwf Hfree.
  destruct (first_pass_flat now (feed_sessions races) counts0 m0 n0 wf
              (lg ++ [LogStarting; LogProcessing (length races)]))
    as [lg1 Hrun]; try done.
  { by apply feed_comparable. }
  { by apply pending_cand_ok. }
  destruct (sync_f1_schedule_loop _ _ _ _ _ _ _ _ _ _ _ _ _ Hne Hrun)
    as (lg' & Hsync & Hrep).
  exists lg'. eexists _, _. split; [exact Hsync|]. by rewrite Hrep.
Qed.

(** A pass over a store that holds the event of every candidate. *)
Lemma second_pass (races : list race) (now : datetime)
    (m : gmap nat event) (n : nat) (lg : list log_entry) :
  races ≠ [] → aware now = true → feed_utc races = true →
  hours_ok races now = true →
  store_wf m → dedup m →
  (∀ cand, cand ∈ pending races now → ∃ i, m !! i = Some (cand_event cand)) →
  ∃ lg' p i,
    sync_f1_schedule races now (mkWorld m n [] [] lg)
    = (Ok tt, mkWorld m n [] [] lg')
    ∧ report_of lg'
      = Some (length races, 0%nat, length (pending races now), p, i).
Proof.
  intros Hne Hnow Hutc Hh Hwf Hdd Hhas.
  destruct (second_pass_flat now (feed_sessions races) counts0 m n
              (lg ++ [LogStarting; LogProcessing (length races)]))
    as [lg1 Hrun]; try done.
  { by apply feed_comparable. }
  { by apply pending_cand_ok. }
  destruct (sync_f1_schedule_loop _ _ _ _ _ _ _ _ _ _ _ _ _ Hne Hrun)
    as (lg' & Hsync & Hrep).
  exists lg'. eexists _, _. split; [exact Hsync|]. by rewrite Hrep.
Qed.

(** C1 (as amended).  For a non-empty feed whose session times that
    parse all carry the UTC offset, read at two aware clock instants
    that give the same N eligible candidates, with pairwise distinct
    title/day keys and start hours up to 21; for a store whose events
    all have the shape the reconciliation writes (UTC start with hour up
    to 21, end two hours later), with at most one event per title and
    day, none with the key of a candidate, and identifiers below the
    next one handed out; and with no failing remote call: the first pass
    reports added = N and updated = 0 and leaves the event of every
    candidate; the second pass reports added = 0 and updated = N and
    leaves the store as it found it. *)
Theorem C1_second_pass_changes_nothing (races : list race) (now now2 : datetime)
    (m0 : gmap nat event) (n0 : nat) (lg : list log_entry) :
  races ≠ [] → aware now = true → aware now2 = true →
  feed_utc races = true → hours_ok races now = true →
  pending races now2 = pending races now →
  NoDup (map cand_key (pending races now)) →
  store_wf m0 → dedup m0 → ids_below n0 m0 →
  (∀ cand, cand ∈ pending races now → key_free m0 (cand_key cand)) →
  ∃ w1 w2 p1 i1 p2 i2,
    sync_f1_schedule races now (mkWorld m0 n0 [] [] lg) = (Ok tt, w1)
    ∧ report_of (log w1)
      = Some (length races, length (pending races now), 0%nat, p1, i1)
    ∧ (∀ cand, cand ∈ pending races now →
               ∃ i, events w1 !! i = Some (cand_event cand))
    ∧ sync_f1_schedule races now2 w1 = (Ok tt, w2)
    ∧ report_of (log w2)
      = Some (length races, 0%nat, length (pending races now), p2, i2)
    ∧ events w2 = events w1.
Proof.
  intros Hne Hnow Hnow2 Hutc Hh Hsame Hnd Hwf Hdd Hids Hfree.
  destruct (first_pass races now m0 n0 [] lg) as (lg1 & p1 & i1 & Hrun1 & Hrep1);
    try done.
  destruct (create_all_spec (pending races now) m0 n0 [])
    as (Hwf1 & Hdd1 & Hids1 & Hold & Hnew & Honly); try done.
  { by apply pending_cand_ok. }
  rewrite create_all_count in Hrep1. rewrite drop_nil in Hrun1.
  set (m1 := (create_all m0 n0 [] (pending races now)).1.1) in *.
  set (n1 := (create_all m0 n0 [] (pending races now)).1.2) in *.
  assert (Hhas : ∀ cand, cand ∈ pending races now →
                         ∃ i, m1 !! i = Some (cand_event cand)).
  { intros cand [k Hk]%list_elem_of_lookup. apply (Hnew k); [done|].
    by destruct k. }
  destruct (second_pass races now2 m1 n1 lg1) as (lg2 & p2 & i2 & Hrun2 & Hrep2);
    try done.
  { unfold hours_ok. by rewrite Hsame. }
  { by rewrite Hsame. }
  rewrite Hsame in Hrep2.
  eexists _, _, p1, i1, p2, i2. split; [exact Hrun1|]. split; [exact Hrep1|].
  split; [exact Hhas|]. split; [exact Hrun2|]. by split.
Qed.

Lemma C1_second_pass_changes_nothing_witness :
  ∃ w1 w2 p1 i1 p2 i2,
    sync_f1_schedule [melbourne] now_feb world0 = (Ok tt, w1)
    ∧ report_of (log w1) = Some (1, 2, 0, p1, i1)%nat
    ∧ (∀ cand, cand ∈ pending [melbourne] now_feb →
               ∃ i, events w1 !! i = Some (cand_event cand))
    ∧ sync_f1_schedule [melbourne] (utc 2025 2 2 0 0 0) w1 = (Ok tt, w2)
    ∧ report_of (log w2) = Some (1, 0, 2, p2, i2)%nat
    ∧ events w2 = events w1.
Proof.
  refine (C1_second_pass_changes_nothing [melbourne] now_feb (utc 2025 2 2 0 0 0)
            ∅ 0 [] _ _ _ _ _ _ _ store_wf_empty dedup_empty
            (ids_below_empty 0) (λ cand _, key_free_empty _)).
  - discriminate.
  - reflexivity.
  - reflexivity.
  - vm_compute. reflexivity.
  - vm_compute. reflexivity.
  - vm_compute. reflexivity.
  - apply (@bool_decide_unpack _ (NoDup_dec _)). vm_compute. exact I.
Defined.

(** C1, as stated, fails: with a race listed twice the four eligible
    candidates of the first pass give added = 2 and updated = 2. *)
Lemma C1_counterexample :
  length (pending [melbourne; melbourne] now_feb) = 4%nat
  ∧ (sync_f1_schedule [melbourne; melbourne] now_feb world0).1 = Ok tt
  ∧ report_of (log (sync_f1_schedule [melbourne; melbourne] now_feb world0).2)
    = Some (2, 2, 2, 0, 0)%nat.
Proof. repeat split; vm_compute; reflexivity. Qed.

(** ** The dedup invariant *)

Section dedup_invariant.

Implicit Types (m : gmap nat event) (n : nat) (w : world) (now : datetime).

Lemma lookup_none_free (title : string) m (dt : datetime) :
  store_wf m → dt_valid dt → tzinfo dt = Some 0 →
  find_title title (list_items m (day_start dt) (day_end dt)) = None →
  key_free m (title, utc_day dt).
Proof.
  intros Hwf Hv Htz Hnone i e Hi [= Ht Hday].
  refine (find_title_None _ _ i e Hnone _ Ht).
  apply elem_of_list_items. split; [done|].
  by apply in_window_same_day; [..|apply (Hwf _ _ Hi)|].
Qed.

Lemma pass_inv_log w (e : log_entry) : pass_inv w → pass_inv (add_log e w).
Proof. by unfold pass_inv, add_log. Qed.

Lemma reconcile_session_inv (r : race) (st : string) (dt : datetime)
    (c : counts) w :
  dt_valid dt → tzinfo dt = Some 0 → pass_inv w →
  pass_inv (reconcile_session r st dt c w).2.
Proof.
  intros Hv Htz (Hwf & Hdd & Hids & Hlf). destruct w as [m n lf wf lg].
  simpl in *. subst lf.
  destruct (Z.le_gt_cases (hour dt) 21) as [Hh|Hh].
  - rewrite reconcile_session_any by (done || by unfold aware; rewrite Htz).
    cbn zeta. simpl hd. simpl tl. cbv iota. simpl caught. cbv iota.
    destruct (uncaught (hd None wf)); [done|].
    destruct (caught (hd None wf)); [done|].
    destruct (find_title _ _) as [[i e]|] eqn:Hf.
    + apply lookup_found in Hf as [Hi Hk]; [|done..]. rewrite Hi.
      split_and!; simpl; try done.
      * by apply store_wf_insert, (wf_cand_event (r, st, dt)).
      * by apply (dedup_update m i e).
      * by apply (ids_below_update m n i e).
    + apply lookup_none_free in Hf; [|done..].
      split_and!; simpl; try done.
      * by apply store_wf_insert, (wf_cand_event (r, st, dt)).
      * apply dedup_insert_new; [done|by apply ids_below_fresh|done].
      * by apply ids_below_insert.
  - destruct (reconcile_session_late r st dt c m n [] wf lg Hv ltac:(lia))
      as [lg' Hlate].
    change (http_faults _) with (@nil (option exn)) in Hlate. rewrite Hlate.
    by split_and!.
Qed.

Lemma visit_inv now (c : counts) (rs : race * string) w :
  session_utc rs = true → pass_inv w → pass_inv (visit now c rs w).2.
Proof.
  destruct rs as [r st]. intros Hutc Hinv.
  pose proof (visit_cases now c r st w) as Hvisit.
  destruct (classify r now st) as [| | |dt|] eqn:Hc.
  - by rewrite Hvisit.
  - destruct Hvisit as (d & t & ->). by apply pass_inv_log.
  - by rewrite Hvisit.
  - rewrite Hvisit.
    destruct (session_utc_future now r st dt Hutc Hc) as [Hv Htz].
    by apply reconcile_session_inv.
  - by rewrite Hvisit.
Qed.

Lemma loop_inv now (l : list (race * string)) : ∀ (c : counts) w,
  (∀ rs, rs ∈ l → session_utc rs = true) → pass_inv w →
  pass_inv (foldM (visit now) c l w).2.
Proof.
  induction l as [|rs l IH]; intros c w Hutc Hinv; [done|].
  simpl. unfold bind.
  pose proof (visit_inv now c rs w (Hutc rs ltac:(left)) Hinv) as Hstep.
  destruct (visit now c rs w) as [[c'|e] w']; [|done].
  apply IH; [|done]. intros rs' Hin. apply Hutc. by right.
Qed.

Lemma pass_inv_closing (c : counts) w : pass_inv w → pass_inv (closing c w).
Proof.
  unfold pass_inv. destruct (events_closing c w) as (-> & -> & -> & _). done.
Qed.

(** One pass keeps the invariant, however it ends. *)
Lemma sync_f1_schedule_inv (races : list race) now w :
  feed_utc races = true → pass_inv w → pass_inv (sync_f1_schedule races now w).2.
Proof.
  intros Hutc Hinv. destruct races as [|r races].
  { rewrite sync_f1_schedule_no_races. by do 2 apply pass_inv_log. }
  rewrite sync_f1_schedule_run by done. rewrite sync_loop_flat.
  pose proof (loop_inv now (feed_sessions (r :: races)) counts0
                (loop_start (r :: races) w)
                (λ rs, feed_utc_elem _ rs Hutc)
                ltac:(by do 2 apply pass_inv_log)) as Hloop.
  destruct (foldM _ _ _ _) as [[c|e] w1]; [|done].
  by apply pass_inv_closing, pass_inv_log.
Qed.

Lemma run_passes_inv (ps : list (list race * datetime)) : ∀ w,
  (∀ p, p ∈ ps → feed_utc p.1 = true) → pass_inv w →
  pass_inv (run_passes ps w).
Proof.
  induction ps as [|p ps IH]; intros w Hutc Hinv; [done|].
  unfold run_passes. simpl. apply IH.
  - intros p' Hin. apply Hutc. by right.
  - apply sync_f1_schedule_inv; [|done]. apply Hutc. left.
Qed.

End dedup_invariant.

(** C2 (as amended).  When no lookup fails and the feed times carry the
    UTC designator, every sequence of passes keeps the invariant: from a
    store with at most one event per title and calendar day, whose events
    have the shape the reconciliation writes (an empty store, or one
    pre-seeded with such an event), the store reached has at most one
    event per title and calendar day, whatever the writes and however a
    pass ends. *)
Theorem C2_dedup_invariant (ps : list (list race * datetime)) (w : world) :
  (∀ p, p ∈ ps → feed_utc p.1 = true) →
  store_wf (events w) → dedup (events w) → ids_below (next_id w) (events w) →
  lookup_faults w = [] →
  dedup (events (run_passes ps w))
  ∧ ∀ i j e1 e2, events (run_passes ps w) !! i = Some e1 →
                 events (run_passes ps w) !! j = Some e2 →
                 summary e1 = summary e2 →
                 utc_day (ev_start e1) = utc_day (ev_start e2) → i = j.
Proof.
  intros Hutc Hwf Hdd Hids Hlf.
  destruct (run_passes_inv ps w Hutc) as (_ & Hdd' & _); [done|].
  split; [done|]. intros i j e1 e2 Hi Hj Hs Hd.
  apply (Hdd' i j e1 e2 Hi Hj). unfold event_key. by rewrite Hs, Hd.
Qed.

Lemma seeded_world_inv :
  store_wf (events seeded_world) ∧ dedup (events seeded_world)
  ∧ ids_below (next_id seeded_world) (events seeded_world).
Proof.
  unfold seeded_world. simpl. split_and!.
  - intros i e [<- <-]%lookup_singleton_Some. by split_and!.
  - intros i j e1 e2 [<- _]%lookup_singleton_Some [<- _]%lookup_singleton_Some.
    done.
  - intros i e [<- _]%lookup_singleton_Some. lia.
Qed.

Lemma C2_dedup_invariant_witness :
  dedup (events (run_passes [([melbourne], now_feb); ([melbourne], now_feb)]
                            seeded_world)).
Proof.
  refine (proj1 (C2_dedup_invariant
                   [([melbourne], now_feb); ([melbourne], now_feb)] seeded_world
                   _ (proj1 seeded_world_inv) (proj1 (proj2 seeded_world_inv))
                   (proj2 (proj2 seeded_world_inv)) eq_refl)).
  intros p Hin. apply list_elem_of_In in Hin.
  destruct Hin as [<-|[<-|[]]]; vm_compute; reflexivity.
Defined.

(** C2, as stated, fails: a lookup that fails is taken for "no event",
    and the pass creates a second event with the title of the seeded one
    on the same day. *)
Lemma C2_counterexample :
  let w := mkWorld {[ 0%nat := seeded_event ]} 1
                   [Some HttpError; Some HttpError] [] [] in
  let w' := (sync_f1_schedule [melbourne_race_only] now_feb w).2 in
  ∃ e1 e2, events w' !! 0%nat = Some e1 ∧ events w' !! 1%nat = Some e2
           ∧ summary e1 = summary e2
           ∧ utc_day (ev_start e1) = utc_day (ev_start e2).
Proof. do 2 eexists. repeat split; vm_compute; reflexivity. Qed.

(** ** Failing remote calls *)

Section partial_failure.

Implicit Types (m : gmap nat event) (n : nat) (wf : list bool)
  (cs : list candidate).

Lemma create_all_count_none cs : ∀ m n wf,
  (∀ j, nth j wf false = false) → (create_all m n wf cs).2 = length cs.
Proof.
  induction cs as [|cand cs IH]; intros m n wf Hnone; [done|]. simpl.
  rewrite hd_nth, (Hnone 0%nat).
  specialize (IH (<[n := cand_event cand]> m) (S n) (tl wf)
                 (λ j, eq_trans (eq_sym (nth_S_tl j wf)) (Hnone (S j)))).
  destruct (create_all _ _ _ _) as [[m' n'] a]. simpl in *. by rewrite IH.
Qed.

(** With exactly one failing write, all candidates but one are created. *)
Lemma create_all_count_one cs : ∀ m n wf (k : nat),
  (k < length cs)%nat → nth k wf false = true →
  (∀ j, j ≠ k → nth j wf false = false) →
  (create_all m n wf cs).2 = (length cs - 1)%nat.
Proof.
  induction cs as [|cand cs IH]; intros m n wf k Hk Hfail Hothers.
  { simpl in Hk. lia. }
  simpl create_all. rewrite hd_nth. destruct k as [|k].
  - rewrite Hfail. rewrite create_all_count_none; [simpl; lia|].
    intros j. rewrite <- nth_S_tl. by apply Hothers.
  - rewrite (Hothers 0%nat) by done.
    specialize (IH (<[n := cand_event cand]> m) (S n) (tl wf) k).
    destruct (create_all _ _ _ _) as [[m' n'] a]. simpl in *.
    rewrite IH; [lia|lia|by rewrite <- nth_S_tl|].
    intros j Hj. rewrite <- nth_S_tl. apply Hothers. lia.
Qed.

(** A write that raises something else than [HttpError] ends the loop
    at the first eligible candidate. *)
Lemma loop_write_raises (now : datetime) (l : list (race * string)) :
  ∀ (c : counts) m n (wo : list (option exn)) (lg : list log_entry) (e : exn),
  (∀ rs, rs ∈ l → classify rs.1 now rs.2 ≠ Incomparable) →
  Forall cand_ok (flat_map (pending_of now) l) →
  flat_map (pending_of now) l ≠ [] → e ≠ HttpError →
  ∃ lg', foldM (visit now) c l (mkWorld m n [] (Some e :: wo) lg)
         = (Raise e, mkWorld m n [] wo lg').
Proof.
  induction l as [|[r st] l IH]; intros c m n wo lg e Hcmp Hok Hne He; [done|].
  assert (Hcmp' : ∀ rs, rs ∈ l → classify rs.1 now rs.2 ≠ Incomparable).
  { intros rs Hrs. apply Hcmp. by right. }
  specialize (Hcmp (r, st) ltac:(left)). simpl in Hcmp.
  rewrite pending_cons in Hok, Hne.
  simpl foldM. unfold bind.
  pose proof (visit_cases now c r st (mkWorld m n [] (Some e :: wo) lg))
    as Hvisit.
  destruct (classify r now st) as [| | |dt|] eqn:Hc; [..|done].
  - rewrite Hvisit. by apply IH.
  - destruct Hvisit as (d & t & ->). unfold add_log. simpl. by apply IH.
  - rewrite Hvisit. by apply IH.
  - rewrite Hvisit. apply Forall_cons in Hok as [(Hv & Htz & Hh) _].
    simpl in Hv, Htz, Hh.
    rewrite reconcile_session_any by (done || by unfold aware; rewrite Htz).
    cbn zeta. simpl. destruct e; try done; by eexists.
Qed.

End partial_failure.

(** C4 (as amended).  A write that fails with [HttpError] for a
    candidate increments neither count, does not end the pass and leaves
    the store as it was.  A lookup that fails with [HttpError] answers
    "no event"; a candidate is looked up twice, the first answer decides
    which count moves when the write succeeds and the second whether the
    write replaces the event seen or creates one.  A lookup or a write
    that raises anything else is not caught and ends the handling of the
    candidate in that exception; so does the pass, at its first eligible
    candidate, when its first write raises such an exception.  When the
    write fails with [HttpError] for exactly one of the eligible
    candidates of a pass over new candidates (three, for instance), the
    pass reports added = N - 1 and updated = 0; the store holds no event
    with the key of the failing candidate and holds the event of every
    other candidate. *)
Theorem C4_write_failure_is_skipped :
  (∀ (r : race) (st : string) (dt : datetime) (c : counts) m n
     (lf wf : list bool) lg,
     dt_valid dt → aware dt = true → hour dt ≤ 21 → hd false wf = true →
     ∃ lg', reconcile_session r st dt c
              (mkWorld m n (http_faults lf) (http_faults wf) lg)
            = (Ok c, mkWorld m n (http_faults (tl (tl lf)))
                             (http_faults (tl wf)) lg'))
  ∧ (∀ (r : race) (st : string) (dt : datetime) (c : counts) m n
       (f1 f2 : bool) (lf wf : list bool) lg,
       dt_valid dt → aware dt = true → hour dt ≤ 21 → hd false wf = false →
       let hit := find_title (format_session_title r st)
                             (list_items m (day_start dt) (day_end dt)) in
       let seen1 := if f1 then None else hit in
       let seen2 := if f2 then None else hit in
       ∃ lg', reconcile_session r st dt c
                (mkWorld m n (http_faults (f1 :: f2 :: lf)) (http_faults wf) lg)
              = (Ok (if seen1 is Some _ then bump_updated c else bump_added c),
                 mkWorld (<[(if seen2 is Some (i, _) then i else n)
                            := cand_event (r, st, dt)]> m)
                         (if seen2 is Some _ then n else S n)
                         (http_faults lf) (http_faults (tl wf)) lg'))
  ∧ (∀ (r : race) (st : string) (dt : datetime) (c : counts) m n
       (lf : list bool) (lo wo : list (option exn)) lg (e : exn),
       dt_valid dt → aware dt = true → hour dt ≤ 21 → e ≠ HttpError →
       reconcile_session r st dt c (mkWorld m n (Some e :: lo) wo lg)
       = (Raise e, mkWorld m n lo wo lg)
       ∧ (∀ f1 : bool,
            ∃ lg', reconcile_session r st dt c
                     (mkWorld m n (http_faults [f1] ++ Some e :: lo) wo lg)
                   = (Raise e, mkWorld m n lo wo lg'))
       ∧ ∃ lg', reconcile_session r st dt c
                  (mkWorld m n (http_faults lf) (Some e :: wo) lg)
                = (Raise e, mkWorld m n (http_faults (tl (tl lf))) wo lg'))
  ∧ (∀ (races : list race) (now : datetime) m0 n0 (wf : list bool) lg (k : nat)
       (failing : candidate),
       races ≠ [] → aware now = true → feed_utc races = true →
       hours_ok races now = true →
       NoDup (map cand_key (pending races now)) →
       store_wf m0 → dedup m0 → ids_below n0 m0 →
       (∀ cand, cand ∈ pending races now → key_free m0 (cand_key cand)) →
       pending races now !! k = Some failing →
       nth k wf false = true → (∀ j, j ≠ k → nth j wf false = false) →
       ∃ w1 p i,
         sync_f1_schedule races now (mkWorld m0 n0 [] (http_faults wf) lg)
         = (Ok tt, w1)
         ∧ report_of (log w1)
           = Some (length races, (length (pending races now) - 1)%nat, 0%nat, p, i)
         ∧ key_free (events w1) (cand_key failing)
         ∧ (∀ j cand, j ≠ k → pending races now !! j = Some cand →
                      ∃ i, events w1 !! i = Some (cand_event cand)))
  ∧ (∀ (races : list race) (now : datetime) m n (wo : list (option exn)) lg
       (e : exn),
       races ≠ [] → aware now = true → feed_utc races = true →
       hours_ok races now = true → pending races now ≠ [] → e ≠ HttpError →
       ∃ lg', sync_f1_schedule races now (mkWorld m n [] (Some e :: wo) lg)
              = (Raise e, mkWorld m n [] wo lg')).
Proof.
  split_and!.
  - intros r st dt c m n lf wf lg Hv Ha Hh Hfail.
    rewrite reconcile_session_run by done. cbn zeta. rewrite Hfail.
    by eexists.
  - intros r st dt c m n f1 f2 lf wf lg Hv Ha Hh Hok.
    rewrite reconcile_session_run by done. cbn zeta. simpl hd. simpl tl.
    rewrite Hok.
    destruct (find_title _ _) as [[i e]|] eqn:Hhit.
    + apply find_title_Some in Hhit as [[Hm _]%elem_of_list_items _].
      destruct f1, f2; rewrite ?Hm; by eexists.
    + destruct f1, f2; by eexists.
  - intros r st dt c m n lf lo wo lg e Hv Ha Hh He. split_and!.
    + rewrite reconcile_session_any by done. cbn zeta. simpl hd.
      by destruct e.
    + intros f1. rewrite reconcile_session_any by done. cbn zeta.
      destruct f1, e; try done; by eexists.
    + rewrite reconcile_session_any by done. cbn zeta. simpl hd.
      rewrite !tl_http_faults, !uncaught_http_faults.
      destruct e; try done; by eexists.
  - intros races now m0 n0 wf lg k failing Hne Hnow Hutc Hh Hnd Hwf Hdd Hids
      Hfree Hk Hfail Hothers.
    destruct (first_pass races now m0 n0 wf lg) as (lg1 & p & i & Hrun & Hrep);
      try done.
    destruct (create_all_spec (pending races now) m0 n0 wf)
      as (_ & _ & _ & Hold & Hnew & Honly); try done.
    { by apply pending_cand_ok. }
    rewrite (create_all_count_one _ _ _ _ k) in Hrep;
      [|by eapply lookup_lt_Some|done|done].
    eexists _, p, i. split; [exact Hrun|]. split; [exact Hrep|]. simpl. split.
    + intros id e He Hkey.
      destruct (Honly id e He) as [Hin|(j & cand & Hj & Hnth & ->)].
      * refine (Hfree failing _ id e Hin Hkey).
        by eapply list_elem_of_lookup_2.
      * change (event_key (cand_event cand)) with (cand_key cand) in Hkey.
        assert (j = k) as ->; [|congruence].
        eapply NoDup_lookup; [exact Hnd| |].
        -- rewrite list_lookup_fmap, Hj. simpl. by rewrite Hkey.
        -- by rewrite list_lookup_fmap, Hk.
    + intros j cand Hjk Hj. apply (Hnew j); [done|]. by apply Hothers.
  - intros races now m n wo lg e Hne Hnow Hutc Hh Hpend He.
    rewrite sync_f1_schedule_run by done. rewrite sync_loop_flat.
    unfold loop_start, add_log. simpl.
    destruct (loop_write_raises now (feed_sessions races) counts0 m n wo
                ((lg ++ [LogStarting]) ++ [LogProcessing (length races)]) e)
      as [lg' ->]; try done.
    + by apply feed_comparable.
    + by apply pending_cand_ok.
    + by exists lg'.
Qed.

Lemma C4_write_failure_is_skipped_witness :
  ∃ w1 p i,
    sync_f1_schedule [melbourne; imola] now_feb
                     (mkWorld ∅ 0 [] [None; Some HttpError; None] []) = (Ok tt, w1)
    ∧ report_of (log w1) = Some (2, 2, 0, p, i)%nat
    ∧ key_free (events w1)
               (cand_key (melbourne, "qualy", utc 2025 3 15 5 0 0)).
Proof.
  destruct (proj1 (proj2 (proj2 (proj2 C4_write_failure_is_skipped)))
              [melbourne; imola] now_feb ∅ 0%nat [false; true; false] [] 1%nat
              (melbourne, "qualy", utc 2025 3 15 5 0 0))
    as (w1 & p & i & Hrun & Hrep & Hfree & _).
  - discriminate.
  - reflexivity.
  - vm_compute. reflexivity.
  - vm_compute. reflexivity.
  - apply (@bool_decide_unpack _ (NoDup_dec _)). vm_compute. exact I.
  - apply store_wf_empty.
  - apply dedup_empty.
  - apply ids_below_empty.
  - intros cand _. apply key_free_empty.
  - vm_compute. reflexivity.
  - reflexivity.
  - intros [|[|[|j]]] Hj; try done; by destruct j.
  - exists w1, p, i. split; [exact Hrun|]. split; [exact Hrep|exact Hfree].
Defined.

(** C4, as stated, fails.  When both lookups of a candidate fail with
    [HttpError] and its write succeeds, the candidate is counted as
    added; and a write that fails with another exception ends the pass
    before the remaining candidates. *)
Lemma C4_counterexample :
  report_of (log (sync_f1_schedule [imola] now_feb
                    (mkWorld ∅ 0 [Some HttpError; Some HttpError] [] [])).2)
  = Some (1, 1, 0, 0, 0)%nat
  ∧ length (pending [melbourne; imola] now_feb) = 3%nat
  ∧ (sync_f1_schedule [melbourne; imola] now_feb
       (mkWorld ∅ 0 [] [Some TransportError] [])).1 = Raise TransportError
  ∧ events (sync_f1_schedule [melbourne; imola] now_feb
              (mkWorld ∅ 0 [] [Some TransportError] [])).2 = ∅.
Proof. repeat split; vm_compute; reflexivity. Qed.

(** * Further properties of the code *)

(** ** What a pass can do to the store *)

Section store_effects.

Implicit Types (m : gmap nat event) (n : nat) (w : world) (dt : datetime)
  (title : string).

Lemma tl_subseteq {A} (l : list A) : tl l ⊆ l.
Proof. destruct l; [done|]. intros x Hx. by right. Qed.

Lemma hd_elem_of {A} (l : list (option A)) (x : A) :
  hd None l = Some x → Some x ∈ l.
Proof. destruct l as [|y l]; [done|]. simpl. intros ->. left. Qed.

Lemma later_refl w : later w w.
Proof. by split. Qed.

Lemma later_trans w1 w2 w3 : later w1 w2 → later w2 w3 → later w1 w3.
Proof. intros [? ?] [? ?]. split; by etrans. Qed.

Lemma later_same w w' :
  lookup_faults w' = lookup_faults w → write_faults w' = write_faults w →
  later w w'.
Proof. intros Hl Hw. unfold later. by rewrite Hl, Hw. Qed.

Lemma remote_failure_later (e : exn) w w' :
  later w w' → remote_failure e w' → remote_failure e w.
Proof. intros [Hl Hw] [He [Hin|Hin]]; (split; [done|]); [left|right]; auto. Qed.

(** [find_existing_event] on any start and any store: it never raises
    [HttpError], never writes, and what it finds is an event of the
    store with exactly the title asked for. *)
Lemma find_existing_event_cases title dt w :
  ∃ out w', find_existing_event title dt w = (out, w')
    ∧ events w' = events w ∧ next_id w' = next_id w
    ∧ write_faults w' = write_faults w
    ∧ (lookup_faults w' = lookup_faults w ∨ lookup_faults w' = tl (lookup_faults w))
    ∧ (out = Raise ValueError ∨ out = Ok None
       ∨ (∃ e, out = Raise e ∧ e ≠ HttpError
               ∧ hd None (lookup_faults w) = Some e)
       ∨ ∃ i e, out = Ok (Some (i, e)) ∧ events w !! i = Some e ∧ summary e = title
                ∧ in_window (day_start dt) (day_end dt) (i, e) = true).
Proof.
  destruct w as [m n lf wf lg].
  unfold find_existing_event, try_except, bind at 1, lift.
  unfold replace_hms, Datetime.new.
  destruct (fields_ok _ _ _ 0 0 0 _).
  2:{ eexists _, _. split; [done|]. simpl. split_and!; auto. }
  unfold bind at 1.
  destruct (fields_ok _ _ _ 23 59 59 _).
  2:{ eexists _, _. split; [done|]. simpl. split_and!; auto. }
  fold (day_start dt) (day_end dt).
  unfold bind, events_list, bind, lookup_call, ret, raise, logger, add_log.
  cbn -[list_items find_title day_start day_end].
  destruct (hd None lf) as [e|] eqn:Hhd.
  { destruct e; eexists _, _; (split; [done|]); simpl; split_and!; auto;
      right; right; left; by eexists. }
  simpl.
  destruct (aware (day_start dt) && aware (day_end dt))%bool.
  2:{ eexists _, _. split; [done|]. simpl. split_and!; auto. }
  eexists _, _. split; [done|]. simpl. split_and!; auto.
  destruct (find_title _ _) as [[i e]|] eqn:Hf; [|auto].
  apply find_title_Some in Hf as [[Hi Hw]%elem_of_list_items Ht].
  right. right. right. by exists i, e.
Qed.

End store_effects.

Section store_effects_2.

Implicit Types (m : gmap nat event) (n : nat) (w : world) (dt : datetime)
  (title : string).

Lemma replace_hour_result dt (x : datetime) :
  replace_hour dt (hour dt + 2) = Ok x → x = plus_two_hours dt ∧ hour dt ≤ 21.
Proof.
  unfold replace_hour, Datetime.new.
  destruct (fields_ok _ _ _ _ _ _ _) eqn:Hf; [|done].
  intros [= <-]. split; [done|]. apply fields_ok_spec in Hf. lia.
Qed.

Lemma replace_hour_raises dt (e : exn) :
  replace_hour dt (hour dt + 2) = Raise e → e = ValueError.
Proof. unfold replace_hour, Datetime.new. by case_match; intros [= <-]. Qed.

(** The outcome is the exception of a lookup, or of a write. *)
Ltac lookup_raised :=
  right; left; eexists; split; [done|]; split; [|done]; split; [done|];
  left; by apply hd_elem_of.
Ltac write_raised :=
  right; left; eexists; split; [done|]; split; [|done]; split; [done|];
  right; by apply hd_elem_of.
Ltac later_by_tl := split; [done|apply tl_subseteq].

(** [add_or_update_event] on any arguments and any state: it ends in a
    value, in [ValueError] or in what a remote call raised besides
    [HttpError], and it does one of three things to the store. *)
Lemma add_or_update_event_cases title dt (desc loc : string) w :
  ∃ out w', add_or_update_event title dt desc loc w = (out, w')
    ∧ touched title (body_of title dt desc loc) w w'
    ∧ (lookup_faults w = [] → lookup_faults w' = [])
    ∧ later w w'
    ∧ (out = Raise ValueError ∧ events w' = events w
       ∨ (∃ e, out = Raise e ∧ remote_failure e w ∧ events w' = events w)
       ∨ out = Ok None ∧ events w' = events w
       ∨ ∃ i, out = Ok (Some i)
              ∧ events w' !! i = Some (body_of title dt desc loc)
              ∧ hour dt ≤ 21).
Proof.
  unfold add_or_update_event, try_except, bind at 1.
  destruct (find_existing_event_cases title dt w)
    as (out & w1 & -> & He & Hn & Hwf & Hlf & Hout).
  assert (Hlf' : lookup_faults w = [] → lookup_faults w1 = []).
  { intros H0. destruct Hlf as [->| ->]; by rewrite H0. }
  assert (Hsub : lookup_faults w1 ⊆ lookup_faults w).
  { destruct Hlf as [->| ->]; [done|apply tl_subseteq]. }
  destruct w as [m n lf wf lg], w1 as [m1 n1 lf1 wf1 lg1]. simpl in *. subst.
  destruct Hout as [->|[->|[(e & -> & Hne & Hhd)|(i & e & -> & Hi & Ht & Hw)]]].
  - eexists _, _. split; [done|]. split; [by left|]. split; [done|].
    split; [by split|]. by left.
  - unfold bind at 1, lift.
    destruct (replace_hour dt (hour dt + 2)) as [x|err] eqn:Hr.
    2:{ apply replace_hour_raises in Hr as ->.
        eexists _, _. split; [done|]. split; [by left|]. split; [done|].
        split; [by split|]. by left. }
    apply replace_hour_result in Hr as (-> & Hh).
    unfold bind, events_insert, bind, write_call, ret, logger, add_log.
    cbn -[list_items find_title].
    destruct (hd None wf) as [e|] eqn:Hw.
    + destruct e; simpl; eexists _, _; (split; [done|]); (split; [by left|]);
        (split; [done|]); (split; [later_by_tl|]);
        first [by right; right; left | write_raised].
    + eexists _, _. split; [done|]. simpl. split; [right; right; done|].
      split; [done|]. split; [split; [done|apply tl_subseteq]|].
      right. right. right. exists n. by rewrite lookup_insert_eq.
  - destruct e; try done;
      eexists _, _; (split; [done|]); (split; [by left|]); (split; [done|]);
      (split; [by split|]); lookup_raised.
  - unfold bind at 1, lift.
    destruct (replace_hour dt (hour dt + 2)) as [x|err] eqn:Hr.
    2:{ apply replace_hour_raises in Hr as ->.
        eexists _, _. split; [done|]. split; [by left|]. split; [done|].
        split; [by split|]. by left. }
    apply replace_hour_result in Hr as (-> & Hh).
    unfold bind, events_update, bind, write_call, ret, logger, add_log.
    cbn -[list_items find_title].
    destruct (hd None wf) as [e0|] eqn:Hw0.
    + destruct e0; simpl; eexists _, _; (split; [done|]); (split; [by left|]);
        (split; [done|]); (split; [later_by_tl|]);
        first [by right; right; left | write_raised].
    + simpl. rewrite Hi.
      eexists _, _. split; [done|]. simpl. split.
      { right. left. by exists i, e. }
      split; [done|]. split; [split; [done|apply tl_subseteq]|].
      right. right. right. exists i. by rewrite lookup_insert_eq.
Qed.

End store_effects_2.

Section preservation.

Implicit Types (w : world) (T : string → Prop) (now : datetime).

Lemma preserves_same T w w' :
  events w' = events w → next_id w' = next_id w → preserves T w w'.
Proof. intros He Hn Hids. rewrite He, Hn. by split_and!. Qed.

Lemma preserves_trans T w1 w2 w3 :
  preserves T w1 w2 → preserves T w2 w3 → preserves T w1 w3.
Proof.
  intros H12 H23 Hids. destruct (H12 Hids) as (Hids2 & Hn2 & Hs2 & Hf2).
  destruct (H23 Hids2) as (Hids3 & Hn3 & Hs3 & Hf3).
  split_and!; [done|lia|by auto|].
  intros i e Hi HT. apply Hf3; [by apply Hf2|done].
Qed.

Lemma touched_preserves T (title : string) (body : event) w w' :
  T title → touched title body w w' → preserves T w w'.
Proof.
  intros HT [[He Hn]|[(i & e0 & Hi & Ht & He & Hn)|[He Hn]]] Hids.
  - rewrite He, Hn. by split_and!.
  - rewrite He, Hn. split_and!; [by eapply ids_below_update|done| |].
    + intros j Hj. rewrite lookup_insert. by case_decide.
    + intros j e Hj Hne. rewrite lookup_insert_ne; [done|].
      intros <-. apply Hne. rewrite Hj in Hi. injection Hi as ->. by rewrite Ht.
  - rewrite He, Hn. split_and!; [by apply ids_below_insert|lia| |].
    + intros j Hj. rewrite lookup_insert. by case_decide.
    + intros j e Hj Hne. rewrite lookup_insert_ne; [done|].
      apply Hids in Hj. lia.
Qed.

(** One candidate: how it can end, what it does to the counters and to
    the store. *)
Lemma reconcile_session_cases T (r : race) (st : string) (dt : datetime)
    (c : counts) w :
  T (format_session_title r st) →
  ∃ out w', reconcile_session r st dt c w = (out, w')
    ∧ preserves T w w'
    ∧ (lookup_faults w = [] → lookup_faults w' = [])
    ∧ later w w'
    ∧ (out = Raise ValueError ∨ (∃ e, out = Raise e ∧ remote_failure e w)
       ∨ out = Ok c ∨ out = Ok (bump_added c) ∨ out = Ok (bump_updated c)).
Proof.
  intros HT. unfold reconcile_session, bind at 1.
  destruct (find_existing_event_cases (format_session_title r st) dt w)
    as (out1 & w1 & -> & He & Hn & Hwf & Hlf & Hout).
  assert (Hlf' : lookup_faults w = [] → lookup_faults w1 = []).
  { intros H0. destruct Hlf as [->| ->]; by rewrite H0. }
  assert (Hl1 : later w w1).
  { split; [|by rewrite Hwf]. destruct Hlf as [->| ->]; [done|apply tl_subseteq]. }
  assert (H01 : preserves T w w1) by by apply preserves_same.
  destruct out1 as [found|err].
  2:{ destruct Hout as [[= ->]|[?|[(e & [= ->] & Hne & Hhd)|(? & ? & ? & _)]]];
        try done.
      - eexists _, _. split; [done|]. split; [done|]. split; [done|].
        split; [done|]. by left.
      - eexists _, _. split; [done|]. split; [done|]. split; [done|].
        split; [done|]. right. left. exists e. split; [done|].
        split; [done|]. left. by apply hd_elem_of. }
  unfold bind.
  destruct (add_or_update_event_cases (format_session_title r st) dt
              (format_session_description r st) (race_location r) w1)
    as (out2 & w2 & -> & Htouch & Hlf2 & Hl2 & Hout2).
  assert (H02 : preserves T w w2).
  { eapply preserves_trans; [done|]. by eapply touched_preserves. }
  assert (Hl02 : later w w2) by by eapply later_trans.
  destruct Hout2 as [[-> _]|[(e & -> & Hrem & _)|[[-> _]|(i & -> & _)]]].
  - eexists _, _. split; [done|]. split; [done|]. split; [by auto|].
    split; [done|]. by left.
  - eexists _, _. split; [done|]. split; [done|]. split; [by auto|].
    split; [done|]. right. left. exists e. split; [done|].
    exact (remote_failure_later e w w1 Hl1 Hrem).
  - eexists _, _. split; [done|]. split; [done|]. split; [by auto|].
    split; [done|]. right. right. by left.
  - destruct (bool_decide (found ≠ None)).
    + eexists _, _. split; [done|]. split; [done|]. split; [by auto|].
      split; [done|]. right. right. right. by right.
    + eexists _, _. split; [done|]. split; [done|]. split; [by auto|].
      split; [done|]. right. right. right. by left.
Qed.

Lemma visit_preserves T now (c : counts) (r : race) (st : string) w :
  T (format_session_title r st) → preserves T w (visit now c (r, st) w).2.
Proof.
  intros HT. pose proof (visit_cases now c r st w) as Hvisit.
  destruct (classify r now st) as [| | |dt|].
  - rewrite Hvisit. by apply preserves_same.
  - destruct Hvisit as (d & t & ->). by apply preserves_same.
  - rewrite Hvisit. by apply preserves_same.
  - rewrite Hvisit.
    destruct (reconcile_session_cases T r st dt c w HT) as (out & w' & -> & H & _).
    done.
  - rewrite Hvisit. by apply preserves_same.
Qed.

Lemma loop_preserves T now (l : list (race * string)) : ∀ (c : counts) w,
  (∀ rs, rs ∈ l → T (format_session_title rs.1 rs.2)) →
  preserves T w (foldM (visit now) c l w).2.
Proof.
  induction l as [|[r st] l IH]; intros c w HT; [by apply preserves_same|].
  simpl. unfold bind.
  pose proof (visit_preserves T now c r st w (HT (r, st) ltac:(left))) as Hstep.
  destruct (visit now c (r, st) w) as [[c'|e] w1]; [|done].
  eapply preserves_trans; [done|]. apply IH. intros rs Hin. apply HT. by right.
Qed.

Lemma feed_sessions_elem (races : list race) (r : race) (st : string) :
  (r, st) ∈ feed_sessions races → r ∈ races ∧ st ∈ session_types.
Proof.
  unfold feed_sessions. rewrite list_elem_of_In, in_flat_map.
  intros (r' & Hr & Hin). apply in_map_iff in Hin as (st' & [= <- <-] & Hst).
  by rewrite !list_elem_of_In.
Qed.

Lemma sync_f1_schedule_preserves (races : list race) now w :
  preserves (feed_title races) w (sync_f1_schedule races now w).2.
Proof.
  destruct races as [|r0 races].
  { rewrite sync_f1_schedule_no_races. by apply preserves_same. }
  rewrite sync_f1_schedule_run by done. rewrite sync_loop_flat.
  pose proof (loop_preserves (feed_title (r0 :: races)) now
                (feed_sessions (r0 :: races)) counts0
                (loop_start (r0 :: races) w)) as Hloop.
  assert (Hstart : preserves (feed_title (r0 :: races)) w
                     (loop_start (r0 :: races) w)) by by apply preserves_same.
  destruct (foldM _ _ _ _) as [[c|e] w1].
  - eapply preserves_trans; [done|]. eapply preserves_trans.
    + apply Hloop. intros [r st] [Hr Hst]%feed_sessions_elem. by exists r, st.
    + destruct (events_closing c
                  (add_log (LogSummary (length (r0 :: races)) (added_count c)
                              (updated_count c) (past_count c)
                              (invalid_date_count c)) w1)) as (He & Hn & _).
      by apply preserves_same.
  - eapply preserves_trans; [done|].
    apply Hloop. intros [r st] [Hr Hst]%feed_sessions_elem. by exists r, st.
Qed.

End preservation.

(** X1.  A pass never deletes an event and never changes an event whose
    title is not the title of a session of the feed, whatever the remote
    failures and however the pass ends. *)
Theorem pass_keeps_foreign_events (races : list race) (now : datetime) (w : world) :
  ids_below (next_id w) (events w) →
  (∀ i, is_Some (events w !! i) →
        is_Some (events (sync_f1_schedule races now w).2 !! i))
  ∧ (∀ i e, events w !! i = Some e → ¬ feed_title races (summary e) →
            events (sync_f1_schedule races now w).2 !! i = Some e)
  ∧ ids_below (next_id (sync_f1_schedule races now w).2)
              (events (sync_f1_schedule races now w).2).
Proof.
  intros Hids.
  destruct (sync_f1_schedule_preserves races now w Hids) as (Hids' & _ & Hs & Hf).
  by split_and!.
Qed.

Lemma pass_keeps_foreign_events_witness :
  events (sync_f1_schedule [imola] now_feb seeded_world).2 !! 0%nat
  = Some seeded_event.
Proof.
  refine (proj1 (proj2 (pass_keeps_foreign_events [imola] now_feb seeded_world
                          (proj2 (proj2 seeded_world_inv))))
            0%nat seeded_event eq_refl _).
  intros (r & st & Hr & Hst & Heq).
  apply list_elem_of_In in Hr as [<-|[]].
  apply list_elem_of_In in Hst as [<-|[<-|[<-|[<-|[]]]]]; discriminate Heq.
Defined.

Section completion.

Implicit Types (w : world) (now : datetime) (c : counts)
  (l : list (race * string)).

Lemma session_aware_future now (r : race) (st : string) (dt : datetime) :
  session_aware (r, st) = true → classify r now st = Future dt →
  dt_valid dt ∧ aware dt = true.
Proof.
  intros Haw (d & t & Hs & Hp & _)%classify_future.
  unfold session_aware in Haw. simpl in Haw. rewrite Hs, Hp in Haw.
  split; [by eapply parsed_valid|done].
Qed.

Lemma session_aware_comparable now (r : race) (st : string) :
  aware now = true → session_aware (r, st) = true →
  classify r now st ≠ Incomparable.
Proof.
  intros Hnow Haw. unfold classify, session_aware in *. simpl in Haw.
  destruct (session_times r st) as [[d t]|]; [|done].
  destruct (parsed d t) as [dt|]; [|done].
  unfold Datetime.lt, aware in *.
  destruct (tzinfo dt); [|done]. destruct (tzinfo now); [|done].
  by destruct (_ <? _).
Qed.

(** A candidate whose end time can be built ends in a count or in a
    skipped write when its remote calls raise nothing but
    [HttpError]. *)
Lemma reconcile_session_completes (r : race) (st : string) (dt : datetime) c w :
  dt_valid dt → aware dt = true → hour dt ≤ 21 →
  http_only (lookup_faults w) → http_only (write_faults w) →
  ∃ c' w', reconcile_session r st dt c w = (Ok c', w')
    ∧ (c' = c ∨ c' = bump_added c ∨ c' = bump_updated c)
    ∧ (hd None (write_faults w) = None → c' ≠ c)
    ∧ write_faults w' = tl (write_faults w)
    ∧ lookup_faults w' = tl (tl (lookup_faults w)).
Proof.
  intros Hv Ha Hh Hlo Hwo. destruct w as [m n lf wf lg]. simpl in Hlo, Hwo.
  rewrite reconcile_session_any by done. cbn zeta. simpl write_faults.
  simpl lookup_faults.
  rewrite (http_only_hd lf), (http_only_hd (tl lf)), (http_only_hd wf)
    by auto using http_only_tl.
  assert (Hne : bump_added c ≠ c ∧ bump_updated c ≠ c).
  { destruct c. unfold bump_added, bump_updated. simpl.
    split; intros [=]; lia. }
  assert (Hcount : ∀ found : option (nat * event),
             (if found is Some _ then bump_updated c else bump_added c) ≠ c
             ∧ ((if found is Some _ then bump_updated c else bump_added c)
                = bump_added c
                ∨ (if found is Some _ then bump_updated c else bump_added c)
                  = bump_updated c)).
  { intros [?|]; split; try apply Hne; auto. }
  destruct (caught (hd None wf)) eqn:Hwf.
  { eexists _, _. split; [done|]. split_and!; auto.
    intros H0. by rewrite H0 in Hwf. }
  set (found1 := if caught (hd None lf) then None else _).
  destruct (Hcount found1) as [Hn1 Hc1].
  destruct (if caught (hd None (tl lf)) then None else _) as [[i e]|] eqn:Hf2.
  - assert (Hi : m !! i = Some e).
    { destruct (caught (hd None (tl lf))); [done|].
      by apply find_title_Some in Hf2 as [[? _]%elem_of_list_items _]. }
    rewrite Hi. eexists _, _. split; [done|].
    split_and!; auto; destruct Hc1 as [->| ->]; auto.
  - eexists _, _. split; [done|].
    split_and!; auto; destruct Hc1 as [->| ->]; auto.
Qed.

Lemma accounted_refl now c (exact : bool) : accounted now [] exact c c.
Proof. unfold accounted, count_sessions. simpl. split_and!; lia. Qed.

(** With aware times, start hours up to 21 and remote calls that raise
    nothing but [HttpError], the loop always runs to its end, and its
    counters account for every session visited. *)
Lemma loop_completes now l : ∀ c w,
  aware now = true →
  (∀ rs, rs ∈ l → session_aware rs = true) →
  (∀ cand, cand ∈ flat_map (pending_of now) l → hour cand.2 ≤ 21) →
  http_only (lookup_faults w) → http_only (write_faults w) →
  ∃ c' w', foldM (visit now) c l w = (Ok c', w')
    ∧ accounted now l (bool_decide (write_faults w = [])) c c'.
Proof.
  induction l as [|[r st] l IH]; intros c w Hnow Haw Hh Hlo Hwo.
  { eexists _, _. split; [done|]. apply accounted_refl. }
  assert (Haw' : ∀ rs, rs ∈ l → session_aware rs = true).
  { intros rs Hin. apply Haw. by right. }
  pose proof (Haw (r, st) ltac:(left)) as Haw0.
  pose proof (session_aware_comparable now r st Hnow Haw0) as Hcmp.
  rewrite pending_cons in Hh.
  simpl foldM. unfold bind.
  pose proof (visit_cases now c r st w) as Hvisit.
  unfold accounted. rewrite pending_cons, !count_sessions_cons.
  destruct (classify r now st) as [| | |dt|] eqn:Hc; [..|done].
  - rewrite Hvisit. destruct (IH c w) as (c' & w' & -> & Hacc); try done.
    eexists _, _. split; [done|]. exact Hacc.
  - destruct Hvisit as (d & t & ->).
    destruct (IH (bump_invalid c) (add_log (LogParseWarning d t) w))
      as (c' & w' & -> & Hacc); try done.
    eexists _, _. split; [done|].
    unfold accounted, bump_invalid in *. simpl in *.
    destruct Hacc as (? & ? & ? & ? & ? & Hex). split_and!; try lia.
    intros Hb. apply Hex in Hb. lia.
  - rewrite Hvisit.
    destruct (IH (bump_past c) w) as (c' & w' & -> & Hacc); try done.
    eexists _, _. split; [done|].
    unfold accounted, bump_past in *. simpl in *.
    destruct Hacc as (? & ? & ? & ? & ? & Hex). split_and!; try lia.
    intros Hb. apply Hex in Hb. lia.
  - rewrite Hvisit.
    destruct (session_aware_future now r st dt Haw0 Hc) as [Hv Ha].
    destruct (reconcile_session_completes r st dt c w Hv Ha)
      as (c1 & w1 & -> & Hc1 & Hcounted & Hwf1 & Hlf1); try done.
    { apply (Hh (r, st, dt)). left. }
    destruct (IH c1 w1) as (c' & w' & -> & Hacc); try done.
    { intros cand Hin. apply Hh. by right. }
    { rewrite Hlf1. by do 2 apply http_only_tl. }
    { rewrite Hwf1. by apply http_only_tl. }
    eexists _, _. split; [done|].
    unfold accounted in *. simpl length.
    destruct Hacc as (Hp & Hi & Ha1 & Hu1 & Hle & Hex).
    assert (Hfields :
        past_count c1 = past_count c
        ∧ invalid_date_count c1 = invalid_date_count c
        ∧ (added_count c ≤ added_count c1)%nat
        ∧ (updated_count c ≤ updated_count c1)%nat
        ∧ (added_count c1 + updated_count c1
           ≤ added_count c + updated_count c + 1)%nat
        ∧ (c1 ≠ c → (added_count c1 + updated_count c1
                     = added_count c + updated_count c + 1)%nat)).
    { destruct Hc1 as [->|[->| ->]]; unfold bump_added, bump_updated; simpl;
        split_and!; try lia; by intros []. }
    destruct Hfields as (Hp1 & Hi1 & Ha0 & Hu0 & Hle0 & Hex0).
    simpl. split_and!; try lia.
    intros Hb. apply bool_decide_eq_true in Hb.
    assert (write_faults w1 = []) as Hw1 by by rewrite Hwf1, Hb.
    rewrite Hex by by apply bool_decide_eq_true.
    rewrite Hex0; [lia|]. apply Hcounted. by rewrite Hb.
Qed.

End completion.

(** X2.  When the clock and every parsed session time are aware, no
    eligible start hour exceeds 21 and the remote calls raise nothing
    but [HttpError], a pass always runs to its end, whatever the store
    and whichever calls fail.  Its summary counts the past and invalid
    sessions exactly; added plus updated is at most the number of
    eligible candidates, and equals it when no write fails. *)
Theorem pass_completes_and_accounts (races : list race) (now : datetime) (w : world) :
  races ≠ [] → aware now = true → feed_aware races = true →
  hours_ok races now = true →
  http_only (lookup_faults w) → http_only (write_faults w) →
  ∃ w' a u,
    sync_f1_schedule races now w = (Ok tt, w')
    ∧ report_of (log w')
      = Some (length races, a, u,
              count_sessions is_past now (feed_sessions races),
              count_sessions is_invalid now (feed_sessions races))
    ∧ (a + u ≤ length (pending races now))%nat
    ∧ (write_faults w = [] → (a + u = length (pending races now))%nat).
Proof.
  intros Hne Hnow Haw Hh Hlo Hwo.
  rewrite sync_f1_schedule_run by done. rewrite sync_loop_flat.
  destruct (loop_completes now (feed_sessions races) counts0
              (loop_start races w) Hnow) as (c & w1 & -> & Hacc); try done.
  { intros rs Hin. unfold feed_aware in Haw. rewrite forallb_forall in Haw.
    by apply Haw, list_elem_of_In. }
  { intros cand Hin. unfold hours_ok in Hh. rewrite forallb_forall in Hh.
    apply Z.leb_le. by apply Hh, list_elem_of_In. }
  destruct Hacc as (Hp & Hi & _ & _ & Hle & Hex). simpl in *.
  eexists _, (added_count c), (updated_count c). split; [done|].
  rewrite report_of_closing. simpl. rewrite report_of_snoc.
  split; [by rewrite Hp, Hi|]. split; [exact Hle|].
  intros Hwf. apply Hex. apply bool_decide_eq_true. exact Hwf.
Qed.

Lemma pass_completes_and_accounts_witness :
  ∃ w' a u,
    sync_f1_schedule [melbourne] (utc 2025 3 16 0 0 0)
      (mkWorld ∅ 0 [Some HttpError; None] [] []) = (Ok tt, w')
    ∧ report_of (log w') = Some (1, a, u, 1, 0)%nat
    ∧ (a + u = 1)%nat.
Proof.
  destruct (pass_completes_and_accounts [melbourne]
              (utc 2025 3 16 0 0 0)
              (mkWorld ∅ 0 [Some HttpError; None] [] []))
    as (w' & a & u & Hrun & Hrep & _ & Hex).
  - discriminate.
  - reflexivity.
  - vm_compute. reflexivity.
  - vm_compute. reflexivity.
  - exact (http_only_http_faults [true; false]).
  - exact (http_only_http_faults []).
  - exists w', a, u. split; [exact Hrun|]. split; [exact Hrep|].
    exact (Hex eq_refl).
Defined.

Section abort_causes.

Implicit Types (w : world) (now : datetime) (c : counts)
  (l : list (race * string)).

Lemma lt_ok_aware (dt now : datetime) (b : bool) :
  aware now = true → Datetime.lt dt now = Ok b → aware dt = true.
Proof.
  unfold Datetime.lt, aware. destruct (tzinfo dt), (tzinfo now); done.
Qed.

Lemma uncaught_Some (f : option exn) (e : exn) :
  uncaught f = Some e → f = Some e ∧ e ≠ HttpError.
Proof. by destruct f as [[]|]; intros [= <-]. Qed.

(** A candidate whose end time can be built: its handling ends in a
    count, or in what one of its remote calls raised. *)
Lemma reconcile_session_early (r : race) (st : string) (dt : datetime) c w :
  dt_valid dt → aware dt = true → hour dt ≤ 21 →
  ∃ out w', reconcile_session r st dt c w = (out, w') ∧ later w w'
    ∧ ((∃ c', out = Ok c') ∨ ∃ e, out = Raise e ∧ remote_failure e w).
Proof.
  intros Hv Ha Hh. destruct w as [m n lo wo lg].
  rewrite reconcile_session_any by done. cbn zeta.
  assert (Hl2 : tl (tl lo) ⊆ lo) by (etrans; apply tl_subseteq).
  destruct (uncaught (hd None lo)) as [e|] eqn:H1.
  { apply uncaught_Some in H1 as [H1 Hne]. eexists _, _. split; [done|].
    split; [split; [apply tl_subseteq|done]|]. right. exists e.
    split; [done|]. split; [done|]. left. by apply hd_elem_of. }
  destruct (uncaught (hd None (tl lo))) as [e|] eqn:H2.
  { apply uncaught_Some in H2 as [H2 Hne]. eexists _, _. split; [done|].
    split; [by split|]. right. exists e.
    split; [done|]. split; [done|]. left.
    by apply (tl_subseteq lo), hd_elem_of. }
  destruct (uncaught (hd None wo)) as [e|] eqn:H3.
  { apply uncaught_Some in H3 as [H3 Hne]. eexists _, _. split; [done|].
    split; [split; [done|apply tl_subseteq]|]. right. exists e.
    split; [done|]. split; [done|]. right. by apply hd_elem_of. }
  destruct (caught (hd None wo)).
  { eexists _, _. split; [done|]. split; [split; [done|apply tl_subseteq]|].
    left. by eexists. }
  destruct (if caught (hd None (tl lo)) then None else _) as [[i e]|];
    [destruct (m !! i)|];
    eexists _, _; (split; [done|]);
    (split; [split; [done|apply tl_subseteq]|]); left; by eexists.
Qed.

Lemma visit_later now c (rs : race * string) w :
  later w (visit now c rs w).2.
Proof.
  destruct rs as [r st]. pose proof (visit_cases now c r st w) as Hvisit.
  destruct (classify r now st) as [| | |dt|].
  - rewrite Hvisit. apply later_refl.
  - destruct Hvisit as (d & t & ->). by apply later_same.
  - rewrite Hvisit. apply later_refl.
  - rewrite Hvisit.
    by destruct (reconcile_session_cases (λ _, True) r st dt c w I)
      as (out & w' & -> & _ & _ & Hl & _).
  - rewrite Hvisit. apply later_refl.
Qed.

Lemma loop_abort_causes now l : ∀ c w (e : exn) w',
  aware now = true →
  foldM (visit now) c l w = (Raise e, w') →
  (e = TypeError ∧ ∃ r st, (r, st) ∈ l ∧ classify r now st = Incomparable)
  ∨ (e = ValueError
     ∧ ∃ cand, cand ∈ flat_map (pending_of now) l ∧ 22 ≤ hour cand.2)
  ∨ remote_failure e w.
Proof.
  induction l as [|[r st] l IH]; intros c w e w' Hnow Hrun; [done|].
  simpl foldM in Hrun. unfold bind in Hrun.
  pose proof (visit_later now c (r, st) w) as Hl.
  destruct (visit now c (r, st) w) as [[c1|e1] w1] eqn:Hstep.
  { destruct (IH c1 w1 e w' Hnow Hrun) as [(-> & r0 & st0 & Hin & Hc)
                                          |[(-> & cand & Hin & Hh)|Hrem]].
    - left. split; [done|]. exists r0, st0. split; [by right|done].
    - right. left. split; [done|]. exists cand. split; [|done].
      rewrite pending_cons. destruct (classify r now st); try done. by right.
    - right. right. by eapply remote_failure_later. }
  injection Hrun as -> ->.
  pose proof (visit_cases now c r st w) as Hvisit.
  destruct (classify r now st) as [| | |dt|] eqn:Hc.
  - by rewrite Hvisit in Hstep.
  - destruct Hvisit as (d & t & Hv). by rewrite Hv in Hstep.
  - by rewrite Hvisit in Hstep.
  - rewrite Hvisit in Hstep.
    destruct (classify_future now r st dt Hc) as (d & t & Hs & Hp & Hlt).
    pose proof (parsed_valid d t dt Hp) as Hv.
    pose proof (lt_ok_aware dt now false Hnow Hlt) as Ha.
    destruct (Z.le_gt_cases (hour dt) 21) as [Hh|Hh].
    + destruct (reconcile_session_early r st dt c w Hv Ha Hh)
        as (out & w2 & Heq & _ & [[c' ->]|(e' & -> & Hrem)]);
        rewrite Heq in Hstep; [done|].
      injection Hstep as <- _. by right; right.
    + destruct w as [m n lo wo lg].
      destruct (reconcile_session_late_any r st dt c m n lo wo lg Hv ltac:(lia))
        as (e' & lo' & lg' & Heq & Hcause & Hne).
      rewrite Heq in Hstep. injection Hstep as <- _.
      destruct Hcause as [->|[Hhd|Hhd]].
      * right. left. split; [done|].
        exists (r, st, dt). split; [|simpl; lia].
        rewrite pending_cons, Hc. left.
      * right. right. split; [done|]. left. by apply hd_elem_of.
      * right. right. split; [done|]. left.
        by apply (tl_subseteq lo), hd_elem_of.
  - rewrite Hvisit in Hstep. injection Hstep as <- _. left. split; [done|].
    exists r, st. split; [left|done].
Qed.

End abort_causes.

(** X3.  What can end a pass in an exception, for an aware clock:
    [TypeError], when a session time parsed to a naive value meets the
    clock; [ValueError], when an eligible candidate starts at hour 22 or
    23; and whatever a lookup or a write raises that is not an
    [HttpError].  An [HttpError] of a remote call never ends a pass. *)
Theorem pass_abort_causes (races : list race) (now : datetime) (w : world)
    (e : exn) :
  aware now = true →
  (sync_f1_schedule races now w).1 = Raise e →
  e ≠ HttpError
  ∧ ((e = TypeError
      ∧ ∃ r st, (r, st) ∈ feed_sessions races
                ∧ classify r now st = Incomparable)
     ∨ (e = ValueError
        ∧ ∃ cand, cand ∈ pending races now ∧ 22 ≤ hour cand.2)
     ∨ Some e ∈ lookup_faults w ∨ Some e ∈ write_faults w).
Proof.
  intros Hnow Hrun. destruct races as [|r0 races]; [done|].
  rewrite sync_f1_schedule_run in Hrun by done. rewrite sync_loop_flat in Hrun.
  destruct (foldM _ _ _ _) as [[c|e'] w1] eqn:Hloop; [done|].
  simpl in Hrun. injection Hrun as ->.
  destruct (loop_abort_causes now _ _ _ _ _ Hnow Hloop)
    as [[-> H]|[[-> H]|[Hne Hin]]].
  - split; [done|]. by left.
  - split; [done|]. right. by left.
  - split; [done|]. right. right. exact Hin.
Qed.

Lemma pass_abort_causes_witness :
  (∃ cand, cand ∈ pending [austin] now_feb ∧ 22 ≤ hour cand.2)
  ∧ (sync_f1_schedule [melbourne] now_feb
       (mkWorld ∅ 0 [None; Some TransportError] [] [])).1
    = Raise TransportError.
Proof.
  split; [|vm_compute; reflexivity].
  destruct (pass_abort_causes [austin] now_feb world0 ValueError eq_refl)
    as [_ [[Hte _]|[[_ H]|[H|H]]]].
  - vm_compute. reflexivity.
  - discriminate Hte.
  - exact H.
  - by apply elem_of_nil in H.
  - by apply elem_of_nil in H.
Defined.

(** ** Lookups and writes *)

(** X4.  [find_existing_event], on any arguments and any state, never
    writes and never lets [HttpError] out; what it returns is an event of
    the store with exactly the title asked for that ends after the lower
    bound and starts before the upper bound; a lookup failing with
    [HttpError] gives [None], and any other exception of the lookup
    leaves the function. *)
Theorem find_existing_event_sound (title : string) (dt : datetime) (w : world) :
  events (find_existing_event title dt w).2 = events w
  ∧ next_id (find_existing_event title dt w).2 = next_id w
  ∧ (find_existing_event title dt w).1 ≠ Raise HttpError
  ∧ (∀ i e, (find_existing_event title dt w).1 = Ok (Some (i, e)) →
            events w !! i = Some e ∧ summary e = title
            ∧ utc_micros (day_start dt) < utc_micros (ev_end e)
            ∧ utc_micros (ev_start e) < utc_micros (day_end dt))
  ∧ (dt_valid dt → hd None (lookup_faults w) = Some HttpError →
     (find_existing_event title dt w).1 = Ok None)
  ∧ (∀ err, dt_valid dt → err ≠ HttpError →
            hd None (lookup_faults w) = Some err →
            (find_existing_event title dt w).1 = Raise err).
Proof.
  destruct (find_existing_event_cases title dt w)
    as (out & w' & Heq & He & Hn & _ & _ & Hout).
  rewrite Heq. simpl. split_and!; try done.
  - destruct Hout as [->|[->|[(e & -> & Hne & _)|(i & e & -> & _)]]];
      try done. intros [= ?]. by subst.
  - intros i e ->.
    destruct Hout as [?|[?|[(? & ? & _)|(i' & e' & [= <- <-] & Hi & Ht & Hw)]]];
      try done.
    unfold in_window in Hw. simpl in Hw.
    apply andb_true_iff in Hw as [H1%Z.ltb_lt H2%Z.ltb_lt]. done.
  - intros Hv Hf. destruct w as [m n lf wf lg]. simpl in Hf.
    rewrite find_existing_event_any in Heq by done. rewrite Hf in Heq.
    simpl in Heq. by injection Heq as <- _.
  - intros err Hv Hne Hf. destruct w as [m n lf wf lg]. simpl in Hf.
    rewrite find_existing_event_any in Heq by done. rewrite Hf in Heq.
    destruct err; try done; simpl in Heq; by injection Heq as <- _.
Qed.

Section first_match.

#[local] Instance start_le_trans : Transitive start_le.
Proof. intros a b c. unfold start_le. lia. Qed.

#[local] Instance start_le_total : Total start_le.
Proof. intros a b. unfold start_le. lia. Qed.

Lemma find_sorted (f : nat * event → bool) (l : list (nat * event))
    (x y : nat * event) :
  StronglySorted start_le l → List.find f l = Some x → y ∈ l → f y = true →
  start_le x y.
Proof.
  induction 1 as [|a l Hs IH Hall]; [done|]. simpl.
  destruct (f a) eqn:Hfa.
  - intros [= <-] [->|Hin]%elem_of_cons _; [unfold start_le; lia|].
    rewrite Forall_forall in Hall. by apply Hall.
  - intros Hx [->|Hin]%elem_of_cons Hy; [congruence|]. by apply IH.
Qed.

(** X5.  When the lookup succeeds and the store holds an event with the
    title in the window of the day, [find_existing_event] returns an
    event with that title, and of several it returns one that starts
    first. *)
Theorem find_existing_event_earliest (title : string) (dt : datetime)
    (w : world) (j : nat) (e' : event) :
  dt_valid dt → aware dt = true → hd None (lookup_faults w) = None →
  events w !! j = Some e' → summary e' = title →
  in_window (day_start dt) (day_end dt) (j, e') = true →
  ∃ i e, (find_existing_event title dt w).1 = Ok (Some (i, e))
         ∧ events w !! i = Some e ∧ summary e = title
         ∧ utc_micros (ev_start e) ≤ utc_micros (ev_start e').
Proof.
  intros Hv Ha Hlf Hj Ht Hw. destruct w as [m n lf wf lg]. simpl in *.
  rewrite find_existing_event_any by done. rewrite Hlf, Ha. simpl.
  assert (Hin : (j, e') ∈ list_items m (day_start dt) (day_end dt))
    by by apply elem_of_list_items.
  destruct (find_title title _) as [[i e]|] eqn:Hf.
  - exists i, e. split; [done|].
    pose proof Hf as Hf'.
    apply find_title_Some in Hf' as [[Hi _]%elem_of_list_items Hte].
    split_and!; try done.
    refine (find_sorted _ _ (i, e) (j, e') _ Hf Hin _).
    + apply StronglySorted_merge_sort; apply _.
    + simpl. by apply String.eqb_eq.
  - by destruct (find_title_None _ _ j e' Hf Hin).
Qed.

End first_match.

Lemma find_existing_event_earliest_witness :
  ∃ i e, (find_existing_event (summary seeded_event) (utc 2025 3 16 12 0 0)
            twice_world).1 = Ok (Some (i, e))
         ∧ events twice_world !! i = Some e
         ∧ summary e = summary seeded_event
         ∧ utc_micros (ev_start e) ≤ utc_micros (ev_start seeded_event).
Proof.
  refine (find_existing_event_earliest (summary seeded_event)
            (utc 2025 3 16 12 0 0) twice_world 0%nat seeded_event
            _ _ _ _ _ _); vm_compute; reflexivity.
Defined.

(** X6.  For a start whose end time can be built, a lookup that
    succeeds or fails with [HttpError] and a write that succeeds,
    [add_or_update_event] returns an identifier under which the store
    then holds exactly the event built from its arguments, ending two
    hours after the start; every other event is left alone.  Either the
    identifier was in use by an event with the same title, whose fields
    are all overwritten, or it is the next free one. *)
Theorem add_or_update_event_writes (title : string) (dt : datetime)
    (desc loc : string) (w : world) :
  dt_valid dt → aware dt = true → hour dt ≤ 21 →
  hd None (lookup_faults w) = None
  ∨ hd None (lookup_faults w) = Some HttpError →
  hd None (write_faults w) = None →
  ∃ i w',
    add_or_update_event title dt desc loc w = (Ok (Some i), w')
    ∧ events w'
      = <[i := mkEvent title desc loc dt (plus_two_hours dt) "UTC"]> (events w)
    ∧ utc_micros (plus_two_hours dt) = utc_micros dt + 2 * 3600 * 1000000
    ∧ ((∃ old, events w !! i = Some old ∧ summary old = title
               ∧ next_id w' = next_id w)
       ∨ (i = next_id w ∧ next_id w' = S (next_id w))).
Proof.
  intros Hv Ha Hh Hlf Hwf. destruct w as [m n lf wf lg]. simpl in *.
  rewrite add_or_update_event_any by done. cbn zeta. rewrite Hwf.
  assert (uncaught (hd None lf) = None) as -> by by destruct Hlf as [->| ->].
  simpl uncaught. simpl caught. cbv iota.
  pose proof (plus_two_hours_micros dt) as H2h. unfold us_per_second in H2h.
  destruct (if caught (hd None lf) then None else _) as [[i old]|] eqn:Hf.
  - assert (Hi : m !! i = Some old ∧ summary old = title).
    { destruct (caught (hd None lf)); [done|].
      by apply find_title_Some in Hf as [[? _]%elem_of_list_items ?]. }
    destruct Hi as [Hi Ht]. rewrite Hi.
    eexists _, _. split; [done|]. simpl. split_and!; try done.
    left. by exists old.
  - eexists _, _. split; [done|]. simpl. split_and!; try done. by right.
Qed.

Lemma add_or_update_event_writes_witness :
  ∃ i w',
    add_or_update_event (summary seeded_event) (utc 2025 3 16 4 0 0)
      "Formula 1 Race" "Melbourne, Australia" seeded_world = (Ok (Some i), w')
    ∧ events w' !! i
      = Some (mkEvent (summary seeded_event) "Formula 1 Race"
                "Melbourne, Australia" (utc 2025 3 16 4 0 0)
                (utc 2025 3 16 6 0 0) "UTC").
Proof.
  destruct (add_or_update_event_writes (summary seeded_event)
              (utc 2025 3 16 4 0 0) "Formula 1 Race" "Melbourne, Australia"
              seeded_world) as (i & w' & Hrun & He & _);
    try (vm_compute; reflexivity).
  { vm_compute. discriminate. }
  { by left. }
  exists i, w'. split; [exact Hrun|]. rewrite He. apply lookup_insert_eq.
Defined.

(** ** Titles and locations *)

Section titles.

Lemma length_append (a b : string) :
  String.length (a +:+ b) = (String.length a + String.length b)%nat.
Proof. induction a as [|c a IH]; simpl; [done|]. by rewrite IH. Qed.

Lemma append_cancel_l (p a b : string) : p +:+ a = p +:+ b → a = b.
Proof. induction p as [|c p IH]; simpl; [done|]. intros [= H]. by apply IH. Qed.

Lemma session_label_fixed (st : string) :
  st ∈ session_types →
  (st = "race" ∧ session_label st = "Race")
  ∨ (st = "qualy" ∧ session_label st = "Qualifying")
  ∨ (st = "sprintRace" ∧ session_label st = "Sprint Race")
  ∨ (st = "sprintQualy" ∧ session_label st = "Sprint Qualifying").
Proof.
  intros Hst. apply list_elem_of_In in Hst.
  destruct Hst as [<-|[<-|[<-|[<-|[]]]]]; auto 10.
Qed.

Lemma format_session_title_shape (r : race) (st : string) :
  ∃ hint, format_session_title r st
          = ("F1 " +:+ stripped_name r +:+ " - ") +:+ session_label st +:+ hint
          ∧ ∀ st', format_session_title r st'
                   = ("F1 " +:+ stripped_name r +:+ " - ")
                     +:+ session_label st' +:+ hint.
Proof.
  unfold format_session_title.
  destruct (PyStr.truthy (get_str (circuitName (circuit r)))).
  { eexists. split; [|intros st']; by rewrite !append_assoc. }
  destruct (PyStr.truthy (get_str (country (circuit r)))).
  { eexists. split; [|intros st']; by rewrite !append_assoc. }
  exists EmptyString. split; [|intros st']; by rewrite !append_assoc, append_empty_r.
Qed.

End titles.

(** X7.  The four session types of one race get four different titles:
    two sessions of a race never share a dedup key, also when they fall
    on the same day. *)
Theorem session_titles_distinct (r : race) (st1 st2 : string) :
  st1 ∈ session_types → st2 ∈ session_types → st1 ≠ st2 →
  format_session_title r st1 ≠ format_session_title r st2.
Proof.
  intros H1 H2 Hne Heq.
  destruct (format_session_title_shape r st1) as (hint & _ & Hshape).
  rewrite (Hshape st1), (Hshape st2) in Heq.
  apply append_cancel_l in Heq.
  apply (f_equal String.length) in Heq. rewrite !length_append in Heq.
  destruct (session_label_fixed st1 H1) as [[-> L1]|[[-> L1]|[[-> L1]|[-> L1]]]];
    destruct (session_label_fixed st2 H2) as [[-> L2]|[[-> L2]|[[-> L2]|[-> L2]]]];
    try done; rewrite L1, L2 in Heq; simpl in Heq; lia.
Qed.

Lemma session_titles_distinct_witness :
  format_session_title melbourne "race" ≠ format_session_title melbourne "qualy".
Proof.
  apply session_titles_distinct.
  - vm_compute. repeat constructor.
  - vm_compute. repeat constructor.
  - discriminate.
Defined.

Section strip_facts.

Variable chars : list ascii.

Lemma lstrip_app_l (a b : string) :
  a ≠ EmptyString → PyStr.lstrip chars a = a →
  PyStr.lstrip chars (a +:+ b) = a +:+ b.
Proof.
  destruct a as [|c a]; [done|]. intros _. simpl.
  destruct (PyStr.in_chars chars c) eqn:Hc; [|done].
  intros Heq. exfalso.
  assert (Hlen : ∀ s, (String.length (PyStr.lstrip chars s) ≤ String.length s)%nat).
  { induction s as [|d s IH]; simpl; [lia|].
    destruct (PyStr.in_chars chars d); simpl; lia. }
  pose proof (Hlen a) as Hl. rewrite Heq in Hl. simpl in Hl. lia.
Qed.

Lemma rstrip_app_r (a b : string) :
  b ≠ EmptyString → PyStr.rstrip chars b = b →
  PyStr.rstrip chars (a +:+ b) = a +:+ b.
Proof.
  intros Hne Hb. induction a as [|c a IH]; simpl; [done|].
  rewrite IH. destruct (a +:+ b) eqn:Hab; [|done].
  by destruct a, b.
Qed.

Lemma rstrip_all (x : string) :
  (∀ c, PyStr.occurs c x = true → PyStr.in_chars chars c = true) →
  PyStr.rstrip chars x = EmptyString.
Proof.
  induction x as [|c x IH]; simpl; [done|]. intros Hall.
  rewrite IH.
  - rewrite (Hall c); [done|]. by rewrite Ascii.eqb_refl.
  - intros d Hd. apply Hall. rewrite Hd. by rewrite orb_true_r.
Qed.

Lemma rstrip_app_strippable (a x : string) :
  (∀ c, PyStr.occurs c x = true → PyStr.in_chars chars c = true) →
  PyStr.rstrip chars (a +:+ x) = PyStr.rstrip chars a.
Proof.
  intros Hall. induction a as [|c a IH]; simpl; [by apply rstrip_all|].
  by rewrite IH.
Qed.

End strip_facts.

Lemma comma_space_strippable (c : ascii) :
  PyStr.occurs c ", " = true → PyStr.in_chars location_strip_chars c = true.
Proof. destruct c as [[] [] [] [] [] [] [] []]; by vm_compute. Qed.

(** X8.  The location of an event, by what the circuit record holds:
    city and country joined by a comma when both are there, the one that
    is there when only one is, and the empty text when neither is; a
    city without a country is still a location. *)
Theorem race_location_cases (r : race) :
  (trimmed (get_str (city (circuit r))) →
   trimmed (get_str (country (circuit r))) →
   race_location r
   = get_str (city (circuit r)) +:+ ", " +:+ get_str (country (circuit r)))
  ∧ (get_str (city (circuit r)) = EmptyString →
     trimmed (get_str (country (circuit r))) →
     race_location r = get_str (country (circuit r)))
  ∧ (trimmed (get_str (city (circuit r))) →
     get_str (country (circuit r)) = EmptyString →
     race_location r = get_str (city (circuit r)))
  ∧ (get_str (city (circuit r)) = EmptyString →
     get_str (country (circuit r)) = EmptyString →
     race_location r = EmptyString).
Proof.
  unfold race_location, PyStr.strip. fold location_strip_chars.
  generalize (get_str (city (circuit r))) (get_str (country (circuit r))).
  intros a b. split_and!.
  - intros (Ha & Hla & Hra) (Hb & Hlb & Hrb).
    rewrite lstrip_app_l by done.
    replace (a +:+ ", " +:+ b) with ((a +:+ ", ") +:+ b)
      by by rewrite append_assoc.
    by rewrite rstrip_app_r.
  - intros -> (Hb & Hlb & Hrb). simpl. by rewrite Hlb.
  - intros (Ha & Hla & Hra) ->.
    rewrite lstrip_app_l by done.
    rewrite rstrip_app_strippable; [done|]. apply comma_space_strippable.
  - by intros -> ->.
Qed.

Lemma race_location_cases_witness :
  race_location imola = "Imola, Italy".
Proof.
  refine (proj1 (race_location_cases imola) _ _);
    (split; [discriminate|split; reflexivity]).
Defined.

(** ** Well-shaped timestamps *)

Section iso_ranges.

Variables y m d h mi s : Z.
Hypothesis Hy : 0 ≤ y ≤ 9999.
Hypothesis Hm : 0 ≤ m ≤ 99.
Hypothesis Hd : 0 ≤ d ≤ 99.
Hypothesis Hh : 0 ≤ h ≤ 99.
Hypothesis Hmi : 0 ≤ mi ≤ 99.
Hypothesis Hs : 0 ≤ s ≤ 99.

Lemma split_sign_iso_time_rest (rest : string) :
  split_sign (iso_time h mi s +:+ rest)
  = ((iso_time h mi s +:+ (split_sign rest).1), (split_sign rest).2).
Proof.
  unfold iso_time, fmt2.
  name_digit (h / 10). name_digit (h mod 10).
  name_digit (mi / 10). name_digit (mi mod 10).
  name_digit (s / 10). name_digit (s mod 10).
  simpl. digit_tests. simpl. digit_tests. simpl. digit_tests. simpl.
  by destruct (split_sign rest).
Qed.

Lemma parsed_iso_utc :
  parsed (iso_date y m d) (iso_time h mi s +:+ "Z")
  = if fields_ok y m d h mi s 0 then Some (mkdt y m d h mi s 0 (Some 0)) else None.
Proof.
  unfold parsed.
  replace (iso_date y m d +:+ "T" +:+ iso_time h mi s +:+ "Z")
    with ((iso_date y m d +:+ "T" +:+ iso_time h mi s) +:+ "Z")
    by (by rewrite !append_assoc).
  rewrite replace_char_app.
  rewrite replace_char_absent by by apply occurs_Z_iso.
  change (PyStr.replace_char "Z" "+00:00" "Z") with "+00:00".
  rewrite !append_assoc.
  unfold fromisoformat.
  destruct (slice_iso_date y m d (iso_time h mi s +:+ "+00:00")) as [-> ->].
  rewrite parse_isoformat_date_iso by done.
  unfold parse_isoformat_time.
  rewrite split_sign_iso_time_rest. simpl split_sign. cbv beta iota.
  simpl fst. simpl snd.
  rewrite append_empty_r, parse_hh_mm_ss_ff_iso by done.
  change (parse_tz false "00:00") with (Some 0).
  unfold Datetime.new.
  assert (PyStr.truthy (iso_time h mi s +:+ "+00:00") = true) as ->
    by by unfold iso_time, fmt2.
  by destruct (fields_ok y m d h mi s 0).
Qed.

End iso_ranges.

(** X9.  On a timestamp of the shape YYYY-MM-DD and HH:MM:SSZ the parser
    checks the calendar: it returns the UTC instant when the fields name
    a real date and time, and otherwise (month 13, 30 February, hour 24)
    logs a warning and returns [None]. *)
Theorem parse_checks_field_ranges (y m d h mi s : Z) (w : world) :
  0 ≤ y ≤ 9999 → 0 ≤ m ≤ 99 → 0 ≤ d ≤ 99 →
  0 ≤ h ≤ 99 → 0 ≤ mi ≤ 99 → 0 ≤ s ≤ 99 →
  parse_f1_datetime (iso_date y m d) (iso_time h mi s +:+ "Z") w
  = if fields_ok y m d h mi s 0
    then (Ok (Some (mkdt y m d h mi s 0 (Some 0))), w)
    else (Ok None,
          add_log (LogParseWarning (iso_date y m d) (iso_time h mi s +:+ "Z")) w).
Proof.
  intros Hy Hm Hd Hh Hmi Hs.
  rewrite parse_f1_datetime_run by done.
  rewrite parsed_iso_utc by done. by destruct (fields_ok y m d h mi s 0).
Qed.

Lemma parse_checks_field_ranges_witness :
  parse_f1_datetime "2025-02-30" "04:00:00Z" world0
  = (Ok None, add_log (LogParseWarning "2025-02-30" "04:00:00Z") world0).
Proof.
  refine (parse_checks_field_ranges 2025 2 30 4 0 0 world0 _ _ _ _ _ _); lia.
Defined.

(** ** A pass without eligible sessions *)

Lemma quiet_loop (now : datetime) (l : list (race * string)) :
  ∀ (c : counts) (m : gmap nat event) (n : nat) (lf wf : list (option exn))
    (lg : list log_entry),
  (∀ rs, rs ∈ l → session_quiet now rs = true) →
  ∃ lg', foldM (visit now) c l (mkWorld m n lf wf lg)
         = (Ok (tally c 0 0 (count_sessions is_past now l)
                      (count_sessions is_invalid now l)),
            mkWorld m n lf wf lg').
Proof.
  induction l as [|[r st] l IH]; intros c m n lf wf lg Hq.
  { exists lg. simpl. unfold ret. by rewrite tally_zero. }
  assert (Hq' : ∀ rs, rs ∈ l → session_quiet now rs = true).
  { intros rs Hin. apply Hq. by right. }
  specialize (Hq (r, st) ltac:(left)). unfold session_quiet in Hq. simpl in Hq.
  rewrite !count_sessions_cons. simpl foldM. unfold bind.
  pose proof (visit_cases now c r st (mkWorld m n lf wf lg)) as Hvisit.
  destruct (classify r now st) as [| | |dt|] eqn:Hc; try done.
  - rewrite Hvisit. destruct (IH c m n lf wf lg Hq') as [lg' ->]. by exists lg'.
  - destruct Hvisit as (d & t & ->).
    destruct (IH (bump_invalid c) m n lf wf (lg ++ [LogParseWarning d t]) Hq')
      as [lg' Heq].
    exists lg'. unfold add_log. simpl. rewrite Heq.
    do 2 f_equal. unfold tally, bump_invalid. simpl. f_equal; lia.
  - rewrite Hvisit. destruct (IH (bump_past c) m n lf wf lg Hq') as [lg' Heq].
    exists lg'. rewrite Heq.
    do 2 f_equal. unfold tally, bump_past. simpl. f_equal; lia.
Qed.

(** X10.  A pass over a feed without eligible sessions (all absent,
    invalid or past) makes no remote call: events, identifiers and the
    pending outcomes of lookups and writes are as before.  It reports
    added = 0 and updated = 0 and ends with the all-past warning when a
    past session was counted, with the nothing-done warning otherwise. *)
Theorem quiet_pass_calls_nothing (races : list race) (now : datetime)
    (m : gmap nat event) (n : nat) (lf wf : list (option exn))
    (lg : list log_entry) :
  races ≠ [] → feed_quiet races now = true →
  ∃ lg1,
    sync_f1_schedule races now (mkWorld m n lf wf lg)
    = (Ok tt,
       mkWorld m n lf wf
         (lg1 ++ [LogSummary (length races) 0 0
                    (count_sessions is_past now (feed_sessions races))
                    (count_sessions is_invalid now (feed_sessions races));
                  if Nat.ltb 0 (count_sessions is_past now (feed_sessions races))
                  then LogAllPast else LogNothingDone])).
Proof.
  intros Hne Hq. rewrite sync_f1_schedule_run by done. rewrite sync_loop_flat.
  destruct (quiet_loop now (feed_sessions races) counts0 m n lf wf
              (lg ++ [LogStarting; LogProcessing (length races)]))
    as [lg1 Hloop].
  { intros rs Hin. unfold feed_quiet in Hq. rewrite forallb_forall in Hq.
    by apply Hq, list_elem_of_In. }
  assert (loop_start races (mkWorld m n lf wf lg)
          = mkWorld m n lf wf (lg ++ [LogStarting; LogProcessing (length races)]))
    as -> by (unfold loop_start, add_log; simpl; by rewrite <- app_assoc).
  rewrite Hloop. exists lg1. unfold closing, add_log, tally. simpl.
  destruct (Nat.ltb 0 _); simpl; by rewrite <- app_assoc.
Qed.

Lemma quiet_pass_calls_nothing_witness :
  ∃ lg1,
    sync_f1_schedule [melbourne] (utc 2025 12 1 0 0 0)
      (mkWorld {[ 0%nat := seeded_event ]} 1
               [Some HttpError] [Some TransportError] [])
    = (Ok tt, mkWorld {[ 0%nat := seeded_event ]} 1
                [Some HttpError] [Some TransportError]
                (lg1 ++ [LogSummary 1 0 0 2 0; LogAllPast])).
Proof.
  refine (quiet_pass_calls_nothing [melbourne] (utc 2025 12 1 0 0 0)
            {[ 0%nat := seeded_event ]} 1
            [Some HttpError] [Some TransportError] [] _ _).
  - discriminate.
  - vm_compute. reflexivity.
Defined.

(** ** A session that moved *)

(** X11.  When the feed moves a session whose event exists, to a new
    valid UTC start, in a store of events of the shape the
    reconciliation writes with at most one event per title and day, and
    no remote call fails: a new start on the same calendar day with hour
    up to 21 replaces the event in place (counted as updated, same
    identifier); a new start with hour up to 21 on another day, free of
    the title, creates a second event and leaves the old one where it
    was (counted as added: the reconciliation never removes the stale
    event); a new start at hour 22 or 23 ends the handling in
    [ValueError] and leaves the store as it was. *)
Theorem moved_session (r : race) (st : string) (dt_old dt_new : datetime)
    (c : counts) (m : gmap nat event) (n : nat) (lg : list log_entry) (i : nat) :
  dt_valid dt_new → tzinfo dt_new = Some 0 →
  store_wf m → dedup m → ids_below n m →
  m !! i = Some (cand_event (r, st, dt_old)) →
  (hour dt_new ≤ 21 → utc_day dt_new = utc_day dt_old →
   ∃ lg', reconcile_session r st dt_new c (mkWorld m n [] [] lg)
          = (Ok (bump_updated c),
             mkWorld (<[i := cand_event (r, st, dt_new)]> m) n [] [] lg'))
  ∧ (hour dt_new ≤ 21 → key_free m (cand_key (r, st, dt_new)) →
     ∃ lg', reconcile_session r st dt_new c (mkWorld m n [] [] lg)
            = (Ok (bump_added c),
               mkWorld (<[n := cand_event (r, st, dt_new)]> m) (S n) [] [] lg')
            ∧ <[n := cand_event (r, st, dt_new)]> m !! i
              = Some (cand_event (r, st, dt_old)))
  ∧ (22 ≤ hour dt_new →
     ∃ lg', reconcile_session r st dt_new c (mkWorld m n [] [] lg)
            = (Raise ValueError, mkWorld m n [] [] lg')).
Proof.
  intros Hv Htz Hwf Hdd Hids Hi. split_and!.
  - intros Hh Hday.
    destruct (reconcile_existing r st dt_new c m n [] lg i _ Hv Htz Hh Hwf Hdd Hi)
      as [lg' Hrun].
    { unfold event_key, cand_key. simpl. by rewrite Hday. }
    by exists lg'.
  - intros Hh Hfree.
    destruct (reconcile_new r st dt_new c m n [] lg Hv Htz Hh Hwf Hfree)
      as [lg' Hrun].
    exists lg'. split; [done|].
    rewrite lookup_insert_ne; [done|]. apply Hids in Hi. lia.
  - intros Hh.
    destruct (reconcile_session_late r st dt_new c m n [] [] lg Hv Hh)
      as [lg' Hrun].
    by exists lg'.
Qed.

Lemma moved_session_witness :
  ∃ lg', reconcile_session melbourne "race" (utc 2025 3 16 6 0 0) counts0
           (mkWorld {[ 0%nat := cand_event (melbourne, "race", utc 2025 3 16 4 0 0) ]}
                    1 [] [] [])
         = (Ok (bump_updated counts0),
            mkWorld (<[0%nat := cand_event (melbourne, "race", utc 2025 3 16 6 0 0)]>
                       {[ 0%nat := cand_event (melbourne, "race", utc 2025 3 16 4 0 0) ]})
                    1 [] [] lg').
Proof.
  refine (proj1 (moved_session melbourne "race" (utc 2025 3 16 4 0 0)
                   (utc 2025 3 16 6 0 0) counts0
                   {[ 0%nat := cand_event (melbourne, "race", utc 2025 3 16 4 0 0) ]}
                   1 [] 0%nat _ _ _ _ _ _) _ _).
  - reflexivity.
  - reflexivity.
  - intros j e [<- <-]%lookup_singleton_Some.
    split_and!; [reflexivity|reflexivity|vm_compute; discriminate|reflexivity].
  - intros j k e1 e2 [<- _]%lookup_singleton_Some [<- _]%lookup_singleton_Some.
    done.
  - intros j e [<- _]%lookup_singleton_Some. lia.
  - apply lookup_singleton_eq.
  - vm_compute. discriminate.
  - vm_compute. reflexivity.
Defined.

(** ** The feed client and the calendar container *)

(** X12.  [get_f1_schedule] returns races only for a response with
    status 200 whose body decodes and holds them; every other outcome
    gives the empty list, on which [sync_f1_schedule] logs its warning
    and ends without a remote call. *)
Theorem fetch_failure_ends_pass (reply : http_reply) (now : datetime) (w : world) :
  ((get_f1_schedule reply).1 ≠ [] →
   reply = Reply 200 (Some (Some (get_f1_schedule reply).1)))
  ∧ ((∀ l, l ≠ [] → reply ≠ Reply 200 (Some (Some l))) →
     (get_f1_schedule reply).1 = []
     ∧ sync_f1_schedule (get_f1_schedule reply).1 now w
       = (Ok tt, add_log LogNoRaces (add_log LogStarting w))).
Proof.
  assert (Hok : (get_f1_schedule reply).1 ≠ [] →
                reply = Reply 200 (Some (Some (get_f1_schedule reply).1))).
  { destruct reply as [|status [[l|]|]]; simpl; try done;
      destruct (status =? 200) eqn:Hs; simpl; try done.
    apply Z.eqb_eq in Hs as ->. done. }
  split; [done|]. intros Hfail.
  assert ((get_f1_schedule reply).1 = []) as ->; [|done].
  destruct ((get_f1_schedule reply).1) as [|r l] eqn:Hres; [done|].
  exfalso. apply (Hfail (r :: l)); [done|]. by apply Hok.
Qed.

Lemma fetch_failure_ends_pass_witness :
  sync_f1_schedule (get_f1_schedule (Reply 503 None)).1 now_feb seeded_world
  = (Ok tt, add_log LogNoRaces (add_log LogStarting seeded_world)).
Proof.
  refine (proj2 (proj2 (fetch_failure_ends_pass (Reply 503 None) now_feb
                          seeded_world) _)).
  intros l _. discriminate.
Defined.

Section container.

Implicit Types (a : account) (name email : string).

(** Sharing never raises and touches nothing but the rules of its
    calendar; without failing calls it leaves the address on the rules,
    adding it only when it is not there. *)
Lemma share_calendar_with_user_cases (id : nat) email a :
  ∃ a', share_calendar_with_user id email a = (Ok tt, a')
    ∧ calendar_list a' = calendar_list a
    ∧ next_calendar a' = next_calendar a
    ∧ account_email a' = account_email a
    ∧ (∀ j, j ≠ id → acls a' !! j = acls a !! j)
    ∧ (is_Some (acls a !! id) → is_Some (acls a' !! id))
    ∧ (api_faults a = [] →
       api_faults a' = []
       ∧ (PyStr.truthy email = true → is_Some (acls a !! id) →
          shared_with a' id email = true)
       ∧ (shared_with a id email = true ∨ PyStr.truthy email = false →
          acls a' = acls a)).
Proof.
  destruct a as [cl ac nc em fl lg].
  unfold share_calendar_with_user, shared_with. simpl.
  destruct (PyStr.truthy email) eqn:He; simpl.
  2:{ eexists. split; [done|]. simpl. by split_and!. }
  unfold abind, acl_list_call, abind, api_call, aret, alog. simpl.
  destruct (hd false fl) eqn:Hf1.
  { eexists. split; [done|]. simpl. split_and!; try done.
    intros ->. done. }
  destruct (ac !! id) as [rules|] eqn:Hid; simpl.
  2:{ eexists. split; [done|]. simpl. split_and!; try done.
      intros ->. split_and!; try done; by intros _ [? ?]. }
  destruct (existsb _ rules) eqn:Hex; simpl.
  { eexists. split; [done|]. simpl. rewrite ?Hid. split_and!; try done.
    intros ->. by split_and!. }
  unfold acl_insert_call, abind, api_call. simpl.
  destruct (hd false (tl fl)) eqn:Hf2; simpl.
  { eexists. split; [done|]. simpl. split_and!; try done.
    intros ->. done. }
  rewrite Hid. eexists. split; [done|]. simpl. split_and!; try done.
  - intros j Hj. by rewrite lookup_insert_ne.
  - by rewrite lookup_insert_eq.
  - intros ->. split_and!; try done.
    + intros _ _. rewrite lookup_insert_eq, existsb_app. simpl.
      by rewrite String.eqb_refl, orb_true_r.
    + by intros [?|?].
Qed.

Lemma named_app name (l1 l2 : list calendar_entry) :
  named name (l1 ++ l2) = named name l1 ++ named name l2.
Proof. unfold named. apply List.filter_app. Qed.

Lemma named_elem name (l : list calendar_entry) (entry : calendar_entry) :
  entry ∈ named name l ↔ entry ∈ l ∧ cal_summary entry = name.
Proof.
  unfold named. rewrite !list_elem_of_In, filter_In.
  by rewrite String.eqb_eq.
Qed.


Lemma get_or_create_calendar_listed email name a :
  hd false (api_faults a) = false →
  get_or_create_calendar email name a
  = let a0 := mkAccount (calendar_list a) (acls a) (next_calendar a)
                        (account_email a) (tl (api_faults a))
                        (acct_log a ++ [LogSearching name]) in
    match named name (calendar_list a) with
    | first :: rest =>
        let entry :=
          List.hd first
            (List.filter (λ cal, negb (String.eqb (access_role cal) "owner"))
                         (first :: rest)) in
        (Ok (cal_id entry),
         (share_calendar_with_user (cal_id entry) email
            (mkAccount (calendar_list a) (acls a) (next_calendar a)
                       (account_email a) (tl (api_faults a))
                       (acct_log a0 ++ [LogFound name]))).2)
    | [] =>
        if hd false (tl (api_faults a))
        then (Raise HttpError,
              mkAccount (calendar_list a) (acls a) (next_calendar a)
                        (account_email a) (tl (tl (api_faults a)))
                        ((acct_log a0 ++ [LogNotFound name]) ++ [LogCalendarError]))
        else
          (Ok (next_calendar a),
           (share_calendar_with_user (next_calendar a) email
              (mkAccount (calendar_list a ++ [mkCal (next_calendar a) name "owner"])
                         (<[next_calendar a := [mkRule (account_email a) "owner"]]>
                            (acls a))
                         (S (next_calendar a)) (account_email a)
                         (tl (tl (api_faults a)))
                         ((acct_log a0 ++ [LogNotFound name])
                            ++ [LogCreated name]))).2)
    end.
Proof.
  intros Hf. destruct a as [cl ac nc em fl lg]. simpl in *.
  unfold get_or_create_calendar, abind at 1, calendar_list_call, abind at 1,
    api_call. simpl. rewrite Hf. unfold abind at 1, alog at 1. simpl.
  fold (named name cl). destruct (named name cl) as [|first rest] eqn:Hn.
  - unfold abind at 1, alog at 1. simpl.
    unfold abind at 1, calendars_insert, abind at 1, api_call. simpl.
    destruct (hd false (tl fl)); [done|].
    unfold abind at 1, alog at 1. simpl. unfold abind at 1.
    destruct (share_calendar_with_user_cases nc email
                (mkAccount (cl ++ [mkCal nc name "owner"])
                   (<[nc := [mkRule em "owner"]]> ac) (S nc) em (tl (tl fl))
                   (((lg ++ [LogSearching name]) ++ [LogNotFound name])
                      ++ [LogCreated name]))) as (a' & -> & _).
    done.
  - cbv zeta. unfold abind at 1, alog at 1. simpl. unfold abind at 1.
    match goal with
    | |- context [share_calendar_with_user ?i email ?acc] =>
        destruct (share_calendar_with_user_cases i email acc) as (a' & -> & _)
    end.
    done.
Qed.

End container.

(** X13.  When the calendar list can be read and holds a calendar with
    the name, [get_or_create_calendar] returns the identifier of one of
    these and creates nothing, also when sharing fails; it returns a
    calendar owned by the account only when every calendar with the name
    is owned by it. *)
Theorem get_or_create_calendar_finds (email name : string) (a : account) :
  hd false (api_faults a) = false → named name (calendar_list a) ≠ [] →
  ∃ a' entry,
    get_or_create_calendar email name a = (Ok (cal_id entry), a')
    ∧ calendar_list a' = calendar_list a
    ∧ next_calendar a' = next_calendar a
    ∧ entry ∈ calendar_list a ∧ cal_summary entry = name
    ∧ (access_role entry = "owner" →
       ∀ other, other ∈ calendar_list a → cal_summary other = name →
                access_role other = "owner").
Proof.
  intros Hf Hne. rewrite get_or_create_calendar_listed by done.
  destruct (named name (calendar_list a)) as [|first rest] eqn:Hn; [done|].
  cbv zeta.
  match goal with
  | |- context [share_calendar_with_user ?i email ?acc] =>
      destruct (share_calendar_with_user_cases i email acc)
        as (a' & Hshare & Hcl & Hnc & _)
  end.
  rewrite Hshare. simpl in Hcl, Hnc.
  set (nonowner := List.filter
                     (λ cal, negb (String.eqb (access_role cal) "owner"))
                     (first :: rest)).
  assert (Hin : ∀ x, x ∈ first :: rest → x ∈ calendar_list a ∧ cal_summary x = name).
  { intros x Hx. rewrite <- Hn in Hx. by apply named_elem in Hx. }
  exists a', (List.hd first nonowner).
  split; [done|]. split; [done|]. split; [done|].
  destruct nonowner as [|s rest'] eqn:Hno; simpl.
  - destruct (Hin first ltac:(left)) as [H1 H2]. split_and!; try done.
    intros _ other Hother Hname.
    assert (Hmem : other ∈ first :: rest).
    { rewrite <- Hn. by apply named_elem. }
    apply list_elem_of_In in Hmem.
    destruct (String.eqb (access_role other) "owner") eqn:Hrole.
    { by apply String.eqb_eq in Hrole. }
    assert (In other nonowner) as Hbad.
    { unfold nonowner. apply filter_In. by rewrite Hrole. }
    by rewrite Hno in Hbad.
  - assert (Hs : In s nonowner) by (rewrite Hno; by left).
    unfold nonowner in Hs. apply filter_In in Hs as [Hs Hrole].
    destruct (Hin s ltac:(by apply list_elem_of_In)) as [H1 H2].
    split_and!; try done. intros Howner. rewrite Howner in Hrole. done.
Qed.

Lemma get_or_create_calendar_finds_witness :
  ∃ a', get_or_create_calendar "fan@example.org" "F1" sample_account = (Ok 2%nat, a')
        ∧ calendar_list a' = calendar_list sample_account.
Proof.
  destruct (get_or_create_calendar_finds "fan@example.org" "F1" sample_account
              eq_refl ltac:(vm_compute; discriminate))
    as (a' & entry & Hrun & Hcl & _).
  exists a'. split; [|exact Hcl].
  rewrite Hrun. vm_compute in Hrun. injection Hrun as Hid _.
  by rewrite Hid.
Defined.

(** X14.  Without a failing call and without a calendar of the name,
    [get_or_create_calendar] creates exactly one calendar, owned by the
    account, returns its identifier and leaves the user's address on its
    rules; a second call returns the same identifier and changes
    neither the calendar list nor the rules. *)
Theorem get_or_create_calendar_creates_once (email name : string) (a : account) :
  api_faults a = [] → named name (calendar_list a) = [] →
  ∃ a1 a2,
    get_or_create_calendar email name a = (Ok (next_calendar a), a1)
    ∧ calendar_list a1
      = calendar_list a ++ [mkCal (next_calendar a) name "owner"]
    ∧ (PyStr.truthy email = true → shared_with a1 (next_calendar a) email = true)
    ∧ get_or_create_calendar email name a1 = (Ok (next_calendar a), a2)
    ∧ calendar_list a2 = calendar_list a1
    ∧ acls a2 = acls a1.
Proof.
  intros Hf Hn.
  rewrite get_or_create_calendar_listed by by rewrite Hf.
  rewrite Hn, Hf. simpl hd. cbv iota zeta. simpl tl.
  match goal with
  | |- context [share_calendar_with_user ?i email ?acc] =>
      destruct (share_calendar_with_user_cases i email acc)
        as (a1 & Hshare & Hcl & Hnc & Hem & _ & _ & Hnofault)
  end.
  rewrite Hshare. simpl in Hcl, Hnc, Hem, Hnofault.
  destruct (Hnofault eq_refl) as (Hf1 & Hshared & _).
  assert (Hsh : PyStr.truthy email = true →
                shared_with a1 (next_calendar a) email = true).
  { intros He. apply Hshared; [done|]. rewrite lookup_insert_eq. by eexists. }
  exists a1. simpl.
  assert (Hn1 : named name (calendar_list a1)
                = [mkCal (next_calendar a) name "owner"]).
  { rewrite Hcl, named_app, Hn. unfold named. simpl.
    by rewrite String.eqb_refl. }
  rewrite get_or_create_calendar_listed by by rewrite Hf1.
  rewrite Hn1. cbv zeta. simpl List.filter. simpl List.hd. simpl cal_id.
  match goal with
  | |- context [share_calendar_with_user ?i email ?acc] =>
      destruct (share_calendar_with_user_cases i email acc)
        as (a2 & Hshare2 & Hcl2 & _ & _ & _ & _ & Hnofault2)
  end.
  rewrite Hshare2. simpl in Hcl2, Hnofault2.
  destruct (Hnofault2 ltac:(by rewrite Hf1)) as (_ & _ & Hsame).
  exists a2. split_and!; try done.
  rewrite Hsame; [done|].
  destruct (PyStr.truthy email) eqn:He; [left|by right].
  unfold shared_with in *. simpl. by apply Hsh.
Qed.

Lemma get_or_create_calendar_creates_once_witness :
  ∃ a1 a2,
    get_or_create_calendar "fan@example.org" "Formula One" sample_account
    = (Ok 3%nat, a1)
    ∧ shared_with a1 3 "fan@example.org" = true
    ∧ get_or_create_calendar "fan@example.org" "Formula One" a1 = (Ok 3%nat, a2)
    ∧ calendar_list a2 = calendar_list a1 ∧ acls a2 = acls a1.
Proof.
  destruct (get_or_create_calendar_creates_once "fan@example.org" "Formula One"
              sample_account eq_refl eq_refl)
    as (a1 & a2 & H1 & _ & Hsh & H2 & Hcl & Hacl).
  exists a1, a2. split; [exact H1|]. split; [exact (Hsh eq_refl)|].
  split; [exact H2|]. by split.
Defined.


